(** * Dynatrace Grail DQL proxy for Grafana: a shallow embedding of [app.py]

    The development follows the layout of [app.py]: the Python values that
    travel through the proxy, the timestamp normaliser [_to_epoch_ms], the
    two shaping adapters, the cache key deriver, the TTL cache, the
    submit-and-poll engine [grail_query] and the request handlers.  The
    earlier variant of the adapters kept in [apigrail.py] is embedded in
    the module [Apigrail].

    Conventions.
    - A Python [str] is represented by its UTF-8 encoding (a [string] of
      bytes).  Joining, splitting at an ASCII character, substring search
      for an ASCII needle and code-point ordering all commute with that
      encoding.
    - A Python [float] is a binary64 number ([PrimFloat.float]); a Python
      [int] is a [Z].
    - Wall-clock readings ([time.time()]) are rational numbers of seconds.
    - A Python call either returns or raises: [result A]. *)

From Stdlib Require Import ZArith QArith Qminmax String Ascii List Lia Bool.
From Stdlib Require Import Sorting.Sorted Sorting.Permutation.
From Stdlib Require Import Floats.PrimFloat Floats.FloatOps Floats.SpecFloat.
From Stdlib Require Import Uint63 DecimalString.
From stdpp Require Import base option gmap strings list.

Open Scope string_scope.
Open Scope list_scope.
Open Scope Z_scope.

(** ** Python values and exceptions *)

(** The scalars a JSON record can carry; [VOther] stands for a nested list
    or object, of which the proxy only ever tests the emptiness. *)
Inductive value : Type :=
  | VNone
  | VBool (b : bool)
  | VInt (n : Z)
  | VFloat (f : float)
  | VStr (s : string)
  | VOther (nonempty : bool).

(** A record of the backend's result: a [dict] from field names to values. *)
Abbreviation record := (gmap string value).

(** [r.get(k)]: the value stored under [k], [None] when the key is missing. *)
Definition py_get (r : record) (k : string) : value := default VNone (r !! k).

(** A JSON body as the proxy reads it: [body.get("jobId")],
    [body.get("status")] and [body.get("result", {}).get("records", [])]. *)
Record jobject : Type := {
  j_jobId : value;
  j_status : value;
  j_records : list record
}.

(** The detail of an [HTTPException]: a text, or the [json.dumps] of a body. *)
Inductive detail : Type :=
  | DText (s : string)
  | DJson (j : jobject).

Inductive exn : Type :=
  | ValueError
  | OverflowError
  | TypeError
  | TransportError
  | BodyError
  | HTTPException (status : Z) (d : detail).

Inductive result (A : Type) : Type :=
  | Ret (a : A)
  | Raise (e : exn).
Arguments Ret {A} a.
Arguments Raise {A} e.

(** Sequencing: an exception raised by [m] propagates. *)
Definition bind {A B : Type} (m : result A) (k : A -> result B) : result B :=
  match m with
  | Ret a => k a
  | Raise e => Raise e
  end.

Notation "'let!' x ':=' m 'in' k" := (bind m (fun x => k))
  (at level 10, x name, m at level 100, k at level 200).

(** ** Numbers *)

(** [int(f)] for a float: truncation towards zero; [ValueError] on NaN and
    [OverflowError] on an infinity. *)
Definition int_of_float (f : float) : result Z :=
  match Prim2SF f with
  | S754_zero _ => Ret 0
  | S754_infinity _ => Raise OverflowError
  | S754_nan => Raise ValueError
  | S754_finite s m e =>
      let a := if 0 <=? e then Z.pos m * 2 ^ e else Z.pos m / 2 ^ (- e) in
      Ret (if s then - a else a)
  end.

Definition ten12 : Z := 10 ^ 12.
Definition ten12f : float := 1e12%float.

(** The values for which [isinstance(ts, (int, float))] holds; [bool] is a
    subclass of [int]. *)
Definition is_numeric (v : value) : bool :=
  match v with
  | VBool _ | VInt _ | VFloat _ => true
  | _ => false
  end.

(** [ts < 10**12] on a numeric value. *)
Definition lt_ten12 (v : value) : bool :=
  match v with
  | VBool b => Z.b2z b <? ten12
  | VInt n => n <? ten12
  | VFloat f => PrimFloat.ltb f ten12f
  | _ => false
  end.

(** [ts * 1000] on a numeric value. *)
Definition times1000 (v : value) : value :=
  match v with
  | VBool b => VInt (Z.b2z b * 1000)
  | VInt n => VInt (n * 1000)
  | VFloat f => VFloat (PrimFloat.mul f 1000%float)
  | other => other
  end.

(** [int(x)] on a numeric value. *)
Definition py_int (v : value) : result Z :=
  match v with
  | VBool b => Ret (Z.b2z b)
  | VInt n => Ret n
  | VFloat f => int_of_float f
  | _ => Raise TypeError
  end.

(** ** Strings *)

(** [s.replace(c, by)] for a one-character pattern. *)
Fixpoint str_replace (c : ascii) (by_ : string) (s : string) : string :=
  match s with
  | EmptyString => EmptyString
  | String a rest =>
      if Ascii.eqb a c then by_ +:+ str_replace c by_ rest
      else String a (str_replace c by_ rest)
  end.

(** [s.split(c)[0]]: the part of [s] before the first [c]. *)
Fixpoint before_char (c : ascii) (s : string) : string :=
  match s with
  | EmptyString => EmptyString
  | String a rest =>
      if Ascii.eqb a c then EmptyString else String a (before_char c rest)
  end.

(** ** The [datetime] interface

    [datetime.fromisoformat], [datetime.replace(tzinfo=timezone.utc)] and
    [datetime.timestamp] belong to the Python library; the normaliser is
    written against this interface.  [fromisoformat s = None] stands for
    the [ValueError] the library raises on a string it cannot parse. *)
Class DatetimeLib : Type := {
  datetime : Type;
  fromisoformat : string -> option datetime;
  replace_tzinfo_utc : datetime -> datetime;
  timestamp : datetime -> float
}.

(** ** Timestamp normaliser ([app.py], [_to_epoch_ms]) *)

Section Normalizer.
Context `{DatetimeLib}.

(** [int(dt.timestamp() * 1000)] *)
Definition datetime_ms (dt : datetime) : result Z :=
  int_of_float (PrimFloat.mul (timestamp dt) 1000%float).

Definition _to_epoch_ms (ts : value) : result (option Z) :=
  match ts with
  | VNone => Ret None
  | VBool _ | VInt _ | VFloat _ =>
      let! n := (if lt_ten12 ts then py_int (times1000 ts) else py_int ts) in
      Ret (Some n)
  | VStr s =>
      let iso := str_replace "Z" "+00:00" s in
      match fromisoformat iso with
      | Some dt =>
          let! n := datetime_ms dt in Ret (Some n)
      | None =>
          match fromisoformat (before_char "." iso) with
          | Some dt =>
              let! n := datetime_ms (replace_tzinfo_utc dt) in Ret (Some n)
          | None => Raise ValueError
          end
      end
  | VOther _ => Ret None
  end.

End Normalizer.


(** ** Sorting

    [sorted] and [list.sort] are stable, and the stable sorted arrangement
    of a list is unique, so they are embedded as a stable insertion sort:
    an element is placed before the first element whose key is not below
    its own, hence before later elements of equal key. *)
Section Sort.
Context {A K : Type} (key : A -> K) (le : K -> K -> bool).

Fixpoint insert_sorted (x : A) (l : list A) : list A :=
  match l with
  | [] => [x]
  | y :: l' =>
      if le (key x) (key y) then x :: l else y :: insert_sorted x l'
  end.

Fixpoint py_sorted (l : list A) : list A :=
  match l with
  | [] => []
  | x :: l' => insert_sorted x (py_sorted l')
  end.

End Sort.

(** ** Table adapter ([app.py], [to_grafana_table]) *)

(** [c.lower()] on the ASCII letters; the lowering of the other characters
    has no bearing on the search for [time] below. *)
Definition ascii_lower (c : ascii) : ascii :=
  let n := N_of_ascii c in
  if ((65 <=? n) && (n <=? 90))%N then ascii_of_N (n + 32) else c.

Fixpoint str_lower (s : string) : string :=
  match s with
  | EmptyString => EmptyString
  | String c rest => String (ascii_lower c) (str_lower rest)
  end.

(** [needle in s] *)
Fixpoint str_contains (needle s : string) : bool :=
  String.prefix needle s ||
  match s with
  | EmptyString => false
  | String _ rest => str_contains needle rest
  end.

Definition time_like (k : string) : bool :=
  str_contains "time" (str_lower k) || String.eqb k "timestamp".

Definition sort_key (k : string) : Z * string :=
  if time_like k then (0, k) else (1, k).

(** Order of the tuples [(int, str)]. *)
Definition tuple_le (a b : Z * string) : bool :=
  (a.1 <? b.1) || ((a.1 =? b.1) && String.leb a.2 b.2).

Record table_view : Type := {
  columns : list string;
  rows : list (list value)
}.

(** [{k for r in recs for k in r.keys()}] *)
Definition all_keys (recs : list record) : gset string :=
  ⋃ (dom <$> recs).

Definition to_grafana_table (j : jobject) : table_view :=
  let recs := j_records j in
  let keys := py_sorted sort_key tuple_le (elements (all_keys recs)) in
  {| columns := keys;
     rows := (fun r => py_get r <$> keys) <$> recs |}.

(** ** Timeseries adapter ([app.py], [to_grafana_timeseries]) *)

Definition point : Type := Z * value.

Record frame : Type := {
  f_name : string;
  f_times : list Z;
  f_values : list value
}.

(** [series.setdefault(key, []).append(p)] on a dict kept in insertion
    order. *)
Fixpoint setdefault_append {P : Type} (key : string) (p : P)
    (series : list (string * list P)) : list (string * list P) :=
  match series with
  | [] => [(key, [p])]
  | (k, pts) :: rest =>
      if String.eqb k key then (k, pts ++ [p]) :: rest
      else (k, pts) :: setdefault_append key p rest
  end.

(** [label] is used when it is given and not the empty string. *)
Definition label_given (label : option string) : option string :=
  match label with
  | Some l => if String.eqb l "" then None else Some l
  | None => None
  end.

Section Timeseries.
Context `{DatetimeLib}.
(** The builtin [str] on the values of a record. *)
Variable py_str : value -> string.

Definition group_key (label : option string) (r : record) : string :=
  match label_given label with
  | Some l => py_str (py_get r l)
  | None => "series"
  end.

(** The [for r in recs] loop. *)
Fixpoint collect (timecol value_ : string) (label : option string)
    (recs : list record) (series : list (string * list point))
    : result (list (string * list point)) :=
  match recs with
  | [] => Ret series
  | r :: rest =>
      let key := group_key label r in
      let! ts := _to_epoch_ms (py_get r timecol) in
      let val := py_get r value_ in
      match ts, val with
      | None, _ | _, VNone => collect timecol value_ label rest series
      | Some t, _ =>
          collect timecol value_ label rest
            (setdefault_append key (t, val) series)
      end
  end.

Definition make_frame (kp : string * list point) : frame :=
  let pts := py_sorted fst Z.leb kp.2 in
  {| f_name := kp.1; f_times := fst <$> pts; f_values := snd <$> pts |}.

Definition to_grafana_timeseries (j : jobject) (timecol value_ : string)
    (label : option string) : result (list frame) :=
  let! series := collect timecol value_ label (j_records j) [] in
  Ret (make_frame <$> series).

End Timeseries.

(** ** Cache key deriver ([app.py], [_hash_key]) *)

(** [hashlib.sha1], FIPS 180-4, on 32-bit words held in [Z]. *)
Module SHA1.

Definition w32 (x : Z) : Z := Z.land x 4294967295.

Definition rotl (n x : Z) : Z :=
  w32 (Z.lor (Z.shiftl x n) (Z.shiftr x (32 - n))).

Definition add32 (x y : Z) : Z := w32 (x + y).

(** Padding: the bit 1, zeros up to 56 modulo 64, the bit length on 8
    bytes, big endian. *)
Definition pad (msg : list Z) : list Z :=
  let len := Z.of_nat (length msg) in
  let zeros := Z.to_nat ((55 - len) mod 64) in
  let bits := 8 * len in
  msg ++ [128] ++ repeat 0 zeros ++
  ((fun i => Z.land (Z.shiftr bits (8 * i)) 255) <$> [7; 6; 5; 4; 3; 2; 1; 0]).

Fixpoint words (fuel : nat) (bytes : list Z) : list Z :=
  match fuel, bytes with
  | S fuel', b0 :: b1 :: b2 :: b3 :: rest =>
      (Z.shiftl b0 24 + Z.shiftl b1 16 + Z.shiftl b2 8 + b3)
        :: words fuel' rest
  | _, _ => []
  end.

(** The message schedule, latest word first. *)
Fixpoint expand (n : nat) (wrev : list Z) : list Z :=
  match n with
  | O => wrev
  | S n' =>
      let x := Z.lxor (Z.lxor (nth 2 wrev 0) (nth 7 wrev 0))
                      (Z.lxor (nth 13 wrev 0) (nth 15 wrev 0)) in
      expand n' (rotl 1 x :: wrev)
  end.

Definition state : Type := Z * Z * Z * Z * Z.

Definition round (st : state * Z) (w : Z) : state * Z :=
  let '((a, b, c, d, e), t) := st in
  let '(f, k) :=
    if t <? 20 then
      (Z.lor (Z.land b c) (Z.land (Z.lxor b 4294967295) d), 1518500249)
    else if t <? 40 then (Z.lxor (Z.lxor b c) d, 1859775393)
    else if t <? 60 then
      (Z.lor (Z.lor (Z.land b c) (Z.land b d)) (Z.land c d), 2400959708)
    else (Z.lxor (Z.lxor b c) d, 3395469782) in
  let temp := add32 (add32 (add32 (add32 (rotl 5 a) f) e) k) w in
  ((temp, a, rotl 30 b, c, d), t + 1).

Definition block (h : state) (w16 : list Z) : state :=
  let ws := rev (expand 64 (rev w16)) in
  let '(h0, h1, h2, h3, h4) := h in
  let '((a, b, c, d, e), _) := fold_left round ws (h, 0) in
  (add32 h0 a, add32 h1 b, add32 h2 c, add32 h3 d, add32 h4 e).

Fixpoint blocks (fuel : nat) (h : state) (ws : list Z) : state :=
  match fuel, ws with
  | S fuel', _ :: _ => blocks fuel' (block h (take 16 ws)) (drop 16 ws)
  | _, _ => h
  end.

Definition init : state :=
  (1732584193, 4023233417, 2562383102, 271733878, 3285377520).

Definition digest (msg : list Z) : state :=
  let bytes := pad msg in
  let ws := words (length bytes) bytes in
  blocks (length ws) init ws.

Definition hex_digit (n : Z) : ascii :=
  ascii_of_N (Z.to_N (if n <? 10 then 48 + n else 87 + n)).

Definition hex_word (w : Z) : string :=
  string_of_list_ascii
    ((fun i => hex_digit (Z.land (Z.shiftr w (4 * i)) 15))
       <$> [7; 6; 5; 4; 3; 2; 1; 0]).

Definition hexdigest (msg : list Z) : string :=
  let '(h0, h1, h2, h3, h4) := digest msg in
  hex_word h0 +:+ hex_word h1 +:+ hex_word h2 +:+ hex_word h3 +:+ hex_word h4.

End SHA1.

(** [s.encode("utf-8")]: the bytes of the string. *)
Definition encode (s : string) : list Z :=
  (fun c => Z.of_N (N_of_ascii c)) <$> list_ascii_of_string s.

(** ["|".join(parts)] *)
Definition join_parts (parts : list string) : string :=
  String.concat "|" parts.

Definition _hash_key (parts : list string) : string :=
  let s := join_parts parts in
  SHA1.hexdigest (encode s).

(** ** TTL cache ([app.py], [TTLCache]) *)

(** [x < y] on clock readings. *)
Definition Qltb (x y : Q) : bool := negb (Qle_bool y x).

(** A Python [dict] with string keys, in insertion order: assigning to an
    existing key keeps its position, a new key goes last. *)
Section Dict.
Context {X : Type}.

Fixpoint dict_get (key : string) (d : list (string * X)) : option X :=
  match d with
  | [] => None
  | (k, x) :: rest => if String.eqb k key then Some x else dict_get key rest
  end.

Fixpoint dict_set (key : string) (x : X) (d : list (string * X))
    : list (string * X) :=
  match d with
  | [] => [(key, x)]
  | (k, y) :: rest =>
      if String.eqb k key then (k, x) :: rest
      else (k, y) :: dict_set key x rest
  end.

Fixpoint dict_pop (key : string) (d : list (string * X))
    : list (string * X) :=
  match d with
  | [] => []
  | (k, y) :: rest =>
      if String.eqb k key then rest else (k, y) :: dict_pop key rest
  end.

(** The keys of a dict are pairwise different. *)
Definition dict_wf (d : list (string * X)) : Prop := NoDup (fst <$> d).

End Dict.

(** [{"value": value, "ts": time.time()}] *)
Record entry (V : Type) : Type := {
  e_value : V;
  e_ts : Q
}.
Arguments e_value {V} _.
Arguments e_ts {V} _.

Record TTLCache (V : Type) : Type := {
  max_items : Z;
  store : list (string * entry V)
}.
Arguments max_items {V} _.
Arguments store {V} _.

Section Cache.
Context {V : Type}.

Definition with_store (c : TTLCache V) (s : list (string * entry V))
    : TTLCache V :=
  {| max_items := max_items c; store := s |}.

(** [min(self.store, key=lambda k: self.store[k]["ts"])] scans the keys in
    order and keeps the first one of least [ts]. *)
Fixpoint min_by_ts (best : string * entry V) (rest : list (string * entry V))
    : string * entry V :=
  match rest with
  | [] => best
  | x :: rest' =>
      if Qltb (e_ts x.2) (e_ts best.2) then min_by_ts x rest'
      else min_by_ts best rest'
  end.

(** [min] raises [ValueError] on an empty dict. *)
Definition oldest (s : list (string * entry V)) : result (string * entry V) :=
  match s with
  | [] => Raise ValueError
  | x :: rest => Ret (min_by_ts x rest)
  end.

(** A method that mutates the cache gives its outcome and the cache it
    leaves behind. *)
Definition _evict_if_needed (c : TTLCache V) : result unit * TTLCache V :=
  if Z.of_nat (length (store c)) <=? max_items c then (Ret tt, c)
  else
    match oldest (store c) with
    | Raise e => (Raise e, c)
    | Ret oldest_key =>
        (Ret tt, with_store c (dict_pop oldest_key.1 (store c)))
    end.

(** [get] at the clock reading [now]: the answer ([None] on a miss) and the
    cache afterwards. *)
Definition get (c : TTLCache V) (key : string) (ttl : Z) (now : Q)
    : option V * TTLCache V :=
  match dict_get key (store c) with
  | None => (None, c)
  | Some item =>
      if Qltb (inject_Z ttl) (now - e_ts item)
      then (None, with_store c (dict_pop key (store c)))
      else (Some (e_value item), c)
  end.

(** [set] at the clock reading [now]. *)
Definition set (c : TTLCache V) (key : string) (v : V) (now : Q)
    : result unit * TTLCache V :=
  _evict_if_needed
    (with_store c (dict_set key {| e_value := v; e_ts := now |} (store c))).

End Cache.

(** ** Query execution engine ([app.py], [grail_query]) *)

Record config : Type := {
  DT_URL : string;
  DT_TOKEN : string
}.

(** What an HTTP response offers: [status_code], [text], and [json()],
    which is [None] here when the body is not a JSON object. *)
Record response : Type := {
  status_code : Z;
  text : string;
  json : option jobject
}.

(** The outcome of one round trip: a response, or an exception of the HTTP
    client (connection error, client-side timeout). *)
Inductive reply : Type :=
  | Reply (r : response)
  | NoReply.

(** One scripted round trip: how long it takes and how it ends. *)
Record call : Type := {
  latency : Q;
  outcome : reply
}.

(** Truth value of a Python object. *)
Definition truthy (v : value) : bool :=
  match v with
  | VNone => false
  | VBool b => b
  | VInt n => negb (n =? 0)
  | VFloat f => negb (PrimFloat.eqb f 0%float)
  | VStr s => negb (String.eqb s "")
  | VOther nonempty => nonempty
  end.

(** [v == s] for a string literal [s]. *)
Definition is_str (v : value) (s : string) : bool :=
  match v with
  | VStr s' => String.eqb s' s
  | _ => false
  end.

Definition grail_timeout : exn := HTTPException 504 (DText "Grail timeout").

(** The [while True] loop.  [start] is the reading taken before the loop,
    [now] the clock when the next poll is sent, [polls] the backend's
    answers to come; [None] when the script ends before the loop does.
    The clock advances by the latency of each round trip and by [backoff]
    at each sleep.  The result comes with the clock reading at which the
    loop exits. *)
Fixpoint poll_loop (timeout_sec : Z) (start backoff now : Q)
    (polls : list call) : option (result jobject * Q) :=
  match polls with
  | [] => None
  | p :: rest =>
      let now1 := (now + latency p)%Q in
      match outcome p with
      | NoReply => Some (Raise TransportError, now1)
      | Reply r =>
          if status_code r >=? 400
          then Some (Raise (HTTPException (status_code r) (DText (text r))),
                     now1)
          else
            match json r with
            | None => Some (Raise BodyError, now1)
            | Some j =>
                if is_str (j_status j) "SUCCEEDED" then Some (Ret j, now1)
                else if is_str (j_status j) "FAILED"
                then Some (Raise (HTTPException 502 (DJson j)), now1)
                else if Qltb (inject_Z timeout_sec) (now1 - start)
                then Some (Raise grail_timeout, now1)
                else
                  poll_loop timeout_sec start (Qmin (backoff * 2) 1)
                    (now1 + backoff)%Q rest
            end
      end
  end.

(** [grail_query] entered at the clock reading [now], against a backend
    that answers the submission with [submit] and the polls with [polls]. *)
Definition grail_query (cfg : config) (timeout_sec : Z) (now : Q)
    (submit : call) (polls : list call) : option (result jobject * Q) :=
  if String.eqb (DT_URL cfg) "" || String.eqb (DT_TOKEN cfg) ""
  then Some (Raise (HTTPException 500 (DText "DT_URL/DT_TOKEN not configured")),
             now)
  else
    let now1 := (now + latency submit)%Q in
    match outcome submit with
    | NoReply => Some (Raise TransportError, now1)
    | Reply r =>
        if status_code r >=? 400
        then Some (Raise (HTTPException (status_code r) (DText (text r))),
                   now1)
        else
          match json r with
          | None => Some (Raise BodyError, now1)
          | Some body =>
              let job := j_jobId body in
              if negb (truthy job)
              then Some (Raise (HTTPException 502
                                  (DText "Grail did not return a jobId")),
                         now1)
              else
                let start := now1 in
                poll_loop timeout_sec start (1 # 4) now1 polls
          end
    end.

(** ** Request handlers ([app.py], [raw_query], [table], [timeseries]) *)

(** What the handlers answer and cache. *)
Inductive body : Type :=
  | BRaw (j : jobject)
  | BTable (t : table_view)
  | BSeries (frames : list frame).

(** The process environment: the backend configuration and the integer
    settings [QUERY_TIMEOUT] and [RAW_TTL]. *)
Record env : Type := {
  env_cfg : config;
  QUERY_TIMEOUT : Z;
  RAW_TTL : Z
}.

(** *** Rendering an answer ([JSONResponse]) *)

(** The floats [json.dumps(..., allow_nan=False)] accepts: neither NaN nor
    infinite. *)
Definition json_value (v : value) : bool :=
  match v with
  | VFloat f => PrimFloat.is_finite f
  | _ => true
  end.

Definition json_record (r : record) : bool :=
  forallb json_value (snd <$> map_to_list r).

(** The same for the floats an answer shows. *)
Definition json_body (content : body) : bool :=
  match content with
  | BRaw j =>
      json_value (j_jobId j) && json_value (j_status j) &&
      forallb json_record (j_records j)
  | BTable t => forallb (forallb json_value) (rows t)
  | BSeries frames => forallb (fun f => forallb json_value (f_values f)) frames
  end.

(** [JSONResponse(content)] is library code.  It renders its content when
    it is built, with [json.dumps(content, allow_nan=False)], and raises
    [ValueError] when the content holds a float that is NaN or infinite,
    wherever it sits.  [renders] says of the content of an answer whether
    it is rendered: never when one of the floats it shows is NaN or
    infinite ([renders_floats]); the floats inside a nested value, and
    those in the parts of a payload the proxy does not read, are the
    instance's.  A handler that answers from the cache hands the cached
    object itself to [JSONResponse]. *)
Class JsonLib : Type := {
  renders : body -> bool;
  renders_floats : forall content,
    renders content = true -> json_body content = true
}.

Definition JSONResponse `{JsonLib} (content : body) : result body :=
  if renders content then Ret content else Raise ValueError.

Section Handlers.
Context `{DatetimeLib}.
Context `{JsonLib}.
Variable py_str : value -> string.

(** The steps each of the three handlers goes through once its key is
    derived: look the key up, on a miss run the engine, shape the payload,
    store and answer.  The handler is entered at the clock reading [now]
    with the cache [c]; it returns its answer, the cache it leaves and the
    clock reading at its end. *)
Definition serve (e : env) (cache_key : string) (ttl : Z)
    (shape : jobject -> result body)
    (c : TTLCache body) (now : Q) (submit : call) (polls : list call)
    : option (result body * TTLCache body * Q) :=
  let '(hit, c1) := get c cache_key ttl now in
  match hit with
  | Some v => Some (JSONResponse v, c1, now)
  | None =>
      match grail_query (env_cfg e) (QUERY_TIMEOUT e) now submit polls with
      | None => None
      | Some (Raise ex, t) => Some (Raise ex, c1, t)
      | Some (Ret j, t) =>
          match shape j with
          | Raise ex => Some (Raise ex, c1, t)
          | Ret out =>
              let '(r, c2) := set c1 cache_key out t in
              match r with
              | Raise ex => Some (Raise ex, c2, t)
              | Ret _ => Some (JSONResponse out, c2, t)
              end
          end
      end
  end.

(** In the handlers [authorized] is the outcome of
    [_require_auth(authorization)]. *)
Definition raw_query (e : env) (authorized : result unit)
    (dql : option string) (_from _to : option string)
    (c : TTLCache body) (now : Q) (submit : call) (polls : list call)
    : option (result body * TTLCache body * Q) :=
  match authorized with
  | Raise ex => Some (Raise ex, c, now)
  | Ret _ =>
      let _from := default "now()-1h" _from in
      let _to := default "now()" _to in
      match dql with
      | None | Some "" =>
          Some (Raise (HTTPException 400 (DText "Missing 'dql'")), c, now)
      | Some dql =>
          let cache_key := _hash_key ["raw"; dql; _from; _to] in
          serve e cache_key (RAW_TTL e) (fun j => Ret (BRaw j))
            c now submit polls
      end
  end.

Definition table (e : env) (authorized : result unit)
    (dql from_ to_ : string) (ttl : Z)
    (c : TTLCache body) (now : Q) (submit : call) (polls : list call)
    : option (result body * TTLCache body * Q) :=
  match authorized with
  | Raise ex => Some (Raise ex, c, now)
  | Ret _ =>
      let cache_key := _hash_key ["table"; dql; from_; to_] in
      serve e cache_key ttl (fun j => Ret (BTable (to_grafana_table j)))
        c now submit polls
  end.

Definition timeseries (e : env) (authorized : result unit)
    (dql from_ to_ value_ timecol : string) (label : option string) (ttl : Z)
    (c : TTLCache body) (now : Q) (submit : call) (polls : list call)
    : option (result body * TTLCache body * Q) :=
  match authorized with
  | Raise ex => Some (Raise ex, c, now)
  | Ret _ =>
      let cache_key :=
        _hash_key ["ts"; dql; from_; to_; value_; timecol; default "" label] in
      serve e cache_key ttl
        (fun j =>
           let! frames := to_grafana_timeseries py_str j timecol value_ label in
           Ret (BSeries frames))
        c now submit polls
  end.

End Handlers.

(** The reference instance: an answer is rendered when the floats it shows
    are neither NaN nor infinite (payloads whose nested values hold no
    other float). *)
Module Json.

#[global] Instance lib : JsonLib := {|
  renders := json_body;
  renders_floats := fun _ E => E
|}.

End Json.

(** ** The earlier adapters ([apigrail.py]) *)

Module Apigrail.

(** [to_grafana_table]: the columns are [sorted] without a key. *)
Definition to_grafana_table (j : jobject) : table_view :=
  let records := j_records j in
  let cols := py_sorted (fun k : string => k) String.leb
                (elements (all_keys records)) in
  {| columns := cols;
     rows := (fun r => py_get r <$> cols) <$> records |}.

Section Timeseries.
Context `{DatetimeLib}.
Variable py_str : value -> string.

(** The normalisation written inline in [to_grafana_timeseries]: a string
    is parsed, a number below [10**12] is scaled, anything else is kept as
    it is. *)
Definition normalise (ts : value) : result value :=
  match ts with
  | VStr s =>
      match fromisoformat (str_replace "Z" "+00:00" s) with
      | Some dt => let! n := datetime_ms dt in Ret (VInt n)
      | None => Raise ValueError
      end
  | VBool _ | VInt _ | VFloat _ =>
      if lt_ten12 ts then let! n := py_int (times1000 ts) in Ret (VInt n)
      else Ret ts
  | _ => Ret ts
  end.

(** The [for r in records] loop of [to_grafana_timeseries]: every record
    contributes a point. *)
Fixpoint collect (timecol value_ : string) (label : option string)
    (records : list record) (series : list (string * list (value * value)))
    : result (list (string * list (value * value))) :=
  match records with
  | [] => Ret series
  | r :: rest =>
      let key := group_key py_str label r in
      let! ts := normalise (py_get r timecol) in
      let val := py_get r value_ in
      collect timecol value_ label rest
        (setdefault_append key (ts, val) series)
  end.

End Timeseries.

End Apigrail.

(** ** A reference instance of the [datetime] interface

    It reads the forms [YYYY-MM-DD] and [YYYY-MM-DD?HH:MM:SS], the latter
    with an optional fraction of three or six digits and an optional UTC
    offset [+HH:MM] or [-HH:MM], and rejects every other string.  A
    timestamp without offset is taken in a process whose local zone is
    UTC.  The instance serves the worked examples; the general properties
    hold for every instance. *)
Module Iso.

Record t : Type := {
  wall : Z;            (* seconds from 1970-01-01T00:00:00 to the fields read *)
  micro : Z;
  offset : option Z    (* tzinfo: the UTC offset in seconds *)
}.

Definition digit (c : ascii) : option Z :=
  let n := Z.of_N (N_of_ascii c) in
  if (48 <=? n) && (n <=? 57) then Some (n - 48) else None.

Fixpoint number (width : nat) (acc : Z) (s : list ascii)
    : option (Z * list ascii) :=
  match width, s with
  | O, _ => Some (acc, s)
  | S w, c :: rest =>
      match digit c with
      | Some d => number w (acc * 10 + d) rest
      | None => None
      end
  | S _, [] => None
  end.

Definition expect (c : ascii) (s : list ascii) : option (list ascii) :=
  match s with
  | a :: rest => if Ascii.eqb a c then Some rest else None
  | [] => None
  end.

Definition leap (y : Z) : bool :=
  ((y mod 4 =? 0) && negb (y mod 100 =? 0)) || (y mod 400 =? 0).

Definition days_in_month (y m : Z) : Z :=
  if m =? 2 then (if leap y then 29 else 28)
  else if (m =? 4) || (m =? 6) || (m =? 9) || (m =? 11) then 30 else 31.

(** Days from 1970-01-01 to the given civil date. *)
Definition days_from_civil (y m d : Z) : Z :=
  let y' := if m <=? 2 then y - 1 else y in
  let era := y' / 400 in
  let yoe := y' - era * 400 in
  let mp := (m + 9) mod 12 in
  let doy := (153 * mp + 2) / 5 + d - 1 in
  let doe := yoe * 365 + yoe / 4 - yoe / 100 + doy in
  era * 146097 + doe - 719468.

Definition parse_date (s : list ascii) : option (Z * list ascii) :=
  '(y, s) ← number 4 0 s;
  s ← expect "-" s;
  '(m, s) ← number 2 0 s;
  s ← expect "-" s;
  '(d, s) ← number 2 0 s;
  if (1 <=? y) && (1 <=? m) && (m <=? 12) && (1 <=? d)
     && (d <=? days_in_month y m)
  then Some (days_from_civil y m d * 86400, s) else None.

Definition parse_clock (s : list ascii) : option (Z * list ascii) :=
  '(hh, s) ← number 2 0 s;
  s ← expect ":" s;
  '(mm, s) ← number 2 0 s;
  if (hh <? 24) && (mm <? 60) then Some (hh * 3600 + mm * 60, s) else None.

Definition parse_fraction (s : list ascii) : option (Z * list ascii) :=
  match s with
  | "."%char :: rest =>
      match number 6 0 rest with
      | Some r => Some r
      | None => '(ms, s) ← number 3 0 rest; Some (ms * 1000, s)
      end
  | _ => Some (0, s)
  end.

Definition parse_offset (s : list ascii) : option (option Z) :=
  match s with
  | [] => Some None
  | sign :: rest =>
      '(o, s) ← parse_clock rest;
      match s with
      | [] =>
          if Ascii.eqb sign "+" then Some (Some o)
          else if Ascii.eqb sign "-" then Some (Some (- o))
          else None
      | _ => None
      end
  end.

Definition parse (str : string) : option t :=
  '(day, s) ← parse_date (list_ascii_of_string str);
  match s with
  | [] => Some {| wall := day; micro := 0; offset := None |}
  | _ :: s =>
      '(hm, s) ← parse_clock s;
      s ← expect ":" s;
      '(ss, s) ← number 2 0 s;
      '(us, s) ← parse_fraction s;
      off ← parse_offset s;
      if ss <? 60
      then Some {| wall := day + hm + ss; micro := us; offset := off |}
      else None
  end.

Definition float_of_Z (z : Z) : float :=
  if z <? 0 then PrimFloat.opp (PrimFloat.of_uint63 (Uint63.of_Z (- z)))
  else PrimFloat.of_uint63 (Uint63.of_Z z).

(** [(dt - epoch).total_seconds()]: the microseconds divided by [10**6]. *)
Definition to_timestamp (dt : t) : float :=
  PrimFloat.div
    (float_of_Z ((wall dt - default 0 (offset dt)) * 1000000 + micro dt))
    1000000%float.

#[export] Instance lib : DatetimeLib := {|
  datetime := t;
  fromisoformat := parse;
  replace_tzinfo_utc := fun dt =>
    {| wall := wall dt; micro := micro dt; offset := Some 0 |};
  timestamp := to_timestamp
|}.

(** [str] on the scalars; a float or a nested value is rendered by a
    placeholder. *)
Definition decimal (n : Z) : string :=
  NilEmpty.string_of_int (Z.to_int n).

Definition py_str (v : value) : string :=
  match v with
  | VNone => "None"
  | VBool true => "True"
  | VBool false => "False"
  | VInt n => decimal n
  | VStr s => s
  | VFloat _ => "<float>"
  | VOther _ => "<object>"
  end.

End Iso.

(** * Vocabulary of the properties *)

(** Order induced on the elements by a boolean order on their keys. *)
Definition key_le {A K : Type} (key : A -> K) (le : K -> K -> bool)
    (a b : A) : Prop :=
  le (key a) (key b) = true.

Definition str_le (a b : string) : Prop := String.leb a b = true.

(** The names that contain [time] once lowered. *)
Definition has_time (k : string) : Prop :=
  str_contains "time" (str_lower k) = true.

(** [c in s] for a character. *)
Fixpoint has_char (c : ascii) (s : string) : bool :=
  match s with
  | EmptyString => false
  | String a rest => Ascii.eqb a c || has_char c rest
  end.

(** A part that does not contain the separator of [_hash_key]. *)
Definition sep_free (s : string) : Prop := has_char "|" s = false.

(** Two different messages with the same SHA-1 digest. *)
Definition sha1_collision (m1 m2 : list Z) : Prop :=
  m1 <> m2 /\ SHA1.hexdigest m1 = SHA1.hexdigest m2.

Section Vocabulary.
Context `{DatetimeLib}.

Definition iso_of (s : string) : string := str_replace "Z" "+00:00" s.

(** A value the normaliser can make nothing of: no number, and if a string
    then one on which the full parse and the fallback parse both fail. *)
Definition unusable (v : value) : Prop :=
  is_numeric v = false /\
  match v with
  | VStr s =>
      fromisoformat (iso_of s) = None /\
      fromisoformat (before_char "." (iso_of s)) = None
  | _ => True
  end.

(** A record the adapter cannot turn into a point: its time field
    normalises to [None], or its value field is [None]. *)
Definition incomplete (timecol value_ : string) (r : record) : Prop :=
  exists ts, _to_epoch_ms (py_get r timecol) = Ret ts /\
             (ts = None \/ py_get r value_ = VNone).

(** A record whose normalised timestamp is [None] or whose value field is
    [None], whatever else the normaliser does on its time field. *)
Definition lacks_field (timecol value_ : string) (r : record) : Prop :=
  _to_epoch_ms (py_get r timecol) = Ret None \/ py_get r value_ = VNone.

(** The point a record stands for, if it is complete. *)
Definition record_points (timecol value_ : string) (r : record) : list point :=
  match _to_epoch_ms (py_get r timecol), py_get r value_ with
  | Ret (Some t), VNone => []
  | Ret (Some t), v => [(t, v)]
  | _, _ => []
  end.

End Vocabulary.

(** The points of a frame, time and value side by side. *)
Definition frame_points (f : frame) : list point :=
  zip (f_times f) (f_values f).

(** * Worked examples *)

(** The end-to-end example: an ISO timestamp and an epoch-seconds
    timestamp land in one series, earliest first. *)
Definition two_records : jobject :=
  {| j_jobId := VNone;
     j_status := VStr "SUCCEEDED";
     j_records :=
       [ {[ "ts" := VInt 1704067260; "v" := VInt 2 ]};
         {[ "ts" := VStr "2024-01-01T00:00:00Z"; "v" := VInt 1 ]} ] |}.

Definition two_points : list frame :=
  [ {| f_name := "series";
       f_times := [1704067200000; 1704067260000];
       f_values := [VInt 1; VInt 2] |} ].

(** A record without the value field between two complete ones. *)
Definition three_records : jobject :=
  {| j_jobId := VNone;
     j_status := VStr "SUCCEEDED";
     j_records :=
       [ {[ "ts" := VInt 1704067260; "v" := VInt 2 ]};
         {[ "ts" := VInt 1704067230 ]};
         {[ "ts" := VStr "2024-01-01T00:00:00Z"; "v" := VInt 1 ]} ] |}.

(** A complete record followed by a record without the value field whose
    time field cannot be read, and the complete record alone. *)
Definition unreadable_records : jobject :=
  {| j_jobId := VNone;
     j_status := VStr "SUCCEEDED";
     j_records :=
       [ {[ "ts" := VInt 1704067260; "v" := VInt 2 ]};
         {[ "ts" := VStr "not-a-date" ]} ] |}.

Definition one_record : jobject :=
  {| j_jobId := VNone;
     j_status := VStr "SUCCEEDED";
     j_records := [ {[ "ts" := VInt 1704067260; "v" := VInt 2 ]} ] |}.

Definition one_point : list frame :=
  [ {| f_name := "series";
       f_times := [1704067260000];
       f_values := [VInt 2] |} ].

(** A cache of capacity two holding two entries, written at the clock
    readings 10 and 5. *)
Definition small_cache : TTLCache string :=
  {| max_items := 2;
     store := [ ("a", {| e_value := "A"; e_ts := 10 |});
                ("b", {| e_value := "B"; e_ts := 5 |}) ] |}.

(** Two [/timeseries] requests over the same query: one reads the time
    column [t|] and gives no label, the other reads the time column [t]
    and labels the series by the column [|]. *)
Definition parts_no_label : list string :=
  ["ts"; "fetch logs"; "now()-1h"; "now()"; "v"; "t|"; default "" None].

Definition parts_with_label : list string :=
  ["ts"; "fetch logs"; "now()-1h"; "now()"; "v"; "t"; default "" (Some "|")].

(** ** Vocabulary of the engine *)

(** A poll answer that makes the loop look at the clock: a response with a
    status code below 400 and a JSON body whose status is neither
    [SUCCEEDED] nor [FAILED]. *)
Definition pending (p : call) : bool :=
  match outcome p with
  | Reply r =>
      negb (status_code r >=? 400) &&
      match json r with
      | Some j =>
          negb (is_str (j_status j) "SUCCEEDED") &&
          negb (is_str (j_status j) "FAILED")
      | None => false
      end
  | NoReply => false
  end.

(** The backend answers with the status code 504 of its own. *)
Definition relays_504 (p : call) : Prop :=
  exists r, outcome p = Reply r /\ status_code r = 504.

(** The submission is accepted: the proxy is configured and the backend
    answers below 400 with a job identifier. *)
Definition accepted (cfg : config) (submit : call) : Prop :=
  DT_URL cfg <> "" /\ DT_TOKEN cfg <> "" /\
  exists r body,
    outcome submit = Reply r /\ status_code r < 400 /\
    json r = Some body /\ truthy (j_jobId body) = true.

(** The backoff and the clock when the next poll is sent, after a run of
    polls that were all followed by a sleep. *)
Fixpoint after_waits (backoff now : Q) (pre : list call) : Q * Q :=
  match pre with
  | [] => (backoff, now)
  | p :: rest =>
      after_waits (Qmin (backoff * 2) 1) (now + latency p + backoff)%Q rest
  end.

(** Every poll of the run is pending and is answered while the time
    elapsed since [start] does not exceed the timeout. *)
Fixpoint waits (timeout_sec : Z) (start backoff now : Q) (pre : list call)
    : bool :=
  match pre with
  | [] => true
  | p :: rest =>
      pending p &&
      negb (Qltb (inject_Z timeout_sec) (now + latency p - start)) &&
      waits timeout_sec start (Qmin (backoff * 2) 1)
        (now + latency p + backoff)%Q rest
  end.

(** A backend that accepts the job after 20 seconds, then answers a first
    poll after 15 more seconds with a job still running and a second poll
    after one second with the result. *)
Definition configured : config :=
  {| DT_URL := "https://tenant.example"; DT_TOKEN := "dt0c01.token" |}.

Definition ok_body (job status : value) : option jobject :=
  Some {| j_jobId := job; j_status := status; j_records := [] |}.

Definition slow_submit : call :=
  {| latency := 20;
     outcome := Reply {| status_code := 200; text := "";
                         json := ok_body (VStr "job-1") VNone |} |}.

Definition running_poll : call :=
  {| latency := 15;
     outcome := Reply {| status_code := 200; text := "";
                         json := ok_body VNone (VStr "RUNNING") |} |}.

Definition succeeded_poll : call :=
  {| latency := 1;
     outcome := Reply {| status_code := 200; text := "";
                         json := ok_body VNone (VStr "SUCCEEDED") |} |}.

Definition succeeded_body : jobject :=
  {| j_jobId := VNone; j_status := VStr "SUCCEEDED"; j_records := [] |}.

(** A cache whose only entry, written at the clock reading 0, sits under
    the key of the [/table] request for [fetch logs] over the last hour,
    and a backend that rejects the submission after one second. *)
Definition env0 : env :=
  {| env_cfg := configured; QUERY_TIMEOUT := 30; RAW_TTL := 15 |}.

Definition logs_key : string :=
  _hash_key ["table"; "fetch logs"; "now()-1h"; "now()"].

Definition stale_cache : TTLCache body :=
  {| max_items := 512;
     store := [ (logs_key,
                 {| e_value := BTable {| columns := []; rows := [] |};
                    e_ts := 0 |}) ] |}.

Definition rejected_submit : call :=
  {| latency := 1;
     outcome := Reply {| status_code := 503; text := "busy"; json := None |} |}.

(** Three records with a host, a reading and a timestamp. *)
Definition host_records : jobject :=
  {| j_jobId := VNone;
     j_status := VStr "SUCCEEDED";
     j_records :=
       [ {[ "host" := VStr "a"; "cpu" := VInt 3; "timestamp" := VInt 1704067200 ]};
         {[ "host" := VStr "b"; "Uptime" := VInt 9 ]} ] |}.

(** A submission answered without a job identifier, a poll that reports
    the job as failed, and a poll lost in transport. *)
Definition no_job_submit : call :=
  {| latency := 1;
     outcome := Reply {| status_code := 200; text := "{}";
                         json := ok_body VNone VNone |} |}.

Definition failed_poll : call :=
  {| latency := 1;
     outcome := Reply {| status_code := 200; text := "";
                         json := ok_body VNone (VStr "FAILED") |} |}.

Definition lost_poll : call :=
  {| latency := 5; outcome := NoReply |}.

(** * Further vocabulary *)

From Stdlib Require Import Lqa.

(** ** TTL cache *)

(** The store holds no more entries than the capacity allows. *)
Definition within_capacity {V : Type} (c : TTLCache V) : Prop :=
  Z.of_nat (length (store c)) <= max_items c.

(** No entry of the store was written after the clock reading [now]. *)
Definition written_by {V : Type} (c : TTLCache V) (now : Q) : Prop :=
  forall k e, dict_get k (store c) = Some e -> (e_ts e <= now)%Q.

(** ** Timeseries adapter *)

Section GroupVocabulary.
Context `{DatetimeLib}.
Variable py_str : value -> string.

(** The points of the complete records whose group key is [k], in the
    order of the records. *)
Definition group_points (timecol value_ : string) (label : option string)
    (k : string) (recs : list record) : list point :=
  concat ((fun r => if String.eqb (group_key py_str label r) k
                    then record_points timecol value_ r else []) <$> recs).

(** What the loop keeps: the keys of the series are pairwise different,
    no series is empty, and each series holds the points of its group
    among the records seen so far. *)
Definition groups_of (timecol value_ : string) (label : option string)
    (done : list record) (series : list (string * list point)) : Prop :=
  dict_wf series /\
  (forall k, dict_get k series <> Some []) /\
  (forall k, default [] (dict_get k series)
             = group_points timecol value_ label k done).

End GroupVocabulary.

(** The points of a list that carry the timestamp [t], in their order. *)
Definition points_at (t : Z) (pts : list point) : list point :=
  filter (fun p : point => p.1 = t) pts.

(** ** Engine *)

(** The poll is answered with the payload [j] of a succeeded job. *)
Definition answers_succeeded (p : call) (j : jobject) : Prop :=
  exists r, outcome p = Reply r /\ status_code r < 400 /\
            json r = Some j /\ is_str (j_status j) "SUCCEEDED" = true.

(** A round trip takes no negative time. *)
Definition takes_time (p : call) : Prop := (0 <= latency p)%Q.

(** ** Cache key deriver *)

(** A lowercase hexadecimal digit. *)
Definition is_hex (c : ascii) : Prop :=
  In c (list_ascii_of_string "0123456789abcdef").

(** ** Timestamp normaliser *)

Section ReadingVocabulary.
Context `{DatetimeLib}.

(** The inputs on which the normaliser of [app.py] and the inline
    normalisation of [apigrail.py] go the same way: [None], booleans,
    integers, floats below [10**12], and the strings that are not rescued
    by the fallback parse. *)
Definition same_reading (v : value) : Prop :=
  match v with
  | VNone | VBool _ | VInt _ => True
  | VFloat _ => lt_ten12 v = true
  | VStr s =>
      fromisoformat (iso_of s) = None ->
      fromisoformat (before_char "." (iso_of s)) = None
  | VOther _ => False
  end.

(** The timestamp as [apigrail.py] keeps it in a point. *)
Definition as_value (o : option Z) : value :=
  match o with
  | Some n => VInt n
  | None => VNone
  end.

End ReadingVocabulary.

(** * Authorization ([app.py], [_require_auth]) *)

(** A continuation byte of a UTF-8 sequence. *)
Definition is_cont (b : ascii) : bool :=
  let n := N_of_ascii b in ((128 <=? n) && (n <? 192))%N.

(** The characters of a string, each as the bytes of its encoding: a byte
    that is followed by continuation bytes takes them along. *)
Fixpoint chars (s : list ascii) : list (list ascii) :=
  match s with
  | [] => []
  | b :: rest =>
      let cs := chars rest in
      match head rest, cs with
      | Some b2, c :: cs' =>
          if is_cont b2 then (b :: c) :: cs' else [b] :: cs
      | _, _ => [b] :: cs
      end
  end.

(** The encodings of the characters for which [str.isspace] holds:
    U+0009 to U+000D, U+001C to U+0020, U+0085, U+00A0, U+1680, U+2000 to
    U+200A, U+2028, U+2029, U+202F, U+205F and U+3000. *)
Definition space_codes : list (list N) :=
  (((fun b : N => [b]) <$> [9; 10; 11; 12; 13; 28; 29; 30; 31; 32]) ++
   [[194; 133]; [194; 160]; [225; 154; 128]] ++
   ((fun b : N => [226; 128; b]) <$>
      [128; 129; 130; 131; 132; 133; 134; 135; 136; 137; 138;
       168; 169; 175]) ++
   [[226; 129; 159]; [227; 128; 128]])%N.

Definition is_space (c : list ascii) : bool :=
  bool_decide ((N_of_ascii <$> c) ∈ space_codes).

Fixpoint drop_while {A : Type} (p : A -> bool) (l : list A) : list A :=
  match l with
  | [] => []
  | x :: l' => if p x then drop_while p l' else l
  end.

(** [s.strip()] on the characters. *)
Definition strip_chars (cs : list (list ascii)) : list (list ascii) :=
  rev (drop_while is_space (rev (drop_while is_space cs))).

(** [s.strip()] *)
Definition str_strip (s : string) : string :=
  string_of_list_ascii (concat (strip_chars (chars (list_ascii_of_string s)))).

(** What follows the first [c] in [s]: [s.split(c, 1)[1]] for a string
    that contains [c], as every header does that has passed the test on
    its prefix. *)
Fixpoint after_first (c : ascii) (s : string) : string :=
  match s with
  | EmptyString => EmptyString
  | String a rest => if Ascii.eqb a c then rest else after_first c rest
  end.

(** [_require_auth] under the setting [ORG_BEARER]; the header is [None]
    when the request carries no [Authorization]. *)
Definition _require_auth (ORG_BEARER : string) (auth_header : option string)
    : result unit :=
  if negb (String.eqb ORG_BEARER "") then
    match auth_header with
    | None =>
        Raise (HTTPException 401
                 (DText "Missing or invalid Authorization header"))
    | Some h =>
        if String.eqb h "" || negb (String.prefix "Bearer " h)
        then Raise (HTTPException 401
                      (DText "Missing or invalid Authorization header"))
        else
          let token := str_strip (after_first " " h) in
          if negb (String.eqb token ORG_BEARER)
          then Raise (HTTPException 403 (DText "Forbidden"))
          else Ret tt
    end
  else Ret tt.

(** A list of characters as [chars] produces them: no character is empty,
    the bytes after the first of a character are continuation bytes, and
    a character that follows another does not start with one. *)
Definition is_char (c : list ascii) : Prop :=
  exists b t, c = b :: t /\ forallb is_cont t = true.

Inductive well_cut : list (list ascii) -> Prop :=
  | well_cut_nil : well_cut []
  | well_cut_one c : is_char c -> well_cut [c]
  | well_cut_cons c b t cs :
      is_char c -> is_cont b = false -> well_cut ((b :: t) :: cs) ->
      well_cut (c :: (b :: t) :: cs).

(** * Further worked examples *)

(** Four readings of two hosts, out of order and with a tie. *)
Definition grouped_records : jobject :=
  {| j_jobId := VNone;
     j_status := VStr "SUCCEEDED";
     j_records :=
       [ {[ "ts" := VInt 30; "v" := VInt 1; "host" := VStr "b" ]};
         {[ "ts" := VInt 20; "v" := VInt 2; "host" := VStr "a" ]};
         {[ "ts" := VInt 10; "v" := VInt 3; "host" := VStr "b" ]};
         {[ "ts" := VInt 10; "v" := VInt 4; "host" := VStr "b" ]} ] |}.

Definition frame_b : frame :=
  {| f_name := "b"; f_times := [10000; 10000; 30000];
     f_values := [VInt 3; VInt 4; VInt 1] |}.

Definition frame_a : frame :=
  {| f_name := "a"; f_times := [20000]; f_values := [VInt 2] |}.

(** An empty cache of the capacity [app.py] gives its cache. *)
Definition empty_cache : TTLCache body := {| max_items := 512; store := [] |}.

(** A succeeded job whose second record carries a time that cannot be
    read, and the poll that delivers it. *)
Definition bad_time_body : jobject :=
  {| j_jobId := VNone;
     j_status := VStr "SUCCEEDED";
     j_records :=
       [ {[ "ts" := VInt 1704067260; "v" := VInt 2 ]};
         {[ "ts" := VStr "not-a-date"; "v" := VInt 1 ]} ] |}.

Definition bad_time_poll : call :=
  {| latency := 1;
     outcome := Reply {| status_code := 200; text := "";
                         json := Some bad_time_body |} |}.

(** A succeeded job with a reading that is not a number, the poll that
    delivers it, and the cache that holds its table, written at the clock
    reading 21. *)
Definition nan_body : jobject :=
  {| j_jobId := VNone;
     j_status := VStr "SUCCEEDED";
     j_records := [ {[ "cpu" := VFloat PrimFloat.nan ]} ] |}.

Definition nan_poll : call :=
  {| latency := 1;
     outcome := Reply {| status_code := 200; text := "";
                         json := Some nan_body |} |}.

Definition nan_cache : TTLCache body :=
  {| max_items := 512;
     store := [ (logs_key,
                 {| e_value := BTable {| columns := ["cpu"];
                                         rows := [[VFloat PrimFloat.nan]] |};
                    e_ts := (0 + 20 + 1)%Q |}) ] |}.

(** * The usage script ([scripts/stats.py]) *)

From Equations Require Import Equations.

Module Stats.

(** A [datasource] field of a panel or of a target, as Grafana's dashboard
    model has it: absent or null, a name, or a reference object.  Of the
    object the script reads the strings under [name] and [uid] ([None] when
    there is no string under the key); [more] tells whether the object has
    any other entry, which decides its truth value when both are missing. *)
Inductive datasource :=
| DsNone
| DsName (name : string)
| DsRef (name uid : option string) (more : bool).

(** A panel: its own [datasource], the [datasource] of each of its
    [targets] (none when the key is absent), and the panels under the key
    [panels], if it has that key.  The type covers the dashboards whose
    [panels] and [targets] are lists of objects, as Grafana serves them. *)
#[warnings="-register-all"]
Inductive panel := Panel {
  p_datasource : datasource;
  p_targets : list datasource;
  p_panels : option (list panel) }.

(** A hit of [/api/search]. *)
Record hit := { h_uid : option string; h_title : option string }.

(** Python's truth value of the fields. *)
Definition ds_truthy (d : datasource) : bool :=
  match d with
  | DsNone => false
  | DsName s => negb (String.eqb s "")
  | DsRef None None more => more
  | DsRef _ _ _ => true
  end.

(** [a or b] on fields, and on the strings of a reference object. *)
Definition py_or (a b : datasource) : datasource :=
  if ds_truthy a then a else b.

Definition str_or (a : option string) (b : string) : string :=
  match a with
  | Some s => if String.eqb s "" then b else s
  | None => b
  end.

(** The name a target is counted under (lines 38 to 40).  The chain ends in
    a non-empty name, so that its value is never [None]. *)
Definition resolve (target panel_ds : datasource) : string :=
  match py_or (py_or target panel_ds) (DsName "<default>") with
  | DsRef name uid _ => str_or name (str_or uid "<dict>")
  | DsName s => s
  | DsNone => "<default>"
  end.

(** The two tallies, [defaultdict]s in insertion order. *)
Record tallies := {
  ds_usage_dash : list (string * gset (option string));
  ds_usage_panels : list (string * nat) }.

Definition no_tallies : tallies :=
  {| ds_usage_dash := []; ds_usage_panels := [] |}.

(** [ds_usage_dash[ds].add(uid); ds_usage_panels[ds] += 1] *)
Definition tally (uid : option string) (t : tallies) (ds : string) : tallies :=
  {| ds_usage_dash :=
       dict_set ds ({[ uid ]} ∪ default ∅ (dict_get ds (ds_usage_dash t)))
         (ds_usage_dash t);
     ds_usage_panels :=
       dict_set ds (S (default 0%nat (dict_get ds (ds_usage_panels t))))
         (ds_usage_panels t) |}.

(** The loop over the targets of one panel. *)
Definition visit (uid : option string) (p : panel) (t : tallies) : tallies :=
  fold_left (fun t target => tally uid t (resolve target (p_datasource p)))
    (p_targets p) t.

(** The number of panels of a stack, nested ones included. *)
Fixpoint panel_size (p : panel) : nat :=
  match p with
  | Panel _ _ (Some ps) => S (list_sum (map panel_size ps))
  | Panel _ _ None => 1%nat
  end.

Definition stack_size (stack : list panel) : nat :=
  list_sum (map panel_size stack).

(** The [while stack] loop.  The stack is kept top first: [stack.pop()]
    takes the head, [stack.extend(l)] puts [l] reversed in front. *)
Equations walk (uid : option string) (stack : list panel) (t : tallies)
    : tallies by wf (stack_size stack) lt :=
  walk uid [] t := t;
  walk uid (p :: rest) t :=
    walk uid
      (match p_panels p with
       | Some ps => rev ps ++ rest
       | None => rest
       end)
      (visit uid p t).
Next Obligation.
  assert (Happ : forall a b,
    stack_size (a ++ b) = (stack_size a + stack_size b)%nat).
  { intros a b. unfold stack_size. now rewrite map_app, list_sum_app. }
  assert (Hrev : forall a, stack_size (rev a) = stack_size a).
  { induction a as [| x a IH]; [reflexivity|].
    simpl. rewrite Happ, IH. unfold stack_size. simpl. lia. }
  destruct p as [d ts [ps|]]; simpl.
  - rewrite Happ, Hrev. unfold stack_size. simpl. lia.
  - unfold stack_size. simpl. lia.
Qed.

(** [str(uid)] in the path of a dashboard. *)
Definition uid_str (uid : option string) : string := default "None" uid.

Definition dashboard_path (d : hit) : string :=
  "/api/dashboards/uid/" +:+ uid_str (h_uid d).

(** The loop over the dashboards (lines 25 to 42).  [panels_at path] is
    what [get(path)["dashboard"].get("panels", [])] evaluates to, [None]
    when the request or the lookup raises; an exception ends the script. *)
Fixpoint scan (panels_at : string -> option (list panel))
    (dashboards : list hit) (t : tallies) : option tallies :=
  match dashboards with
  | [] => Some t
  | d :: rest =>
      match panels_at (dashboard_path d) with
      | Some panels => scan panels_at rest (walk (h_uid d) (rev panels) t)
      | None => None
      end
  end.

(** The lines printed at the end: the name, [len(dashes)] and
    [ds_usage_panels[ds]]. *)
Definition report (t : tallies) : list (string * nat * nat) :=
  map (fun '(ds, dashes) =>
         (ds, size dashes, default 0%nat (dict_get ds (ds_usage_panels t))))
      (ds_usage_dash t).

(** [main]: the number of dashboards found and the usage lines, [None]
    when a request raises ([search] is the answer of [/api/search]). *)
Definition main (search : option (list hit))
    (panels_at : string -> option (list panel))
    : option (nat * list (string * nat * nat)) :=
  match search with
  | Some dashboards =>
      match scan panels_at dashboards no_tallies with
      | Some t => Some (length dashboards, report t)
      | None => None
      end
  | None => None
  end.

(** ** Vocabulary *)

(** A panel and the panels nested in it, at any depth. *)
Fixpoint panels_of (p : panel) : list panel :=
  p :: match p with
       | Panel _ _ (Some ps) => flat_map panels_of ps
       | Panel _ _ None => []
       end.

(** The names the targets of a panel are counted under. *)
Definition uses (p : panel) : list string :=
  map (fun target => resolve target (p_datasource p)) (p_targets p).

(** The same for all the panels of a list, nested ones included. *)
Definition forest_uses (ps : list panel) : list string :=
  flat_map uses (flat_map panels_of ps).

(** The names counted for a dashboard. *)
Definition dashboard_uses (panels_at : string -> option (list panel))
    (d : hit) : list string :=
  match panels_at (dashboard_path d) with
  | Some ps => forest_uses ps
  | None => []
  end.

(** One pair per counted target, over all the dashboards: the uid of the
    dashboard and the name the target is counted under. *)
Definition counted (panels_at : string -> option (list panel))
    (dashboards : list hit) : list (option string * string) :=
  flat_map (fun d => map (pair (h_uid d)) (dashboard_uses panels_at d))
    dashboards.

(** The dashboards of the targets counted under a name, one per target. *)
Definition queries (evs : list (option string * string)) (ds : string)
    : list (option string) :=
  fst <$> filter (fun e => e.2 = ds) evs.

(** Every dashboard can be fetched. *)
Definition all_fetched (panels_at : string -> option (list panel))
    (dashboards : list hit) : Prop :=
  Forall (fun d => is_Some (panels_at (dashboard_path d))) dashboards.

(** The count and the dashboards held for a name. *)
Definition panels_of_ds (t : tallies) (ds : string) : nat :=
  default 0%nat (dict_get ds (ds_usage_panels t)).

Definition dashboards_of_ds (t : tallies) (ds : string)
    : gset (option string) :=
  default ∅ (dict_get ds (ds_usage_dash t)).

(** ** A worked example *)

(** Two dashboards.  The first has a row with two nested panels, one of
    which queries twice, and a panel outside of the row; the second has one
    panel whose target names no data source. *)
Definition prom : datasource := DsRef None (Some "prom-1") true.

Definition row_dashboard : list panel :=
  [ Panel DsNone []
      (Some [ Panel prom [DsNone; DsNone] None;
              Panel (DsName "loki") [DsName "tempo"] None ]);
    Panel DsNone [DsRef (Some "loki") (Some "loki-1") true] None ].

Definition plain_dashboard : list panel :=
  [ Panel (DsName "") [DsRef None None false] None ].

Definition two_hits : list hit :=
  [ {| h_uid := Some "d1"; h_title := Some "Rows" |};
    {| h_uid := Some "d2"; h_title := None |} ].

Definition two_dashboards (path : string) : option (list panel) :=
  if String.eqb path "/api/dashboards/uid/d1" then Some row_dashboard
  else if String.eqb path "/api/dashboards/uid/d2" then Some plain_dashboard
  else None.

End Stats.
(** * Properties *)

(** ** SHA-1 test vectors (FIPS 180-4) *)

Example sha1_abc :
  SHA1.hexdigest (encode "abc") = "a9993e364706816aba3e25717850c26c9cd0d89d".
Proof. vm_compute. reflexivity. Qed.

Example sha1_empty :
  SHA1.hexdigest (encode "") = "da39a3ee5e6b4b0d3255bfef95601890afd80709".
Proof. vm_compute. reflexivity. Qed.

Example sha1_two_blocks :
  SHA1.hexdigest
    (encode "abcdbcdecdefdefgefghfghighijhijkijkljklmklmnlmnomnopnopq")
  = "84983e441c3bd26ebaae4aa1f95129e5e54670f1".
Proof. vm_compute. reflexivity. Qed.

(** ** Numbers *)

Example int_of_float_truncates :
  int_of_float 2.5 = Ret 2 /\ int_of_float (-2.5) = Ret (-2) /\
  int_of_float 1704067260500 = Ret 1704067260500 /\
  int_of_float (-0.25) = Ret 0.
Proof. repeat split; vm_compute; reflexivity. Qed.

Example int_of_float_raises :
  int_of_float nan = Raise ValueError /\
  int_of_float infinity = Raise OverflowError /\
  int_of_float neg_infinity = Raise OverflowError.
Proof. repeat split; vm_compute; reflexivity. Qed.

(** ** Timestamp normaliser *)

Section NormalizerFacts.
Context `{DatetimeLib}.

Lemma to_epoch_ms_int (n : Z) :
  _to_epoch_ms (VInt n) = Ret (Some (if n <? ten12 then n * 1000 else n)).
Proof. unfold _to_epoch_ms; simpl. destruct (n <? ten12); reflexivity. Qed.

(** Among the integers below [10**12], normalising [n] and [n * 1000]
    agree only at zero and from [10**9] on: a smaller value is scaled a
    second time. *)
Lemma to_epoch_ms_int_scale_iff (n : Z) :
  n < ten12 ->
  _to_epoch_ms (VInt n) = _to_epoch_ms (VInt (n * 1000))
  <-> n = 0 \/ 10 ^ 9 <= n.
Proof.
  intros Hn. rewrite !to_epoch_ms_int.
  assert (E : ten12 = 1000 * 10 ^ 9) by reflexivity.
  destruct (Z.ltb_spec n ten12); [|lia].
  destruct (Z.ltb_spec (n * 1000) ten12); split.
  - intros [=]. lia.
  - intros [-> | ?]; [reflexivity | lia].
  - intros _. lia.
  - reflexivity.
Qed.

(** C1, as amended: for a numeric [t] below [10**12] whose product
    [t * 1000] is not below [10**12] (an epoch-seconds reading of at least
    [10**9]), normalising [t] and normalising [t * 1000] give the same
    result. *)
Theorem to_epoch_ms_scale (t : value) :
  is_numeric t = true ->
  lt_ten12 t = true ->
  lt_ten12 (times1000 t) = false ->
  _to_epoch_ms t = _to_epoch_ms (times1000 t).
Proof.
  destruct t as [| b | n | f | s | o]; simpl; try discriminate; intros _ Ht Hs.
  - destruct b; discriminate.
  - unfold _to_epoch_ms. simpl lt_ten12. rewrite Ht, Hs. reflexivity.
  - unfold _to_epoch_ms. simpl lt_ten12. rewrite Ht, Hs. reflexivity.
Qed.

(** A float reading of epoch seconds and its product by 1000. *)
Example to_epoch_ms_scale_float :
  lt_ten12 (VFloat 1704067260.5) = true /\
  lt_ten12 (times1000 (VFloat 1704067260.5)) = false /\
  _to_epoch_ms (VFloat 1704067260.5) = Ret (Some 1704067260500) /\
  _to_epoch_ms (times1000 (VFloat 1704067260.5)) = Ret (Some 1704067260500).
Proof. repeat split; vm_compute; reflexivity. Qed.

(** C2, as amended: on an input that is neither a number nor a string the
    normaliser returns [None]; on a string for which the full parse and
    the fallback parse both fail it raises the [ValueError] of the
    fallback.  It returns zero in neither case. *)
Theorem to_epoch_ms_unusable (v : value) :
  unusable v ->
  _to_epoch_ms v =
    match v with
    | VStr _ => Raise ValueError
    | _ => Ret None
    end.
Proof.
  intros [Hnum Hv].
  destruct v as [| b | n | f | s | o]; simpl in Hnum; try discriminate;
    try reflexivity.
  destruct Hv as [Hfull Hfall]. unfold iso_of in *.
  unfold _to_epoch_ms. rewrite Hfull, Hfall. reflexivity.
Qed.

End NormalizerFacts.

(** C1 fails as stated: [5] is below [10**12] and normalises to [5000],
    while [5 * 1000] normalises to [5000000]. *)
Lemma to_epoch_ms_scale_counterexample :
  is_numeric (VInt 5) = true /\
  lt_ten12 (VInt 5) = true /\
  @_to_epoch_ms Iso.lib (VInt 5) = Ret (Some 5000) /\
  @_to_epoch_ms Iso.lib (times1000 (VInt 5)) = Ret (Some 5000000) /\
  @_to_epoch_ms Iso.lib (VInt 5) <> @_to_epoch_ms Iso.lib (times1000 (VInt 5)).
Proof. repeat split; try reflexivity. vm_compute. discriminate. Qed.

Lemma to_epoch_ms_scale_witness :
  is_numeric (VInt 1704067260) = true /\
  lt_ten12 (VInt 1704067260) = true /\
  lt_ten12 (times1000 (VInt 1704067260)) = false /\
  @_to_epoch_ms Iso.lib (VInt 1704067260)
  = @_to_epoch_ms Iso.lib (times1000 (VInt 1704067260)).
Proof.
  do 3 (split; [reflexivity|]).
  apply (@to_epoch_ms_scale Iso.lib (VInt 1704067260)); reflexivity.
Defined.

(** C2 fails as stated: on the string [not-a-date] both parses fail and
    the normaliser raises instead of returning [None]. *)
Lemma to_epoch_ms_unparseable_counterexample :
  @unusable Iso.lib (VStr "not-a-date") /\
  @_to_epoch_ms Iso.lib (VStr "not-a-date") = Raise ValueError /\
  @_to_epoch_ms Iso.lib (VStr "not-a-date") <> Ret None.
Proof. repeat split; try reflexivity. vm_compute. discriminate. Qed.

Lemma to_epoch_ms_unusable_witness :
  @unusable Iso.lib (VStr "12 o'clock") /\
  @_to_epoch_ms Iso.lib (VStr "12 o'clock") = Raise ValueError.
Proof.
  assert (U : @unusable Iso.lib (VStr "12 o'clock")) by (repeat split).
  split; [exact U|].
  exact (@to_epoch_ms_unusable Iso.lib (VStr "12 o'clock") U).
Defined.

(** ** Sorting *)

Section SortFacts.
Context {A K : Type} (key : A -> K) (le : K -> K -> bool).

Lemma insert_sorted_perm (x : A) (l : list A) :
  Permutation (insert_sorted key le x l) (x :: l).
Proof.
  induction l as [| y l IH]; simpl.
  - reflexivity.
  - destruct (le (key x) (key y)).
    + reflexivity.
    + rewrite IH. apply perm_swap.
Qed.

Lemma py_sorted_perm (l : list A) : Permutation (py_sorted key le l) l.
Proof.
  induction l as [| x l IH]; simpl.
  - reflexivity.
  - rewrite insert_sorted_perm. now constructor.
Qed.

Hypothesis le_total : forall a b, le a b = true \/ le b a = true.
Hypothesis le_trans : forall a b c, le a b = true -> le b c = true -> le a c = true.

Lemma insert_sorted_sorted (x : A) (l : list A) :
  StronglySorted (key_le key le) l -> StronglySorted (key_le key le) (insert_sorted key le x l).
Proof.
  induction 1 as [| y l Hl IH Hy]; simpl.
  - repeat constructor.
  - destruct (le (key x) (key y)) eqn:E.
    + constructor; [now constructor|].
      constructor; [exact E|].
      eapply Forall_impl; [exact Hy|].
      intros z Hz. unfold key_le in *. eauto.
    + constructor; [exact IH|].
      eapply Permutation_Forall; [symmetry; apply insert_sorted_perm|].
      constructor; [|exact Hy].
      destruct (le_total (key x) (key y)) as [C | C]; [congruence | exact C].
Qed.

Lemma py_sorted_sorted (l : list A) : StronglySorted (key_le key le) (py_sorted key le l).
Proof.
  induction l as [| x l IH]; simpl.
  - constructor.
  - now apply insert_sorted_sorted.
Qed.

End SortFacts.

Lemma StronglySorted_fmap {A B : Type} (f : A -> B) (R : A -> A -> Prop)
    (S : B -> B -> Prop) (l : list A) :
  (forall a b, R a b -> S (f a) (f b)) ->
  StronglySorted R l -> StronglySorted S (f <$> l).
Proof.
  intros HRS. induction 1 as [| x l Hl IH Hx]; simpl; constructor.
  - exact IH.
  - apply Forall_fmap. eapply Forall_impl; [exact Hx|]. intros y Hy. now apply HRS.
Qed.

Lemma Zleb_total (a b : Z) : (a <=? b) = true \/ (b <=? a) = true.
Proof. rewrite !Z.leb_le. lia. Qed.

Lemma Zleb_trans (a b c : Z) :
  (a <=? b) = true -> (b <=? c) = true -> (a <=? c) = true.
Proof. rewrite !Z.leb_le. lia. Qed.

(** ** Timeseries adapter *)

Section TimeseriesFacts.
Context `{DatetimeLib}.
Variable py_str : value -> string.

Lemma make_frame_sorted (kp : string * list point) :
  StronglySorted Z.le (f_times (make_frame kp)).
Proof.
  unfold make_frame; simpl.
  apply StronglySorted_fmap with (R := key_le fst Z.leb).
  - intros a b Hab. now apply Z.leb_le.
  - apply py_sorted_sorted; [apply Zleb_total | apply Zleb_trans].
Qed.

(** C8: every series the adapter returns has its timestamps in
    non-decreasing order (each later timestamp is at least each earlier
    one), whatever the order of the records. *)
Theorem timeseries_points_sorted (j : jobject) (timecol value_ : string)
    (label : option string) (frames : list frame) :
  to_grafana_timeseries py_str j timecol value_ label = Ret frames ->
  Forall (fun f => StronglySorted Z.le (f_times f)) frames.
Proof.
  unfold to_grafana_timeseries, bind.
  destruct (collect _ _ _ _ _ _) as [series | e]; [|discriminate].
  intros [= <-]. apply Forall_fmap, Forall_forall.
  intros kp _. apply make_frame_sorted.
Qed.

Lemma collect_app (timecol value_ : string) (label : option string)
    (recs1 recs2 : list record) (series : list (string * list point)) :
  collect py_str timecol value_ label (recs1 ++ recs2) series =
  let! series1 := collect py_str timecol value_ label recs1 series in
  collect py_str timecol value_ label recs2 series1.
Proof.
  revert series. induction recs1 as [| r recs1 IH]; intros series; simpl.
  - reflexivity.
  - unfold bind at 1 3.
    destruct (_to_epoch_ms (py_get r timecol)) as [[t |] | e]; simpl;
      try reflexivity; try apply IH.
    destruct (py_get r value_); apply IH.
Qed.

Lemma collect_incomplete (timecol value_ : string) (label : option string)
    (r : record) (recs : list record) (series : list (string * list point)) :
  incomplete timecol value_ r ->
  collect py_str timecol value_ label (r :: recs) series =
  collect py_str timecol value_ label recs series.
Proof.
  intros (ts & Hts & Hr). simpl. rewrite Hts. simpl.
  destruct Hr as [-> | ->]; [reflexivity|]. destruct ts; reflexivity.
Qed.

Lemma setdefault_append_points {P : Type} (key : string) (p : P)
    (series : list (string * list P)) :
  Permutation (concat (snd <$> setdefault_append key p series))
              (concat (snd <$> series) ++ [p]).
Proof.
  induction series as [| [k pts] series IH]; simpl.
  - reflexivity.
  - destruct (String.eqb k key); simpl.
    + rewrite <- !app_assoc. apply Permutation_app_head, Permutation_app_comm.
    + rewrite IH, app_assoc. reflexivity.
Qed.

Lemma collect_points (timecol value_ : string) (label : option string)
    (recs : list record) (series series' : list (string * list point)) :
  collect py_str timecol value_ label recs series = Ret series' ->
  Permutation (concat (snd <$> series'))
              (concat (snd <$> series)
               ++ concat (record_points timecol value_ <$> recs)).
Proof.
  revert series. induction recs as [| r recs IH]; intros series; simpl.
  - intros [= <-]. now rewrite app_nil_r.
  - unfold record_points at 1.
    destruct (_to_epoch_ms (py_get r timecol)) as [[t |] | e]; simpl;
      [| apply IH | discriminate].
    destruct (py_get r value_) eqn:Ev; simpl; try apply IH;
      intros E; apply IH in E; rewrite E, setdefault_append_points;
      rewrite <- app_assoc; reflexivity.
Qed.

Lemma make_frame_points (kp : string * list point) :
  Permutation (frame_points (make_frame kp)) kp.2.
Proof.
  unfold frame_points, make_frame. cbn [f_times f_values].
  rewrite zip_fst_snd. apply py_sorted_perm.
Qed.

(** The points the adapter emits are, up to their order, the points of
    the complete records: one per complete record and none besides. *)
Lemma timeseries_points_exact (j : jobject) (timecol value_ : string)
    (label : option string) (frames : list frame) :
  to_grafana_timeseries py_str j timecol value_ label = Ret frames ->
  Permutation (concat (frame_points <$> frames))
              (concat (record_points timecol value_ <$> j_records j)).
Proof.
  unfold to_grafana_timeseries, bind.
  destruct (collect _ _ _ _ _ _) as [series | e] eqn:Ec; [|discriminate].
  intros [= <-]. apply collect_points in Ec. simpl in Ec. rewrite <- Ec.
  clear Ec. induction series as [| kp series IH]; simpl.
  - reflexivity.
  - rewrite make_frame_points, IH. reflexivity.
Qed.

Lemma record_points_incomplete (timecol value_ : string) (r : record) :
  incomplete timecol value_ r -> record_points timecol value_ r = [].
Proof.
  intros (ts & Hts & Hr). unfold record_points. rewrite Hts.
  destruct Hr as [-> | ->]; [reflexivity|]. destruct ts; reflexivity.
Qed.

(** A record on which the normaliser raises makes the adapter raise: the
    adapter then emits nothing at all. *)
Lemma timeseries_raises (j : jobject) (timecol value_ : string)
    (label : option string) (recs1 recs2 : list record) (r : record) (e : exn) :
  j_records j = recs1 ++ r :: recs2 ->
  _to_epoch_ms (py_get r timecol) = Raise e ->
  exists e', to_grafana_timeseries py_str j timecol value_ label = Raise e'.
Proof.
  intros Hj Hr. unfold to_grafana_timeseries. rewrite Hj, collect_app.
  destruct (collect py_str timecol value_ label recs1 []) as [s1 | e1]; simpl.
  - rewrite Hr. simpl. now exists e.
  - now exists e1.
Qed.

(** When the adapter returns, the normaliser has returned on the time
    field of every record. *)
Lemma timeseries_returns_reads (j : jobject) (timecol value_ : string)
    (label : option string) (recs1 recs2 : list record) (r : record)
    (frames : list frame) :
  j_records j = recs1 ++ r :: recs2 ->
  to_grafana_timeseries py_str j timecol value_ label = Ret frames ->
  exists ts, _to_epoch_ms (py_get r timecol) = Ret ts.
Proof.
  intros Hj Hf.
  destruct (_to_epoch_ms (py_get r timecol)) as [ts | e] eqn:Er; [eauto|].
  destruct (timeseries_raises j timecol value_ label recs1 recs2 r e Hj Er)
    as (e' & He').
  congruence.
Qed.

(** A record that is incomplete can be taken out of the record set: the
    adapter answers the same. *)
Lemma timeseries_without_incomplete (j j' : jobject) (timecol value_ : string)
    (label : option string) (recs1 recs2 : list record) (r : record) :
  j_records j = recs1 ++ r :: recs2 ->
  j_records j' = recs1 ++ recs2 ->
  incomplete timecol value_ r ->
  to_grafana_timeseries py_str j timecol value_ label =
  to_grafana_timeseries py_str j' timecol value_ label.
Proof.
  intros Hj Hj' Hr. unfold to_grafana_timeseries.
  rewrite Hj, Hj', !collect_app. simpl.
  destruct (collect py_str timecol value_ label recs1 []) as [s1 | e];
    simpl; [|reflexivity].
  pose proof (collect_incomplete timecol value_ label r recs2 s1 Hr) as E.
  simpl in E. rewrite E. reflexivity.
Qed.

(** C3, as amended: take a record whose normalised timestamp is [None] or
    whose value field is [None].  Whenever the adapter returns, the record
    has left no trace: the adapter returns the same frames without it, and
    the points of the frames are, up to their order, the points of the
    other records that are complete.  The adapter answers the same with
    and without the record as soon as the normaliser returns on its time
    field.  When the normaliser raises on the time field, which it does
    before the value field is looked at, the adapter raises for the whole
    record set: the record is not dropped. *)
Theorem timeseries_drops_incomplete (j j' : jobject) (timecol value_ : string)
    (label : option string) (recs1 recs2 : list record) (r : record) :
  j_records j = recs1 ++ r :: recs2 ->
  j_records j' = recs1 ++ recs2 ->
  lacks_field timecol value_ r ->
  (forall frames,
     to_grafana_timeseries py_str j timecol value_ label = Ret frames ->
     to_grafana_timeseries py_str j' timecol value_ label = Ret frames /\
     Permutation (concat (frame_points <$> frames))
                 (concat (record_points timecol value_ <$> recs1 ++ recs2))) /\
  (forall ts,
     _to_epoch_ms (py_get r timecol) = Ret ts ->
     to_grafana_timeseries py_str j timecol value_ label =
     to_grafana_timeseries py_str j' timecol value_ label) /\
  (forall e,
     _to_epoch_ms (py_get r timecol) = Raise e ->
     exists e', to_grafana_timeseries py_str j timecol value_ label = Raise e').
Proof.
  intros Hj Hj' Hr.
  assert (Hinc : forall ts,
    _to_epoch_ms (py_get r timecol) = Ret ts -> incomplete timecol value_ r).
  { intros ts Hts. destruct Hr as [Hnone | Hval].
    - exists None. split; [exact Hnone | now left].
    - exists ts. split; [exact Hts | now right]. }
  split; [|split].
  - intros frames Hf.
    destruct (timeseries_returns_reads j timecol value_ label recs1 recs2 r
                frames Hj Hf) as (ts & Hts).
    pose proof (Hinc ts Hts) as Hi.
    split.
    + now rewrite <- (timeseries_without_incomplete j j' timecol value_ label
                        recs1 recs2 r Hj Hj' Hi).
    + apply timeseries_points_exact in Hf.
      rewrite Hf, Hj, !fmap_app, !concat_app, fmap_cons, concat_cons.
      now rewrite (record_points_incomplete _ _ _ Hi).
  - intros ts Hts.
    exact (timeseries_without_incomplete j j' timecol value_ label
             recs1 recs2 r Hj Hj' (Hinc ts Hts)).
  - intros e He.
    exact (timeseries_raises j timecol value_ label recs1 recs2 r e Hj He).
Qed.

End TimeseriesFacts.

Lemma timeseries_points_sorted_witness :
  @to_grafana_timeseries Iso.lib Iso.py_str two_records "ts" "v" None
  = Ret two_points /\
  Forall (fun f => StronglySorted Z.le (f_times f)) two_points.
Proof.
  assert (E : @to_grafana_timeseries Iso.lib Iso.py_str two_records "ts" "v"
                None = Ret two_points) by (vm_compute; reflexivity).
  split; [exact E|].
  exact (@timeseries_points_sorted Iso.lib Iso.py_str two_records "ts" "v" None
           two_points E).
Defined.

Lemma timeseries_drops_incomplete_witness :
  j_records three_records
  = [ {[ "ts" := VInt 1704067260; "v" := VInt 2 ]} ]
    ++ {[ "ts" := VInt 1704067230 ]}
       :: [ {[ "ts" := VStr "2024-01-01T00:00:00Z"; "v" := VInt 1 ]} ] /\
  j_records two_records
  = [ {[ "ts" := VInt 1704067260; "v" := VInt 2 ]} ]
    ++ [ {[ "ts" := VStr "2024-01-01T00:00:00Z"; "v" := VInt 1 ]} ] /\
  @lacks_field Iso.lib "ts" "v" ({[ "ts" := VInt 1704067230 ]} : record) /\
  (forall frames,
     @to_grafana_timeseries Iso.lib Iso.py_str three_records "ts" "v" None
     = Ret frames ->
     @to_grafana_timeseries Iso.lib Iso.py_str two_records "ts" "v" None
     = Ret frames /\
     Permutation (concat (frame_points <$> frames))
       (concat (@record_points Iso.lib "ts" "v" <$>
                [ {[ "ts" := VInt 1704067260; "v" := VInt 2 ]} ]
                ++ [ {[ "ts" := VStr "2024-01-01T00:00:00Z";
                        "v" := VInt 1 ]} ]))) /\
  (forall ts,
     @_to_epoch_ms Iso.lib
       (py_get ({[ "ts" := VInt 1704067230 ]} : record) "ts") = Ret ts ->
     @to_grafana_timeseries Iso.lib Iso.py_str three_records "ts" "v" None =
     @to_grafana_timeseries Iso.lib Iso.py_str two_records "ts" "v" None) /\
  (forall e,
     @_to_epoch_ms Iso.lib
       (py_get ({[ "ts" := VInt 1704067230 ]} : record) "ts") = Raise e ->
     exists e',
       @to_grafana_timeseries Iso.lib Iso.py_str three_records "ts" "v" None
       = Raise e').
Proof.
  assert (L : @lacks_field Iso.lib "ts" "v"
                ({[ "ts" := VInt 1704067230 ]} : record))
    by (right; reflexivity).
  split; [reflexivity|]. split; [reflexivity|]. split; [exact L|].
  exact (@timeseries_drops_incomplete Iso.lib Iso.py_str
           three_records two_records
           "ts" "v" None
           [ {[ "ts" := VInt 1704067260; "v" := VInt 2 ]} ]
           [ {[ "ts" := VStr "2024-01-01T00:00:00Z"; "v" := VInt 1 ]} ]
           {[ "ts" := VInt 1704067230 ]}
           eq_refl eq_refl L).
Defined.

(** C3 fails as stated: the second record has no value field, and its
    time field cannot be read.  The adapter does not drop the record: it
    raises, where it returns the point of the first record when the second
    one is not in the record set. *)
Lemma timeseries_drops_incomplete_counterexample :
  j_records unreadable_records
  = j_records one_record ++ [ {[ "ts" := VStr "not-a-date" ]} ] /\
  py_get ({[ "ts" := VStr "not-a-date" ]} : record) "v" = VNone /\
  @lacks_field Iso.lib "ts" "v" ({[ "ts" := VStr "not-a-date" ]} : record) /\
  @to_grafana_timeseries Iso.lib Iso.py_str one_record "ts" "v" None
  = Ret one_point /\
  @to_grafana_timeseries Iso.lib Iso.py_str unreadable_records "ts" "v" None
  = Raise ValueError /\
  @to_grafana_timeseries Iso.lib Iso.py_str unreadable_records "ts" "v" None
  <> @to_grafana_timeseries Iso.lib Iso.py_str one_record "ts" "v" None.
Proof.
  assert (E1 : @to_grafana_timeseries Iso.lib Iso.py_str one_record "ts" "v"
                 None = Ret one_point) by (vm_compute; reflexivity).
  assert (E2 : @to_grafana_timeseries Iso.lib Iso.py_str unreadable_records
                 "ts" "v" None = Raise ValueError) by (vm_compute; reflexivity).
  split; [reflexivity|]. split; [reflexivity|].
  split; [right; reflexivity|]. split; [exact E1|]. split; [exact E2|].
  rewrite E1, E2. discriminate.
Qed.

(** ** Table adapter *)

Lemma ascii_compare_N (a b : ascii) :
  Ascii.compare a b = (N_of_ascii a ?= N_of_ascii b)%N.
Proof. reflexivity. Qed.

Lemma string_compare_cons (a b : ascii) (s t : string) :
  String.compare (String a s) (String b t) =
  match (N_of_ascii a ?= N_of_ascii b)%N with
  | Eq => String.compare s t
  | c => c
  end.
Proof. reflexivity. Qed.

Lemma N_of_ascii_inj (a b : ascii) : N_of_ascii a = N_of_ascii b -> a = b.
Proof.
  intros E. rewrite <- (ascii_N_embedding a), <- (ascii_N_embedding b).
  now rewrite E.
Qed.

Lemma string_leb_trans (a b c : string) :
  String.leb a b = true -> String.leb b c = true -> String.leb a c = true.
Proof.
  unfold String.leb. revert b c.
  induction a as [| x a IH]; intros [| y b] [| z c]; simpl; try congruence.
  fold (String.compare a b) (String.compare b c) (String.compare a c).
  rewrite !ascii_compare_N.
  destruct (N.compare_spec (N_of_ascii x) (N_of_ascii y)) as [E1 | L1 | G1];
    destruct (N.compare_spec (N_of_ascii y) (N_of_ascii z)) as [E2 | L2 | G2];
    try congruence;
    destruct (N.compare_spec (N_of_ascii x) (N_of_ascii z)) as [E3 | L3 | G3];
    try congruence; try lia.
  apply IH.
Qed.

Lemma tuple_le_total (a b : Z * string) :
  tuple_le a b = true \/ tuple_le b a = true.
Proof.
  unfold tuple_le. destruct a as [m s], b as [n t]; simpl.
  destruct (Z.ltb_spec m n); [now left|].
  destruct (Z.ltb_spec n m); [now right|].
  assert (m = n) as -> by lia. rewrite Z.eqb_refl. simpl.
  apply String.leb_total.
Qed.

Lemma tuple_le_trans (a b c : Z * string) :
  tuple_le a b = true -> tuple_le b c = true -> tuple_le a c = true.
Proof.
  unfold tuple_le. destruct a as [m s], b as [n t], c as [o u]; simpl.
  rewrite !orb_true_iff, !andb_true_iff, !Z.ltb_lt, !Z.eqb_eq.
  intros [L1 | [-> L1]] [L2 | [-> L2]]; try (left; lia).
  right. split; [reflexivity|]. eapply string_leb_trans; eassumption.
Qed.

(** [k == "timestamp"] adds nothing to the substring test. *)
Lemma time_like_contains (k : string) :
  time_like k = str_contains "time" (str_lower k).
Proof.
  unfold time_like. destruct (String.eqb_spec k "timestamp") as [-> | _].
  - reflexivity.
  - apply orb_false_r.
Qed.

Lemma columns_split (l : list string) :
  StronglySorted (key_le sort_key tuple_le) l ->
  exists timed rest,
    l = timed ++ rest /\
    Forall has_time timed /\
    Forall (fun k => ~ has_time k) rest /\
    StronglySorted str_le timed /\
    StronglySorted str_le rest.
Proof.
  induction 1 as [| x l Hl (timed & rest & -> & Ht & Hr & St & Sr) Hx].
  - exists [], []. split; [reflexivity|]. repeat (split; [constructor|]). constructor.
  - destruct (time_like x) eqn:Tx.
    + exists (x :: timed), rest.
      split; [reflexivity|]. split; [|split; [exact Hr|split; [|exact Sr]]].
      * constructor; [|exact Ht]. unfold has_time. now rewrite <- time_like_contains.
      * constructor; [exact St|].
        apply Forall_app in Hx as [Hx _].
        rewrite Forall_forall in Hx, Ht. apply Forall_forall. intros y Hy.
        specialize (Hx y Hy). specialize (Ht y Hy).
        unfold key_le, sort_key, tuple_le, has_time in *.
        rewrite <- time_like_contains in Ht. rewrite Tx, Ht in Hx.
        simpl in Hx. exact Hx.
    + assert (timed = []) as ->.
      { destruct timed as [| y timed]; [reflexivity|]. exfalso.
        apply Forall_cons in Hx as [Hx _]. apply Forall_cons in Ht as [Ht _].
        unfold key_le, sort_key, tuple_le, has_time in *.
        rewrite <- time_like_contains in Ht. rewrite Tx, Ht in Hx.
        discriminate. }
      exists [], (x :: rest). simpl in *.
      split; [reflexivity|]. split; [constructor|]. split; [|split; [constructor|]].
      * constructor; [|exact Hr]. unfold has_time.
        rewrite <- time_like_contains, Tx. discriminate.
      * constructor; [exact Sr|].
        rewrite Forall_forall in Hx, Hr. apply Forall_forall. intros y Hy.
        specialize (Hx y Hy). specialize (Hr y Hy).
        unfold key_le, sort_key, tuple_le, has_time in *.
        rewrite <- time_like_contains in Hr.
        destruct (time_like y); [contradiction|].
        rewrite Tx in Hx. simpl in Hx. exact Hx.
Qed.

(** C9: the columns of the table are the field names of the record set,
    each once; the names that contain [time] (case-insensitively) come
    first and the remaining names follow in lexicographic order (the first
    group is in lexicographic order as well). *)
Theorem table_columns_order (j : jobject) :
  exists timed rest,
    columns (to_grafana_table j) = timed ++ rest /\
    Forall has_time timed /\
    Forall (fun k => ~ has_time k) rest /\
    StronglySorted str_le timed /\
    StronglySorted str_le rest /\
    NoDup (timed ++ rest) /\
    (forall k, k ∈ timed ++ rest <-> exists r, r ∈ j_records j /\ is_Some (r !! k)).
Proof.
  unfold to_grafana_table; simpl.
  set (keys := elements (all_keys (j_records j))).
  destruct (columns_split (py_sorted sort_key tuple_le keys))
    as (timed & rest & E & Ht & Hr & St & Sr).
  { apply py_sorted_sorted; [apply tuple_le_total | apply tuple_le_trans]. }
  exists timed, rest. rewrite <- E.
  do 5 (split; [assumption || reflexivity|]). split; [|intros k; split].
  - rewrite (py_sorted_perm sort_key tuple_le keys). apply NoDup_elements.
  - intros Hk. rewrite (py_sorted_perm sort_key tuple_le keys) in Hk.
    unfold keys, all_keys in Hk.
    apply elem_of_elements, elem_of_union_list in Hk as (d & Hd & Hk).
    apply list_elem_of_fmap in Hd as (r & -> & Hr').
    exists r. split; [exact Hr'|]. now apply elem_of_dom.
  - intros (r & Hr' & Hk).
    rewrite (py_sorted_perm sort_key tuple_le keys).
    unfold keys, all_keys. apply elem_of_elements, elem_of_union_list.
    exists (dom r). split; [|now apply elem_of_dom].
    apply list_elem_of_fmap. now exists r.
Qed.

(** ** TTL cache *)

Lemma Qltb_lt (x y : Q) : Qltb x y = true <-> (x < y)%Q.
Proof.
  unfold Qltb. rewrite negb_true_iff. split.
  - intros E. apply Qnot_le_lt. intros L. apply Qle_bool_iff in L. congruence.
  - intros L. destruct (Qle_bool y x) eqn:E; [|reflexivity].
    apply Qle_bool_iff in E. exfalso. eapply Qlt_not_le; eassumption.
Qed.

Lemma Qltb_ge (x y : Q) : Qltb x y = false <-> (y <= x)%Q.
Proof.
  unfold Qltb. rewrite negb_false_iff. apply Qle_bool_iff.
Qed.

Section DictFacts.
Context {X : Type}.
Implicit Types (d : list (string * X)) (k key : string) (x : X).

Lemma dict_get_elem_of d key x : dict_get key d = Some x -> (key, x) ∈ d.
Proof.
  induction d as [| [k y] d IH]; simpl; [discriminate|].
  destruct (String.eqb_spec k key) as [-> | _].
  - intros [= ->]. left.
  - intros E. right. now apply IH.
Qed.

Lemma dict_get_None d key : dict_get key d = None <-> key ∉ (fst <$> d).
Proof.
  induction d as [| [k y] d IH]; simpl.
  - split; [intros _; apply not_elem_of_nil | reflexivity].
  - rewrite not_elem_of_cons. destruct (String.eqb_spec k key) as [-> | N].
    + split; [discriminate | intros [? _]; congruence].
    + rewrite IH. split; [intros ?; split|intros [_ ?]]; auto.
Qed.

Lemma dict_get_set d key k x :
  dict_get k (dict_set key x d) =
  if String.eqb key k then Some x else dict_get k d.
Proof.
  induction d as [| [k' y] d IH]; simpl.
  - destruct (String.eqb_spec key k); reflexivity.
  - destruct (String.eqb_spec k' key) as [-> | N]; simpl.
    + destruct (String.eqb_spec key k); reflexivity.
    + rewrite IH. destruct (String.eqb_spec k' k) as [-> | N'];
        [|reflexivity].
      destruct (String.eqb_spec key k); congruence.
Qed.

Lemma dict_pop_keys d key : fst <$> dict_pop key d ⊆ fst <$> d.
Proof.
  induction d as [| [k y] d IH]; simpl; [reflexivity|].
  destruct (String.eqb k key); simpl.
  - intros z Hz. now right.
  - intros z Hz. apply elem_of_cons in Hz as [-> | Hz]; [left | right; auto].
Qed.

Lemma dict_pop_wf d key : dict_wf d -> dict_wf (dict_pop key d).
Proof.
  unfold dict_wf. induction d as [| [k y] d IH]; simpl; [trivial|].
  rewrite NoDup_cons. intros [Hk Hd].
  destruct (String.eqb k key); simpl; [exact Hd|].
  apply NoDup_cons. split; [|auto].
  intros Hin. apply Hk. eapply dict_pop_keys, Hin.
Qed.

Lemma dict_get_pop_eq d key : dict_wf d -> dict_get key (dict_pop key d) = None.
Proof.
  unfold dict_wf. induction d as [| [k y] d IH]; simpl; [reflexivity|].
  rewrite NoDup_cons. intros [Hk Hd].
  destruct (String.eqb_spec k key) as [-> | N]; simpl.
  - now apply dict_get_None.
  - destruct (String.eqb_spec k key); [congruence | auto].
Qed.

Lemma dict_get_pop_ne d key k :
  k <> key -> dict_get k (dict_pop key d) = dict_get k d.
Proof.
  intros N. induction d as [| [k' y] d IH]; simpl; [reflexivity|].
  destruct (String.eqb_spec k' key) as [-> | N']; simpl.
  - destruct (String.eqb_spec key k); congruence.
  - now rewrite IH.
Qed.

Lemma dict_pop_length d key x :
  dict_get key d = Some x -> S (length (dict_pop key d)) = length d.
Proof.
  induction d as [| [k' y] d IH]; simpl; [discriminate|].
  destruct (String.eqb k' key); simpl; [reflexivity|].
  intros E. now rewrite IH.
Qed.

Lemma dict_set_keys d key x k :
  k ∈ (fst <$> dict_set key x d) <-> k = key \/ k ∈ (fst <$> d).
Proof.
  induction d as [| [k' y] d IH]; simpl.
  - rewrite list_elem_of_singleton, elem_of_nil. tauto.
  - destruct (String.eqb_spec k' key) as [-> | N]; simpl.
    + rewrite !elem_of_cons. tauto.
    + rewrite !elem_of_cons, IH. tauto.
Qed.

Lemma dict_set_wf d key x : dict_wf d -> dict_wf (dict_set key x d).
Proof.
  unfold dict_wf. induction d as [| [k y] d IH]; simpl.
  - intros _. apply NoDup_singleton.
  - rewrite NoDup_cons. intros [Hk Hd].
    destruct (String.eqb_spec k key) as [-> | N]; simpl.
    + apply NoDup_cons. now split.
    + apply NoDup_cons. split; [|auto].
      rewrite dict_set_keys. intros [-> | Hin]; [congruence | auto].
Qed.

End DictFacts.

Section CacheFacts.
Context {V : Type}.
Implicit Types (c : TTLCache V) (s : list (string * entry V)).

Lemma dict_get_of_elem {X : Type} (d : list (string * X)) (k : string) (x : X) :
  dict_wf d -> (k, x) ∈ d -> dict_get k d = Some x.
Proof.
  unfold dict_wf. induction d as [| [k' y] d IH]; simpl.
  - intros _ Hin. now apply elem_of_nil in Hin.
  - rewrite NoDup_cons. intros [Hk Hd] Hin.
    apply elem_of_cons in Hin as [[= -> ->] | Hin].
    + now rewrite String.eqb_refl.
    + destruct (String.eqb_spec k' k) as [-> | _]; [|auto].
      exfalso. apply Hk. apply list_elem_of_fmap. now exists (k, x).
Qed.

Lemma min_by_ts_elem_of (best : string * entry V) s :
  min_by_ts best s ∈ best :: s.
Proof.
  revert best. induction s as [| x s IH]; intros best; simpl.
  - left.
  - destruct (Qltb _ _).
    + right. apply IH.
    + specialize (IH best). apply elem_of_cons in IH as [-> | IH].
      * left.
      * right. now right.
Qed.

Lemma min_by_ts_least (best : string * entry V) s (y : string * entry V) :
  y ∈ best :: s -> (e_ts (min_by_ts best s).2 <= e_ts y.2)%Q.
Proof.
  revert best y. induction s as [| x s IH]; intros best y Hy; simpl.
  - apply list_elem_of_singleton in Hy as ->. apply Qle_refl.
  - destruct (Qltb (e_ts x.2) (e_ts best.2)) eqn:E.
    + apply Qltb_lt in E.
      apply elem_of_cons in Hy as [-> | Hy]; [|now apply IH].
      eapply Qle_trans; [apply (IH x x); left|]. now apply Qlt_le_weak.
    + apply Qltb_ge in E.
      apply elem_of_cons in Hy as [-> | Hy]; [apply IH; left|].
      apply elem_of_cons in Hy as [-> | Hy]; [| apply IH; now right].
      eapply Qle_trans; [apply (IH best best); left | exact E].
Qed.


Lemma set_wf c key v now : dict_wf (store c) -> dict_wf (store (set c key v now).2).
Proof.
  intros W. unfold set, _evict_if_needed; simpl.
  destruct (_ <=? _); simpl; [now apply dict_set_wf|].
  destruct (oldest _); simpl; [apply dict_pop_wf|]; now apply dict_set_wf.
Qed.


(** C6: when the store exceeds the capacity after the write of [set],
    exactly one entry leaves it, no entry of the store is older than the
    one that leaves (so no newer entry goes before an older one), and all
    other entries stay as they are. *)
Theorem set_evicts_oldest c key v now :
  dict_wf (store c) ->
  max_items c
    < Z.of_nat (length (dict_set key {| e_value := v; e_ts := now |} (store c))) ->
  exists k e,
    let written := dict_set key {| e_value := v; e_ts := now |} (store c) in
    dict_get k written = Some e /\
    (forall k' e', dict_get k' written = Some e' -> (e_ts e <= e_ts e')%Q) /\
    set c key v now = (Ret tt, with_store c (dict_pop k written)) /\
    S (length (dict_pop k written)) = length written /\
    dict_get k (dict_pop k written) = None /\
    (forall k', k' <> k -> dict_get k' (dict_pop k written) = dict_get k' written).
Proof.
  intros W Hfull. cbv zeta.
  assert (Ww : dict_wf (dict_set key {| e_value := v; e_ts := now |} (store c)))
    by now apply dict_set_wf.
  unfold set, _evict_if_needed. simpl store. simpl max_items.
  remember (dict_set key {| e_value := v; e_ts := now |} (store c)) as written
    eqn:Ew.
  destruct written as [| x rest].
  { destruct (store c) as [| [k0 y0] s0]; simpl in Ew; [discriminate|].
    destruct (String.eqb k0 key); discriminate. }
  clear Ew.
  set (o := min_by_ts x rest).
  assert (Ho : dict_get o.1 (x :: rest) = Some o.2).
  { apply dict_get_of_elem; [exact Ww|].
    destruct o as [k e] eqn:Eo. simpl. rewrite <- Eo. apply min_by_ts_elem_of. }
  exists o.1, o.2. split; [exact Ho|]. split; [|split; [|split; [|split]]].
  - intros k' e' Hk'. apply dict_get_elem_of in Hk'.
    apply (min_by_ts_least x rest (k', e') Hk').
  - destruct (Z.leb_spec (Z.of_nat (length (x :: rest))) (max_items c)); [lia|].
    reflexivity.
  - eapply dict_pop_length, Ho.
  - now apply dict_get_pop_eq.
  - intros k' N. now apply dict_get_pop_ne.
Qed.

(** C7: [get] answers with a value only if the entry's age does not
    exceed the [ttl] of that call; an entry whose age exceeds it is
    reported as a miss and is gone from the store after that same call,
    all other entries being untouched. *)
Theorem get_respects_ttl c key ttl now :
  dict_wf (store c) ->
  (forall v, (get c key ttl now).1 = Some v ->
     exists item, dict_get key (store c) = Some item /\ e_value item = v /\
                  (now - e_ts item <= inject_Z ttl)%Q /\
                  (get c key ttl now).2 = c) /\
  (forall item, dict_get key (store c) = Some item ->
     (inject_Z ttl < now - e_ts item)%Q ->
     (get c key ttl now).1 = None /\
     dict_get key (store (get c key ttl now).2) = None /\
     (forall k, k <> key ->
        dict_get k (store (get c key ttl now).2) = dict_get k (store c))).
Proof.
  intros W. unfold get. split.
  - intros v. destruct (dict_get key (store c)) as [item |]; [|discriminate].
    destruct (Qltb _ _) eqn:E; simpl; [discriminate|].
    intros [= <-]. exists item. apply Qltb_ge in E. auto.
  - intros item -> Hold. apply Qltb_lt in Hold. rewrite Hold. simpl.
    split; [reflexivity|]. split.
    + now apply dict_get_pop_eq.
    + intros k N. now apply dict_get_pop_ne.
Qed.

End CacheFacts.

Lemma small_cache_wf : dict_wf (store small_cache).
Proof. unfold dict_wf. simpl. compute_done. Qed.

Lemma set_evicts_oldest_witness :
  dict_wf (store small_cache) /\
  max_items small_cache
    < Z.of_nat (length (dict_set "c" {| e_value := "C"; e_ts := 20 |}
                          (store small_cache))) /\
  exists k e,
    let written := dict_set "c" {| e_value := "C"; e_ts := 20 |}
                     (store small_cache) in
    dict_get k written = Some e /\
    (forall k' e', dict_get k' written = Some e' -> (e_ts e <= e_ts e')%Q) /\
    set small_cache "c" "C" 20 = (Ret tt, with_store small_cache (dict_pop k written)) /\
    S (length (dict_pop k written)) = length written /\
    dict_get k (dict_pop k written) = None /\
    (forall k', k' <> k -> dict_get k' (dict_pop k written) = dict_get k' written).
Proof.
  split; [exact small_cache_wf|].
  split; [simpl; lia|].
  apply (set_evicts_oldest small_cache "c" "C" 20 small_cache_wf).
  simpl; lia.
Defined.

(** The entry written at 5 is the one that leaves. *)
Example set_evicts_b :
  set small_cache "c" "C" 20 =
  (Ret tt,
   {| max_items := 2;
      store := [ ("a", {| e_value := "A"; e_ts := 10 |});
                 ("c", {| e_value := "C"; e_ts := 20 |}) ] |}).
Proof. reflexivity. Qed.

Lemma get_respects_ttl_witness :
  dict_wf (store small_cache) /\
  (forall v, (get small_cache "b" 30 40).1 = Some v ->
     exists item, dict_get "b" (store small_cache) = Some item /\
                  e_value item = v /\
                  (40 - e_ts item <= inject_Z 30)%Q /\
                  (get small_cache "b" 30 40).2 = small_cache) /\
  (forall item, dict_get "b" (store small_cache) = Some item ->
     (inject_Z 30 < 40 - e_ts item)%Q ->
     (get small_cache "b" 30 40).1 = None /\
     dict_get "b" (store (get small_cache "b" 30 40).2) = None /\
     (forall k, k <> "b" ->
        dict_get k (store (get small_cache "b" 30 40).2)
        = dict_get k (store small_cache))).
Proof.
  split; [exact small_cache_wf|].
  exact (get_respects_ttl small_cache "b" 30 40 small_cache_wf).
Defined.

(** The same entry read with two different [ttl]s at the clock reading 40:
    a hit under 60 seconds, a miss that removes it under 30 seconds. *)
Example get_per_read_ttl :
  get small_cache "b" 60 40 = (Some "B", small_cache) /\
  get small_cache "b" 30 40 =
  (None, {| max_items := 2;
            store := [ ("a", {| e_value := "A"; e_ts := 10 |}) ] |}).
Proof. split; reflexivity. Qed.

(** ** Cache key deriver *)

Lemma sep_free_cons (a : ascii) (s : string) :
  sep_free (String a s) <-> a <> "|"%char /\ sep_free s.
Proof.
  unfold sep_free; simpl. rewrite orb_false_iff.
  destruct (Ascii.eqb_spec a "|"); split; intros [? ?]; try split;
    congruence.
Qed.

(** A separator-free part is delimited by the first separator. *)
Lemma app_sep_inj (x y r1 r2 : string) :
  sep_free x -> sep_free y ->
  x +:+ "|" +:+ r1 = y +:+ "|" +:+ r2 -> x = y /\ r1 = r2.
Proof.
  revert y. induction x as [| a x IH]; intros [| b y] Hx Hy; cbn.
  - intros [= E]. now split.
  - intros [= <- _]. apply sep_free_cons in Hy as [? _]. congruence.
  - intros [= -> _]. apply sep_free_cons in Hx as [? _]. congruence.
  - intros [= -> E]. apply sep_free_cons in Hx as [_ Hx].
    apply sep_free_cons in Hy as [_ Hy].
    destruct (IH y Hx Hy E) as [-> ->]. now split.
Qed.

Lemma app_sep_neq (x y r : string) :
  sep_free x -> x <> y +:+ "|" +:+ r.
Proof.
  revert y. induction x as [| a x IH]; intros [| b y] Hx; cbn; try discriminate.
  - intros [= -> _]. apply sep_free_cons in Hx as [? _]. congruence.
  - intros [= -> E]. apply sep_free_cons in Hx as [_ Hx]. now apply (IH y).
Qed.

Lemma join_parts_cons (x y : string) (l : list string) :
  join_parts (x :: y :: l) = x +:+ "|" +:+ join_parts (y :: l).
Proof. reflexivity. Qed.

(** On separator-free parts the join can be undone. *)
Lemma join_parts_inj (p1 p2 : list string) :
  p1 <> [] -> p2 <> [] ->
  Forall sep_free p1 -> Forall sep_free p2 ->
  join_parts p1 = join_parts p2 -> p1 = p2.
Proof.
  revert p2. induction p1 as [| x xs IH]; intros [| y ys] N1 N2 F1 F2;
    try congruence.
  apply Forall_cons in F1 as [Hx F1]. apply Forall_cons in F2 as [Hy F2].
  destruct xs as [| x' xs], ys as [| y' ys].
  - unfold join_parts. simpl. now intros ->.
  - rewrite join_parts_cons. intros E. now apply app_sep_neq in E.
  - rewrite join_parts_cons. intros E. symmetry in E. now apply app_sep_neq in E.
  - rewrite !join_parts_cons. intros E.
    apply app_sep_inj in E as [-> E]; [|assumption..].
    f_equal. apply IH; congruence || assumption.
Qed.

Lemma encode_inj (s1 s2 : string) : encode s1 = encode s2 -> s1 = s2.
Proof.
  unfold encode. intros E.
  rewrite <- (string_of_list_ascii_of_string s1),
          <- (string_of_list_ascii_of_string s2).
  f_equal. revert E.
  generalize (list_ascii_of_string s1) (list_ascii_of_string s2).
  induction l as [| a l IH]; intros [| b l']; simpl; try discriminate.
  - reflexivity.
  - intros [= E1 E2]. f_equal; [|now apply IH].
    apply N_of_ascii_inj. lia.
Qed.

(** C5, as amended: for calls whose parts do not contain the separator,
    the same parts give the same fingerprint, and different parts give the
    same fingerprint only if their joined messages are a SHA-1
    collision. *)
Theorem hash_key_sep_free (p1 p2 : list string) :
  p1 <> [] -> p2 <> [] ->
  Forall sep_free p1 -> Forall sep_free p2 ->
  _hash_key p1 = _hash_key p2 <->
  p1 = p2 \/
  sha1_collision (encode (join_parts p1)) (encode (join_parts p2)).
Proof.
  intros N1 N2 F1 F2. unfold _hash_key, sha1_collision. split.
  - intros E.
    destruct (decide (encode (join_parts p1) = encode (join_parts p2)))
      as [Em | Nm].
    + left. apply join_parts_inj; try assumption. now apply encode_inj.
    + right. now split.
  - intros [-> | [_ E]]; [reflexivity | exact E].
Qed.

(** C5 fails as stated: with the time column [t|] and no label, and with
    the time column [t] and the label [|], the parts differ at two
    positions and the fingerprints are the same. *)
Lemma hash_key_collision_counterexample :
  length parts_no_label = length parts_with_label /\
  parts_no_label !! 5%nat <> parts_with_label !! 5%nat /\
  parts_no_label !! 6%nat <> parts_with_label !! 6%nat /\
  _hash_key parts_no_label = _hash_key parts_with_label.
Proof.
  split; [reflexivity|]. split; [discriminate|]. split; [discriminate|].
  unfold _hash_key.
  assert (E : join_parts parts_no_label = join_parts parts_with_label)
    by reflexivity.
  now rewrite E.
Qed.

Lemma hash_key_sep_free_witness :
  ["table"; "fetch logs"; "now()-1h"; "now()"] <> [] /\
  ["table"; "fetch logs"; "now()-2h"; "now()"] <> [] /\
  Forall sep_free ["table"; "fetch logs"; "now()-1h"; "now()"] /\
  Forall sep_free ["table"; "fetch logs"; "now()-2h"; "now()"] /\
  (_hash_key ["table"; "fetch logs"; "now()-1h"; "now()"]
   = _hash_key ["table"; "fetch logs"; "now()-2h"; "now()"] <->
   ["table"; "fetch logs"; "now()-1h"; "now()"]
   = ["table"; "fetch logs"; "now()-2h"; "now()"] \/
   sha1_collision
     (encode (join_parts ["table"; "fetch logs"; "now()-1h"; "now()"]))
     (encode (join_parts ["table"; "fetch logs"; "now()-2h"; "now()"]))).
Proof.
  assert (F1 : Forall sep_free ["table"; "fetch logs"; "now()-1h"; "now()"])
    by (repeat constructor).
  assert (F2 : Forall sep_free ["table"; "fetch logs"; "now()-2h"; "now()"])
    by (repeat constructor).
  split; [discriminate|]. split; [discriminate|].
  split; [exact F1|]. split; [exact F2|].
  apply hash_key_sep_free; [discriminate | discriminate | exact F1 | exact F2].
Defined.

(** ** Query execution engine *)

Lemma poll_loop_pending (timeout_sec : Z) (start backoff now : Q)
    (p : call) (rest : list call) :
  pending p = true ->
  poll_loop timeout_sec start backoff now (p :: rest) =
  if Qltb (inject_Z timeout_sec) (now + latency p - start)
  then Some (Raise grail_timeout, (now + latency p)%Q)
  else poll_loop timeout_sec start (Qmin (backoff * 2) 1)
         (now + latency p + backoff)%Q rest.
Proof.
  unfold pending. simpl.
  destruct (outcome p) as [r |]; [|discriminate].
  destruct (status_code r >=? 400); [discriminate|].
  destruct (json r) as [j |]; [|discriminate]. simpl.
  destruct (is_str (j_status j) "SUCCEEDED"); [discriminate|].
  destruct (is_str (j_status j) "FAILED"); [discriminate|].
  reflexivity.
Qed.

(** A poll answer that is not pending ends the loop, and with the timeout
    exception only if the backend itself answered 504. *)
Lemma poll_loop_decided (timeout_sec : Z) (start backoff now : Q)
    (p : call) (rest : list call) :
  pending p = false ->
  exists res,
    poll_loop timeout_sec start backoff now (p :: rest)
    = Some (res, (now + latency p)%Q) /\
    (res = Raise grail_timeout -> relays_504 p).
Proof.
  unfold pending, relays_504. simpl.
  destruct (outcome p) as [r |]; [|intros _; eexists; split; [reflexivity | discriminate]].
  destruct (status_code r >=? 400) eqn:Es.
  - intros _. eexists. split; [reflexivity|].
    intros [= E _]. now exists r.
  - destruct (json r) as [j |];
      [|intros _; eexists; split; [reflexivity | discriminate]].
    simpl.
    destruct (is_str (j_status j) "SUCCEEDED");
      [intros _; eexists; split; [reflexivity | discriminate]|].
    destruct (is_str (j_status j) "FAILED");
      [intros _; eexists; split; [reflexivity | discriminate]|].
    discriminate.
Qed.

(** The loop sleeps through a run of pending polls answered in time. *)
Lemma poll_loop_waits (timeout_sec : Z) (start backoff now : Q)
    (pre rest : list call) :
  waits timeout_sec start backoff now pre = true ->
  poll_loop timeout_sec start backoff now (pre ++ rest) =
  poll_loop timeout_sec start (after_waits backoff now pre).1
    (after_waits backoff now pre).2 rest.
Proof.
  revert backoff now. induction pre as [| p pre IH]; intros backoff now Hw.
  - reflexivity.
  - simpl in Hw. rewrite !andb_true_iff, negb_true_iff in Hw.
    destruct Hw as [[Hp Ht] Hw].
    rewrite <- app_comm_cons, poll_loop_pending by exact Hp.
    rewrite Ht. now apply IH.
Qed.

(** When the loop raises its timeout: at the first pending poll whose
    answer arrives more than [timeout_sec] after [start]. *)
Lemma poll_loop_timeout_iff (timeout_sec : Z) (start backoff now : Q)
    (polls : list call) (T : Q) :
  Forall (fun p => ~ relays_504 p) polls ->
  poll_loop timeout_sec start backoff now polls = Some (Raise grail_timeout, T)
  <->
  exists pre p rest,
    polls = pre ++ p :: rest /\
    waits timeout_sec start backoff now pre = true /\
    pending p = true /\
    T = ((after_waits backoff now pre).2 + latency p)%Q /\
    (inject_Z timeout_sec < T - start)%Q.
Proof.
  revert backoff now.
  induction polls as [| p0 polls IH]; intros backoff now Hno.
  - simpl. split; [discriminate|].
    intros (pre & p & rest & E & _). now destruct pre.
  - apply Forall_cons in Hno as [Hp0 Hno].
    destruct (pending p0) eqn:Ep.
    + rewrite poll_loop_pending by exact Ep.
      destruct (Qltb (inject_Z timeout_sec) (now + latency p0 - start)) eqn:Et.
      * split.
        -- intros [= <-]. exists [], p0, polls. simpl.
           repeat (split; [reflexivity || assumption|]). now apply Qltb_lt.
        -- intros (pre & p & rest & E & Hw & _ & -> & _).
           destruct pre as [| q pre]; simpl in *.
           ++ now injection E as <- _.
           ++ injection E as <- _. rewrite Ep, Et in Hw. discriminate.
      * rewrite (IH _ _ Hno). split.
        -- intros (pre & p & rest & -> & Hw & Hp & -> & Hlt).
           exists (p0 :: pre), p, rest. simpl. rewrite Ep, Et, Hw.
           repeat (split; [reflexivity || assumption|]). exact Hlt.
        -- intros (pre & p & rest & E & Hw & Hp & -> & Hlt).
           destruct pre as [| q pre]; simpl in *.
           ++ injection E as <- _. apply Qltb_lt in Hlt. congruence.
           ++ injection E as <- ->. rewrite Ep, Et in Hw. simpl in Hw.
              exists pre, p, rest.
              repeat (split; [reflexivity || assumption|]). exact Hlt.
    + destruct (poll_loop_decided timeout_sec start backoff now p0 polls Ep)
        as (res & -> & Hres).
      split.
      * intros [= -> _]. exfalso. now apply Hp0, Hres.
      * intros (pre & p & rest & E & Hw & Hp & _).
        destruct pre as [| q pre]; simpl in *.
        -- injection E as <- _. congruence.
        -- injection E as <- _. rewrite Ep in Hw. discriminate.
Qed.

(** C4, as amended: the timeout runs from the reading of the clock taken
    when the submission has been answered, so the submission round trip
    is not counted.  Provided the backend does not answer 504 itself, the
    engine raises its timeout exactly when the submission was accepted,
    a run of pending polls was answered in time, and the next poll is
    pending with an answer that arrives more than [timeout_sec] after
    that reading. *)
Theorem grail_query_timeout_iff (cfg : config) (timeout_sec : Z) (now : Q)
    (submit : call) (polls : list call) (T : Q) :
  ~ relays_504 submit ->
  Forall (fun p => ~ relays_504 p) polls ->
  grail_query cfg timeout_sec now submit polls = Some (Raise grail_timeout, T)
  <->
  accepted cfg submit /\
  exists pre p rest,
    polls = pre ++ p :: rest /\
    waits timeout_sec (now + latency submit) (1 # 4) (now + latency submit) pre
    = true /\
    pending p = true /\
    T = ((after_waits (1 # 4) (now + latency submit) pre).2 + latency p)%Q /\
    (inject_Z timeout_sec < T - (now + latency submit))%Q.
Proof.
  intros Hs Hp. unfold grail_query, accepted.
  destruct (String.eqb_spec (DT_URL cfg) "") as [Eu | Nu]; simpl.
  { split; [discriminate | intros [[? _] _]; contradiction]. }
  destruct (String.eqb_spec (DT_TOKEN cfg) "") as [Et | Nt]; simpl.
  { split; [discriminate | intros [(_ & ? & _) _]; contradiction]. }
  destruct (outcome submit) as [r |] eqn:Eo.
  2:{ split; [discriminate|].
      intros [(_ & _ & r & b & [=] & _) _]. }
  destruct (Z.geb_spec (status_code r) 400) as [Hge | Hlt].
  { split.
    - intros [= E _]. exfalso. apply Hs. exists r. now split.
    - intros [(_ & _ & r' & b & [= <-] & ? & _) _]. lia. }
  destruct (json r) as [body |] eqn:Ej.
  2:{ split; [discriminate|].
      intros [(_ & _ & r' & b & [= <-] & _ & E & _) _]. congruence. }
  destruct (truthy (j_jobId body)) eqn:Ejob; simpl.
  2:{ split; [discriminate|].
      intros [(_ & _ & r' & b & [= <-] & _ & E & Hj) _]. congruence. }
  rewrite (poll_loop_timeout_iff _ _ _ _ _ _ Hp). split.
  - intros Hex. split; [|exact Hex].
    split; [exact Nu|]. split; [exact Nt|]. exists r, body.
    repeat split; try assumption; lia.
  - intros [_ Hex]. exact Hex.
Qed.

(** C4 fails as stated: the first poll's answer arrives 35 seconds after
    the start of the submission with the job still running, the timeout is
    30 seconds, and the engine goes on to return the result at 36.25
    seconds. *)
Lemma grail_query_timeout_counterexample :
  pending running_poll = true /\
  (inject_Z 30 < (0 + latency slow_submit + latency running_poll) - 0)%Q /\
  grail_query configured 30 0 slow_submit [running_poll; succeeded_poll]
  = Some (Ret succeeded_body, (0 + 20 + 15 + (1 # 4) + 1)%Q) /\
  grail_query configured 30 0 slow_submit [running_poll; succeeded_poll]
  <> Some (Raise grail_timeout, (0 + 20 + 15)%Q).
Proof.
  split; [reflexivity|]. split; [reflexivity|].
  split; [vm_compute; reflexivity | vm_compute; discriminate].
Qed.

(** With the clock started after the submission, the same backend makes
    the engine time out at the second poll, whose answer arrives 30.25
    seconds after the job was accepted. *)
Lemma grail_query_timeout_iff_witness :
  ~ relays_504 slow_submit /\
  Forall (fun p => ~ relays_504 p) [running_poll; running_poll] /\
  (grail_query configured 30 0 slow_submit
     [running_poll; running_poll]
   = Some (Raise grail_timeout, (0 + 20 + 15 + (1 # 4) + 15)%Q)
   <->
   accepted configured slow_submit /\
   exists pre p rest,
     [running_poll; running_poll] = pre ++ p :: rest /\
     waits 30 (0 + latency slow_submit) (1 # 4) (0 + latency slow_submit) pre
     = true /\
     pending p = true /\
     (0 + 20 + 15 + (1 # 4) + 15)%Q
     = ((after_waits (1 # 4) (0 + latency slow_submit) pre).2 + latency p)%Q /\
     (inject_Z 30 < (0 + 20 + 15 + (1 # 4) + 15)
                    - (0 + latency slow_submit))%Q).
Proof.
  assert (N : forall p, p = slow_submit \/ p = running_poll -> ~ relays_504 p).
  { intros p [-> | ->] (r & [= <-] & E); discriminate E. }
  assert (Ns : ~ relays_504 slow_submit) by (apply N; now left).
  assert (Np : Forall (fun p => ~ relays_504 p)
                 [running_poll; running_poll])
    by (repeat constructor; apply N; now right).
  split; [exact Ns|]. split; [exact Np|].
  exact (grail_query_timeout_iff configured 30 0 slow_submit
           [running_poll; running_poll]
           (0 + 20 + 15 + (1 # 4) + 15)%Q Ns Np).
Defined.

(** The left-hand side of the witness holds: this run does time out. *)
Example grail_query_times_out :
  grail_query configured 30 0 slow_submit
    [running_poll; running_poll]
  = Some (Raise grail_timeout, (0 + 20 + 15 + (1 # 4) + 15)%Q).
Proof. vm_compute. reflexivity. Qed.

(** ** Request handlers *)

(** What a miss of [get] leaves behind: no entry under the key, every
    other entry as before, and the very same cache when the key was not
    there to begin with. *)
Lemma get_miss {V : Type} (c : TTLCache V) (key : string) (ttl : Z) (now : Q) :
  dict_wf (store c) ->
  (get c key ttl now).1 = None ->
  dict_get key (store (get c key ttl now).2) = None /\
  (forall k, k <> key ->
     dict_get k (store (get c key ttl now).2) = dict_get k (store c)) /\
  max_items (get c key ttl now).2 = max_items c /\
  (dict_get key (store c) = None -> (get c key ttl now).2 = c).
Proof.
  intros W. unfold get.
  destruct (dict_get key (store c)) as [item |] eqn:Eg; simpl.
  - destruct (Qltb _ _); simpl; [intros _ | discriminate].
    split; [now apply dict_get_pop_eq|].
    split; [intros k N; now apply dict_get_pop_ne|].
    split; [reflexivity | discriminate].
  - intros _. repeat split; auto.
Qed.

Section HandlerFacts.
Context `{JsonLib}.

Lemma serve_engine_failure (e : env) (cache_key : string) (ttl : Z)
    (shape : jobject -> result body) (c : TTLCache body) (now : Q)
    (submit : call) (polls : list call) (ex : exn) (T : Q) :
  (get c cache_key ttl now).1 = None ->
  grail_query (env_cfg e) (QUERY_TIMEOUT e) now submit polls
  = Some (Raise ex, T) ->
  serve e cache_key ttl shape c now submit polls
  = Some (Raise ex, (get c cache_key ttl now).2, T).
Proof.
  unfold serve. destruct (get c cache_key ttl now) as [hit c1]; simpl.
  intros -> ->. reflexivity.
Qed.

(** C10, as amended: when the engine fails, the [/table] handler passes
    the failure on and writes nothing: afterwards the cache holds no entry
    under the request's key and every other entry is as before.  The
    cache is the very same as before when it held no entry under the key;
    otherwise the handler's own [get] has removed the expired entry that
    was there. *)
Theorem table_engine_failure (e : env) (dql from_ to_ : string) (ttl : Z)
    (c : TTLCache body) (now : Q) (submit : call) (polls : list call)
    (ex : exn) (T : Q) :
  dict_wf (store c) ->
  (get c (_hash_key ["table"; dql; from_; to_]) ttl now).1 = None ->
  grail_query (env_cfg e) (QUERY_TIMEOUT e) now submit polls
  = Some (Raise ex, T) ->
  exists c',
    table e (Ret tt) dql from_ to_ ttl c now submit polls
    = Some (Raise ex, c', T) /\
    dict_get (_hash_key ["table"; dql; from_; to_]) (store c') = None /\
    (forall k, k <> _hash_key ["table"; dql; from_; to_] ->
       dict_get k (store c') = dict_get k (store c)) /\
    max_items c' = max_items c /\
    (dict_get (_hash_key ["table"; dql; from_; to_]) (store c) = None ->
     c' = c).
Proof.
  intros W Hmiss Hfail.
  exists (get c (_hash_key ["table"; dql; from_; to_]) ttl now).2.
  split; [|now apply get_miss].
  unfold table. now apply serve_engine_failure.
Qed.

(** The other two handlers behave alike. *)
Lemma raw_query_engine_failure (e : env) (dql _from _to : string)
    (c : TTLCache body) (now : Q) (submit : call) (polls : list call)
    (ex : exn) (T : Q) :
  dql <> "" ->
  (get c (_hash_key ["raw"; dql; _from; _to]) (RAW_TTL e) now).1 = None ->
  grail_query (env_cfg e) (QUERY_TIMEOUT e) now submit polls
  = Some (Raise ex, T) ->
  raw_query e (Ret tt) (Some dql) (Some _from) (Some _to) c now submit polls
  = Some (Raise ex,
          (get c (_hash_key ["raw"; dql; _from; _to]) (RAW_TTL e) now).2, T).
Proof.
  intros N Hmiss Hfail. unfold raw_query. simpl.
  destruct dql as [| a dql]; [congruence|].
  now apply serve_engine_failure.
Qed.

Lemma timeseries_engine_failure `{DatetimeLib} (py_str : value -> string)
    (e : env) (dql from_ to_ value_ timecol : string) (label : option string)
    (ttl : Z) (c : TTLCache body) (now : Q) (submit : call)
    (polls : list call) (ex : exn) (T : Q) :
  let key :=
    _hash_key ["ts"; dql; from_; to_; value_; timecol; default "" label] in
  (get c key ttl now).1 = None ->
  grail_query (env_cfg e) (QUERY_TIMEOUT e) now submit polls
  = Some (Raise ex, T) ->
  timeseries py_str e (Ret tt) dql from_ to_ value_ timecol label ttl
    c now submit polls
  = Some (Raise ex, (get c key ttl now).2, T).
Proof.
  intros key Hmiss Hfail. unfold timeseries.
  now apply serve_engine_failure.
Qed.

End HandlerFacts.

Lemma stale_cache_wf : dict_wf (store stale_cache).
Proof. unfold dict_wf. simpl. apply NoDup_singleton. Qed.

(** C10 fails as stated: the cache holds an entry of age 100 under the
    request's key, the request comes with a [ttl] of 30 and the backend
    rejects the submission; the handler fails and leaves the cache without
    that entry. *)
Lemma table_engine_failure_counterexample :
  grail_query (env_cfg env0) (QUERY_TIMEOUT env0) 100 rejected_submit []
  = Some (Raise (HTTPException 503 (DText "busy")), (100 + 1)%Q) /\
  table env0 (Ret tt) "fetch logs" "now()-1h" "now()" 30 stale_cache 100
    rejected_submit []
  = Some (Raise (HTTPException 503 (DText "busy")),
          {| max_items := 512; store := [] |}, (100 + 1)%Q) /\
  {| max_items := 512; store := [] |} <> stale_cache.
Proof.
  split; [vm_compute; reflexivity|].
  split; [vm_compute; reflexivity | discriminate].
Qed.

Lemma table_engine_failure_witness :
  dict_wf (store stale_cache) /\
  (get stale_cache (_hash_key ["table"; "fetch logs"; "now()-1h"; "now()"])
     30 100).1 = None /\
  grail_query (env_cfg env0) (QUERY_TIMEOUT env0) 100 rejected_submit []
  = Some (Raise (HTTPException 503 (DText "busy")), (100 + 1)%Q) /\
  exists c',
    table env0 (Ret tt) "fetch logs" "now()-1h" "now()" 30 stale_cache 100
      rejected_submit []
    = Some (Raise (HTTPException 503 (DText "busy")), c', (100 + 1)%Q) /\
    dict_get (_hash_key ["table"; "fetch logs"; "now()-1h"; "now()"])
      (store c') = None /\
    (forall k, k <> _hash_key ["table"; "fetch logs"; "now()-1h"; "now()"] ->
       dict_get k (store c') = dict_get k (store stale_cache)) /\
    max_items c' = max_items stale_cache /\
    (dict_get (_hash_key ["table"; "fetch logs"; "now()-1h"; "now()"])
       (store stale_cache) = None ->
     c' = stale_cache).
Proof.
  assert (M : (get stale_cache
                 (_hash_key ["table"; "fetch logs"; "now()-1h"; "now()"])
                 30 100).1 = None) by (vm_compute; reflexivity).
  assert (F : grail_query (env_cfg env0) (QUERY_TIMEOUT env0) 100
                rejected_submit []
              = Some (Raise (HTTPException 503 (DText "busy")), (100 + 1)%Q))
    by (vm_compute; reflexivity).
  split; [exact stale_cache_wf|]. split; [exact M|]. split; [exact F|].
  exact (table_engine_failure env0 "fetch logs" "now()-1h" "now()" 30
           stale_cache 100 rejected_submit []
           (HTTPException 503 (DText "busy")) (100 + 1)%Q
           stale_cache_wf M F).
Defined.

(** ** The adapters of [app.py] and of [apigrail.py] side by side *)

Example table_columns_keyed :
  columns (to_grafana_table host_records)
  = ["Uptime"; "timestamp"; "cpu"; "host"].
Proof. vm_compute. reflexivity. Qed.

Example table_rows_aligned :
  rows (to_grafana_table host_records)
  = [ [VNone; VInt 1704067200; VInt 3; VStr "a"];
      [VInt 9; VNone; VNone; VStr "b"] ].
Proof. vm_compute. reflexivity. Qed.

(** The earlier table adapter sorts the names as they are. *)
Example apigrail_table_columns_plain :
  columns (Apigrail.to_grafana_table host_records)
  = ["Uptime"; "cpu"; "host"; "timestamp"].
Proof. vm_compute. reflexivity. Qed.

(** The loop of the earlier timeseries adapter has no filter: whatever the
    record holds, a point is appended for it. *)
Lemma apigrail_collect_keeps_every_record `{DatetimeLib}
    (py_str : value -> string) (timecol value_ : string)
    (label : option string) (r : record) (ts : value) :
  Apigrail.normalise (py_get r timecol) = Ret ts ->
  Apigrail.collect py_str timecol value_ label [r] []
  = Ret [(group_key py_str label r, [(ts, py_get r value_)])].
Proof. intros E. simpl. rewrite E. reflexivity. Qed.

Example apigrail_collect_keeps_incomplete :
  @Apigrail.collect Iso.lib Iso.py_str "ts" "v" None
    [ {[ "ts" := VInt 1704067230 ]}; ∅ ] []
  = Ret [("series", [(VInt 1704067230000, VNone); (VNone, VNone)])].
Proof. vm_compute. reflexivity. Qed.

(** The end-to-end example with the records in arrival order. *)
Example timeseries_end_to_end :
  @to_grafana_timeseries Iso.lib Iso.py_str
    {| j_jobId := VNone; j_status := VStr "SUCCEEDED";
       j_records :=
         [ {[ "ts" := VStr "2024-01-01T00:00:00Z"; "v" := VInt 1 ]};
           {[ "ts" := VInt 1704067260; "v" := VInt 2 ]} ] |}
    "ts" "v" None
  = Ret two_points.
Proof. vm_compute. reflexivity. Qed.

(** Grouping by a label column keeps the groups in order of first
    appearance and sorts inside each group. *)
Example timeseries_grouped :
  @to_grafana_timeseries Iso.lib Iso.py_str
    {| j_jobId := VNone; j_status := VStr "SUCCEEDED";
       j_records :=
         [ {[ "ts" := VInt 30; "v" := VInt 1; "host" := VStr "b" ]};
           {[ "ts" := VInt 20; "v" := VInt 2; "host" := VStr "a" ]};
           {[ "ts" := VInt 10; "v" := VInt 3; "host" := VStr "b" ]};
           {[ "ts" := VInt 10; "v" := VInt 4; "host" := VStr "b" ]} ] |}
    "ts" "v" (Some "host")
  = Ret [ {| f_name := "b"; f_times := [10000; 10000; 30000];
             f_values := [VInt 3; VInt 4; VInt 1] |};
          {| f_name := "a"; f_times := [20000]; f_values := [VInt 2] |} ].
Proof. vm_compute. reflexivity. Qed.

(** The ways the engine fails, each leaving the handler without a payload
    to store. *)
Example grail_query_failures :
  grail_query {| DT_URL := ""; DT_TOKEN := "t" |} 30 0 slow_submit []
  = Some (Raise (HTTPException 500 (DText "DT_URL/DT_TOKEN not configured")),
          0%Q) /\
  grail_query configured 30 0 rejected_submit [running_poll]
  = Some (Raise (HTTPException 503 (DText "busy")), (0 + 1)%Q) /\
  grail_query configured 30 0 no_job_submit [running_poll]
  = Some (Raise (HTTPException 502 (DText "Grail did not return a jobId")),
          (0 + 1)%Q) /\
  grail_query configured 30 0 slow_submit [lost_poll]
  = Some (Raise TransportError, (0 + 20 + 5)%Q) /\
  grail_query configured 30 0 slow_submit [running_poll; failed_poll]
  = Some (Raise (HTTPException 502
                   (DJson {| j_jobId := VNone; j_status := VStr "FAILED";
                             j_records := [] |})),
          (0 + 20 + 15 + (1 # 4) + 1)%Q).
Proof. repeat split; vm_compute; reflexivity. Qed.

(** The backoff starts at a quarter of a second, doubles after every
    pending poll and stays at one second. *)
Example backoff_schedule :
  (after_waits (1 # 4) 0 [running_poll]).1 == 1 # 2 /\
  (after_waits (1 # 4) 0 [running_poll; running_poll]).1 == 1 /\
  (after_waits (1 # 4) 0 [running_poll; running_poll; running_poll]).1 == 1.
Proof. repeat split; vm_compute; reflexivity. Qed.

(** * Further properties *)

(** ** TTL cache: capacity, overwriting, reading back *)

Section CacheMore.
Context {V : Type}.
Implicit Types (c : TTLCache V) (s : list (string * entry V)).

Lemma dict_set_present {X : Type} (d : list (string * X)) (key : string)
    (x old : X) :
  dict_get key d = Some old ->
  length (dict_set key x d) = length d /\
  fst <$> dict_set key x d = fst <$> d.
Proof.
  induction d as [| [k y] d IH]; cbn [dict_get dict_set]; [discriminate|].
  destruct (String.eqb_spec k key) as [-> | N].
  - intros _. now split.
  - intros E. destruct (IH E) as [E1 E2]. split.
    + simpl. now rewrite E1.
    + rewrite !fmap_cons. now rewrite E2.
Qed.

Lemma dict_set_absent {X : Type} (d : list (string * X)) (key : string)
    (x : X) :
  dict_get key d = None -> dict_set key x d = d ++ [(key, x)].
Proof.
  induction d as [| [k y] d IH]; simpl; [reflexivity|].
  destruct (String.eqb k key); [discriminate|].
  intros E. now rewrite IH.
Qed.

(** A last element that is not older than the rest is never the minimum. *)
Lemma min_by_ts_snoc (best x : string * entry V) s :
  (forall y, y ∈ best :: s -> (e_ts y.2 <= e_ts x.2)%Q) ->
  min_by_ts best (s ++ [x]) = min_by_ts best s.
Proof.
  revert best. induction s as [| y s IH]; intros best Hle; simpl.
  - destruct (Qltb (e_ts x.2) (e_ts best.2)) eqn:E; [|reflexivity].
    apply Qltb_lt in E. exfalso.
    eapply Qlt_not_le; [exact E|]. apply Hle. left.
  - destruct (Qltb (e_ts y.2) (e_ts best.2)); apply IH; intros z Hz;
      apply Hle; apply elem_of_cons in Hz as [-> | Hz];
      (right; left) || (left) || (right; now right).
Qed.

Lemma set_store_cases c key v now :
  dict_wf (store c) ->
  let written := dict_set key {| e_value := v; e_ts := now |} (store c) in
  (Z.of_nat (length written) <= max_items c /\
   set c key v now = (Ret tt, with_store c written)) \/
  (max_items c < Z.of_nat (length written) /\
   exists o, o ∈ written /\
     (forall y, y ∈ written -> (e_ts o.2 <= e_ts y.2)%Q) /\
     (dict_get key (store c) = None -> store c <> [] ->
      written_by c now -> o.1 <> key) /\
     set c key v now = (Ret tt, with_store c (dict_pop o.1 written))).
Proof.
  intros W written.
  destruct (Z.leb_spec (Z.of_nat (length written)) (max_items c)) as [Hle | Hgt].
  - left. split; [exact Hle|]. unfold set, _evict_if_needed. simpl.
    fold written. apply Z.leb_le in Hle. now rewrite Hle.
  - right. split; [exact Hgt|].
    unfold set, _evict_if_needed. simpl store. simpl max_items. fold written.
    apply Z.leb_gt in Hgt. rewrite Hgt.
    destruct written as [| x rest] eqn:Ew.
    { exfalso. subst written. destruct (store c) as [| [k0 y0] s0];
        simpl in Ew; [discriminate|].
      destruct (String.eqb k0 key); discriminate. }
    exists (min_by_ts x rest). split; [apply min_by_ts_elem_of|].
    split; [intros y Hy; now apply min_by_ts_least|]. split; [|reflexivity].
    intros Habs Hne Hpast. subst written.
    rewrite (dict_set_absent _ _ _ Habs) in Ew.
    destruct (store c) as [| b s] eqn:Es; [congruence|].
    simpl in Ew. injection Ew as <- <-.
    rewrite min_by_ts_snoc.
    + intros E.
      assert (Hin : min_by_ts b s ∈ b :: s) by apply min_by_ts_elem_of.
      apply dict_get_None in Habs. apply Habs.
      rewrite <- E. apply list_elem_of_fmap. eexists. split; [reflexivity|].
      exact Hin.
    + intros [k e] Hy. simpl. apply (Hpast k e). rewrite Es.
      now apply dict_get_of_elem.
Qed.

(** X1: Capacity is an invariant: a cache within its (non-negative) capacity
    is within it after any [set] and after any [get]. *)
Theorem cache_stays_within_capacity c key v (now : Q) key' (ttl : Z)
    (now' : Q) :
  dict_wf (store c) ->
  0 <= max_items c ->
  within_capacity c ->
  within_capacity (set c key v now).2 /\
  within_capacity (get c key' ttl now').2.
Proof.
  intros W Hmax Hc. unfold within_capacity in *. split.
  - destruct (set_store_cases c key v now W) as [[Hle ->] | (Hgt & o & Ho & _ & _ & ->)];
      simpl; [exact Hle|].
    set (written := dict_set key {| e_value := v; e_ts := now |} (store c)) in *.
    assert (Ww : dict_wf written) by now apply dict_set_wf.
    destruct o as [ko eo].
    pose proof (dict_pop_length written ko eo
                  (dict_get_of_elem written ko eo Ww Ho)) as Hl.
    simpl.
    assert (Hw : (length written <= S (length (store c)))%nat).
    { subst written. destruct (dict_get key (store c)) as [old |] eqn:Eg.
      - destruct (dict_set_present (store c) key
                    {| e_value := v; e_ts := now |} old Eg) as [-> _]. lia.
      - rewrite (dict_set_absent _ _ _ Eg), length_app. simpl. lia. }
    lia.
  - unfold get. destruct (dict_get key' (store c)) as [item |] eqn:Eg;
      [|exact Hc].
    destruct (Qltb _ _); simpl; [|exact Hc].
    pose proof (dict_pop_length (store c) key' item Eg). lia.
Qed.

Lemma set_present c key v now (old : entry V) :
  within_capacity c ->
  dict_get key (store c) = Some old ->
  set c key v now
  = (Ret tt,
     with_store c (dict_set key {| e_value := v; e_ts := now |} (store c))).
Proof.
  intros Hc Hold. unfold within_capacity in Hc.
  destruct (dict_set_present (store c) key {| e_value := v; e_ts := now |}
              old Hold) as [Hlen _].
  unfold set, _evict_if_needed. simpl store. simpl max_items.
  rewrite Hlen. apply Z.leb_le in Hc. now rewrite Hc.
Qed.

(** X2: Writing under a key the cache already holds replaces the value and
    the timestamp in place: nothing is evicted, the keys and their order
    stay, and every other entry is as before. *)
Theorem set_overwrites c key v now (old : entry V) :
  within_capacity c ->
  dict_get key (store c) = Some old ->
  (set c key v now).1 = Ret tt /\
  fst <$> store (set c key v now).2 = fst <$> store c /\
  dict_get key (store (set c key v now).2)
  = Some {| e_value := v; e_ts := now |} /\
  (forall k, k <> key ->
     dict_get k (store (set c key v now).2) = dict_get k (store c)).
Proof.
  intros Hc Hold. rewrite (set_present c key v now old Hc Hold). simpl.
  destruct (dict_set_present (store c) key {| e_value := v; e_ts := now |}
              old Hold) as [_ Hkeys].
  split; [reflexivity|]. split; [exact Hkeys|]. split.
  - rewrite dict_get_set. now rewrite String.eqb_refl.
  - intros k N. rewrite dict_get_set.
    destruct (String.eqb_spec key k); congruence.
Qed.

(** After a [set] the store holds the entry under its key, unless the
    write made the entry itself the one to evict, which the hypotheses
    rule out. *)
Lemma set_stores c key v now :
  dict_wf (store c) ->
  1 <= max_items c ->
  within_capacity c ->
  written_by c now ->
  dict_get key (store (set c key v now).2)
  = Some {| e_value := v; e_ts := now |}.
Proof.
  intros W Hmax Hc Hpast.
  destruct (dict_get key (store c)) as [old |] eqn:Eg.
  - rewrite (set_present c key v now old Hc Eg). simpl.
    rewrite dict_get_set. now rewrite String.eqb_refl.
  - destruct (set_store_cases c key v now W)
      as [[_ ->] | (Hgt & o & _ & _ & Hne & ->)]; simpl.
    + rewrite dict_get_set. now rewrite String.eqb_refl.
    + rewrite dict_get_pop_ne, dict_get_set; [now rewrite String.eqb_refl|].
      intros E. symmetry in E. revert E. apply Hne; try assumption; try reflexivity.
      intros Hs. rewrite (dict_set_absent _ _ _ Eg), Hs in Hgt.
      simpl in Hgt. lia.
Qed.

(** X3: A value written is read back: in a cache of capacity at least one
    that is within its capacity and holds no entry from the future, a
    [get] of the key just [set] returns the value, as long as the time
    since the [set] does not exceed the [ttl] of the [get]. *)
Theorem set_then_get c key v (ttl : Z) (now now' : Q) :
  dict_wf (store c) ->
  1 <= max_items c ->
  within_capacity c ->
  written_by c now ->
  (now' - now <= inject_Z ttl)%Q ->
  (get (set c key v now).2 key ttl now').1 = Some v.
Proof.
  intros W Hmax Hc Hpast Hage.
  unfold get. rewrite (set_stores c key v now W Hmax Hc Hpast). simpl.
  apply Qltb_ge in Hage. now rewrite Hage.
Qed.

(** X4: A read that hits also hits under every larger [ttl], with the same
    value and without touching the cache. *)
Theorem get_ttl_monotone c key (ttl ttl' : Z) (now : Q) (v : V) :
  (get c key ttl now).1 = Some v ->
  ttl <= ttl' ->
  get c key ttl' now = (Some v, c).
Proof.
  unfold get. destruct (dict_get key (store c)) as [item |]; [|discriminate].
  destruct (Qltb (inject_Z ttl) _) eqn:E; simpl; [discriminate|].
  intros [= <-] Hle. apply Qltb_ge in E.
  assert (E' : Qltb (inject_Z ttl') (now - e_ts item) = false).
  { apply Qltb_ge. eapply Qle_trans; [exact E|].
    rewrite <- Zle_Qle. exact Hle. }
  now rewrite E'.
Qed.

(** X5: A miss is final: once a [get] has missed, no later [get] of that key
    hits, whatever its [ttl], until the key is [set] again. *)
Theorem get_miss_is_final c key (ttl ttl' : Z) (now now' : Q) :
  dict_wf (store c) ->
  (get c key ttl now).1 = None ->
  get (get c key ttl now).2 key ttl' now' = (None, (get c key ttl now).2).
Proof.
  intros W Hmiss.
  destruct (get_miss c key ttl now W Hmiss) as (Hnone & _).
  remember (get c key ttl now).2 as c1 eqn:Ec1. clear Ec1.
  unfold get. now rewrite Hnone.
Qed.

End CacheMore.

(** ** Timeseries adapter: what each series holds *)

Lemma setdefault_append_get {P : Type} (key k : string) (p : P)
    (series : list (string * list P)) :
  dict_get k (setdefault_append key p series) =
  if String.eqb key k then Some (default [] (dict_get key series) ++ [p])
  else dict_get k series.
Proof.
  induction series as [| [k' pts] series IH]; simpl.
  - destruct (String.eqb key k); reflexivity.
  - destruct (String.eqb_spec k' key) as [-> | N]; simpl.
    + destruct (String.eqb_spec key k); reflexivity.
    + rewrite IH. destruct (String.eqb_spec k' k) as [-> | N'].
      * destruct (String.eqb_spec key k); [congruence | reflexivity].
      * reflexivity.
Qed.

Lemma setdefault_append_keys {P : Type} (key k : string) (p : P)
    (series : list (string * list P)) :
  k ∈ (fst <$> setdefault_append key p series)
  <-> k = key \/ k ∈ (fst <$> series).
Proof.
  induction series as [| [k' pts] series IH]; simpl.
  - rewrite list_elem_of_singleton, elem_of_nil. tauto.
  - destruct (String.eqb_spec k' key) as [-> | N]; simpl.
    + rewrite !elem_of_cons. tauto.
    + rewrite !elem_of_cons, IH. tauto.
Qed.

Lemma setdefault_append_wf {P : Type} (key : string) (p : P)
    (series : list (string * list P)) :
  dict_wf series -> dict_wf (setdefault_append key p series).
Proof.
  unfold dict_wf. induction series as [| [k pts] series IH]; simpl.
  - intros _. apply NoDup_singleton.
  - rewrite NoDup_cons. intros [Hk Hs].
    destruct (String.eqb_spec k key) as [-> | N]; simpl.
    + apply NoDup_cons. now split.
    + apply NoDup_cons. split; [|auto].
      rewrite setdefault_append_keys. intros [-> | Hin]; [congruence | auto].
Qed.

Lemma insert_sorted_points_at (t : Z) (x : point) (l : list point) :
  points_at t (insert_sorted fst Z.leb x l) = points_at t (x :: l).
Proof.
  unfold points_at. induction l as [| y l IH]; simpl; [reflexivity|].
  destruct (Z.leb_spec x.1 y.1) as [Hle | Hgt]; [reflexivity|].
  rewrite (filter_cons _ y), IH, !filter_cons.
  repeat case_decide; try reflexivity; lia.
Qed.

(** The sort is stable: the points of one timestamp keep their order. *)
Lemma py_sorted_points_at (t : Z) (l : list point) :
  points_at t (py_sorted fst Z.leb l) = points_at t l.
Proof.
  induction l as [| x l IH]; simpl; [reflexivity|].
  rewrite insert_sorted_points_at. unfold points_at in *.
  rewrite !filter_cons, IH. reflexivity.
Qed.

Section GroupFacts.
Context `{DatetimeLib}.
Variable py_str : value -> string.

Lemma group_points_snoc (timecol value_ : string) (label : option string)
    (k : string) (done : list record) (r : record) :
  group_points py_str timecol value_ label k (done ++ [r]) =
  group_points py_str timecol value_ label k done ++
  (if String.eqb (group_key py_str label r) k
   then record_points timecol value_ r else []).
Proof.
  unfold group_points. rewrite fmap_app, concat_app. simpl.
  now rewrite app_nil_r.
Qed.

Lemma collect_groups (timecol value_ : string) (label : option string)
    (recs done : list record) (series series' : list (string * list point)) :
  groups_of py_str timecol value_ label done series ->
  collect py_str timecol value_ label recs series = Ret series' ->
  groups_of py_str timecol value_ label (done ++ recs) series'.
Proof.
  revert done series. induction recs as [| r recs IH]; intros done series Inv.
  - simpl. intros [= <-]. now rewrite app_nil_r.
  - assert (Skip : record_points timecol value_ r = [] ->
                   groups_of py_str timecol value_ label (done ++ [r]) series).
    { intros E. destruct Inv as (W & Hne & Hg). repeat split; try assumption.
      intros k. rewrite group_points_snoc, E, Hg.
      destruct (String.eqb _ _); now rewrite app_nil_r. }
    replace (done ++ r :: recs) with ((done ++ [r]) ++ recs)
      by now rewrite <- app_assoc.
    simpl. unfold record_points in Skip.
    destruct (_to_epoch_ms (py_get r timecol)) as [[t |] | e] eqn:Ets; simpl;
      [| now apply IH, Skip | discriminate].
    assert (Keep : py_get r value_ <> VNone ->
              groups_of py_str timecol value_ label (done ++ [r])
                (setdefault_append (group_key py_str label r)
                   (t, py_get r value_) series)).
    { intros Hv. destruct Inv as (W & Hne & Hg). split; [|split].
      - now apply setdefault_append_wf.
      - intros k. rewrite setdefault_append_get.
        destruct (String.eqb _ k); [|apply Hne].
        intros [= E]. now apply app_eq_nil in E as [_ ?].
      - intros k. rewrite setdefault_append_get, group_points_snoc.
        unfold record_points. rewrite Ets.
        destruct (String.eqb_spec (group_key py_str label r) k) as [-> | N].
        + simpl. rewrite Hg.
          destruct (py_get r value_); [now contradiction Hv | reflexivity ..].
        + now rewrite Hg, app_nil_r. }
    destruct (py_get r value_) eqn:Ev;
      [now apply IH, Skip | apply IH, Keep; discriminate ..].
Qed.

Lemma collect_groups_nil (timecol value_ : string) (label : option string)
    (recs : list record) (series : list (string * list point)) :
  collect py_str timecol value_ label recs [] = Ret series ->
  groups_of py_str timecol value_ label recs series.
Proof.
  apply (collect_groups timecol value_ label recs [] []).
  split; [apply NoDup_nil_2|]. split; [discriminate | reflexivity].
Qed.

Lemma frame_points_make_frame (kp : string * list point) :
  frame_points (make_frame kp) = py_sorted fst Z.leb kp.2.
Proof.
  unfold frame_points, make_frame. cbn [f_times f_values].
  apply zip_fst_snd.
Qed.

(** X8: One series per group: the frames carry pairwise different names, each
    frame holds exactly the points of the complete records of its group,
    and every group with a complete record has its frame. *)
Theorem timeseries_frames_by_group (j : jobject) (timecol value_ : string)
    (label : option string) (frames : list frame) :
  to_grafana_timeseries py_str j timecol value_ label = Ret frames ->
  NoDup (f_name <$> frames) /\
  (forall f, f ∈ frames ->
     Permutation (frame_points f)
       (group_points py_str timecol value_ label (f_name f) (j_records j))) /\
  (forall k,
     group_points py_str timecol value_ label k (j_records j) <> [] ->
     exists f, f ∈ frames /\ f_name f = k).
Proof.
  unfold to_grafana_timeseries, bind.
  destruct (collect _ _ _ _ _ _) as [series | e] eqn:Ec; [|discriminate].
  intros [= <-]. apply collect_groups_nil in Ec as (W & Hne & Hg).
  split; [|split].
  - rewrite <- list_fmap_compose. exact W.
  - intros f Hf. apply list_elem_of_fmap in Hf as ([k pts] & -> & Hin).
    rewrite frame_points_make_frame, py_sorted_perm. simpl.
    rewrite <- Hg, (dict_get_of_elem series k pts W Hin). reflexivity.
  - intros k Hk. rewrite <- Hg in Hk.
    destruct (dict_get k series) as [pts |] eqn:Eg; [|contradiction].
    exists (make_frame (k, pts)). split; [|reflexivity].
    apply list_elem_of_fmap. exists (k, pts). split; [reflexivity|].
    now apply dict_get_elem_of.
Qed.

(** X9: Every frame is a well-formed, non-empty column pair: as many values
    as times, and at least one point. *)
Theorem timeseries_frames_aligned (j : jobject) (timecol value_ : string)
    (label : option string) (frames : list frame) :
  to_grafana_timeseries py_str j timecol value_ label = Ret frames ->
  Forall (fun f => length (f_times f) = length (f_values f) /\
                   f_times f <> []) frames.
Proof.
  unfold to_grafana_timeseries, bind.
  destruct (collect _ _ _ _ _ _) as [series | e] eqn:Ec; [|discriminate].
  intros [= <-]. apply collect_groups_nil in Ec as (W & Hne & Hg).
  apply Forall_fmap, Forall_forall. intros [k pts] Hin.
  unfold make_frame; simpl. split; [now rewrite !length_fmap|].
  intros E. apply fmap_nil_inv in E.
  apply (Hne k). rewrite (dict_get_of_elem series k pts W Hin). f_equal.
  pose proof (py_sorted_perm fst Z.leb pts) as P. simpl in E. rewrite E in P.
  now apply Permutation_nil in P.
Qed.

(** X10: Ties keep the order of arrival: within a frame, the points that share
    a timestamp appear in the order of their records. *)
Theorem timeseries_ties_in_record_order (j : jobject)
    (timecol value_ : string) (label : option string) (frames : list frame)
    (f : frame) (t : Z) :
  to_grafana_timeseries py_str j timecol value_ label = Ret frames ->
  f ∈ frames ->
  points_at t (frame_points f) =
  points_at t (group_points py_str timecol value_ label (f_name f)
                 (j_records j)).
Proof.
  unfold to_grafana_timeseries, bind.
  destruct (collect _ _ _ _ _ _) as [series | e] eqn:Ec; [|discriminate].
  intros [= <-] Hf. apply collect_groups_nil in Ec as (W & Hne & Hg).
  apply list_elem_of_fmap in Hf as ([k pts] & -> & Hin).
  rewrite frame_points_make_frame, py_sorted_points_at. simpl.
  rewrite <- Hg, (dict_get_of_elem series k pts W Hin). reflexivity.
Qed.

Lemma group_points_no_label (timecol value_ : string) (label : option string)
    (k : string) (recs : list record) :
  label_given label = None -> "series" <> k ->
  group_points py_str timecol value_ label k recs = [].
Proof.
  intros Hl N. unfold group_points.
  induction recs as [| r recs IH]; simpl; [reflexivity|].
  unfold group_key at 1. rewrite Hl.
  destruct (String.eqb_spec "series" k); [contradiction | exact IH].
Qed.

(** X11: Without a label (none given, or the empty string) there is at most
    one frame, and its name is [series]. *)
Theorem timeseries_single_series (j : jobject) (timecol value_ : string)
    (label : option string) (frames : list frame) :
  label_given label = None ->
  to_grafana_timeseries py_str j timecol value_ label = Ret frames ->
  frames = [] \/ exists f, frames = [f] /\ f_name f = "series".
Proof.
  intros Hl. unfold to_grafana_timeseries, bind.
  destruct (collect _ _ _ _ _ _) as [series | e] eqn:Ec; [|discriminate].
  intros [= <-]. apply collect_groups_nil in Ec as (W & Hne & Hg).
  assert (Hkey : forall k pts, (k, pts) ∈ series -> k = "series").
  { intros k pts Hin.
    destruct (String.eqb_spec "series" k) as [E | N]; [now symmetry|].
    exfalso. apply (Hne k).
    pose proof (Hg k) as Hk.
    rewrite (group_points_no_label timecol value_ label k (j_records j) Hl N)
      in Hk.
    rewrite (dict_get_of_elem series k pts W Hin) in Hk |- *. simpl in Hk.
    now rewrite Hk. }
  destruct series as [| [k pts] [| [k' pts'] series]].
  - now left.
  - right. exists (make_frame (k, pts)). split; [reflexivity|]. simpl.
    apply (Hkey k pts). left.
  - exfalso. unfold dict_wf in W. simpl in W.
    apply NoDup_cons in W as [Hnin _]. apply Hnin.
    rewrite (Hkey k pts), (Hkey k' pts'); [left | right; left | left].
Qed.

Lemma collect_returns (timecol value_ : string) (label : option string)
    (recs : list record) (series : list (string * list point)) :
  Forall (fun r => exists ts, _to_epoch_ms (py_get r timecol) = Ret ts) recs ->
  exists series', collect py_str timecol value_ label recs series = Ret series'.
Proof.
  revert series. induction recs as [| r recs IH]; intros series Hall; simpl.
  - now exists series.
  - apply Forall_cons in Hall as [[ts Hts] Hall]. rewrite Hts. simpl.
    destruct ts as [t |]; [destruct (py_get r value_)|]; now apply IH.
Qed.

Lemma first_raise (timecol : string) (recs : list record) :
  Forall (fun r => exists ts, _to_epoch_ms (py_get r timecol) = Ret ts) recs \/
  exists recs1 r recs2 e,
    recs = recs1 ++ r :: recs2 /\
    Forall (fun r => exists ts, _to_epoch_ms (py_get r timecol) = Ret ts)
      recs1 /\
    _to_epoch_ms (py_get r timecol) = Raise e.
Proof.
  induction recs as [| r recs IH]; [left; constructor|].
  destruct (_to_epoch_ms (py_get r timecol)) as [ts | e] eqn:Er.
  - destruct IH as [Hall | (recs1 & r' & recs2 & e & -> & Hall & Hr')].
    + left. constructor; [now exists ts | exact Hall].
    + right. exists (r :: recs1), r', recs2, e. split; [reflexivity|].
      split; [|exact Hr']. constructor; [now exists ts | exact Hall].
  - right. exists [], r, recs, e. split; [reflexivity|].
    split; [constructor | exact Er].
Qed.

(** X12: The adapter raises exactly when the normaliser raises on the time
    field of some record, and then with the exception of the first such
    record; on any other record set it returns. *)
Theorem timeseries_raises_iff (j : jobject) (timecol value_ : string)
    (label : option string) (e : exn) :
  to_grafana_timeseries py_str j timecol value_ label = Raise e <->
  exists recs1 r recs2,
    j_records j = recs1 ++ r :: recs2 /\
    Forall (fun r => exists ts, _to_epoch_ms (py_get r timecol) = Ret ts)
      recs1 /\
    _to_epoch_ms (py_get r timecol) = Raise e.
Proof.
  unfold to_grafana_timeseries. split.
  - intros Hraise.
    destruct (first_raise timecol (j_records j))
      as [Hall | (recs1 & r & recs2 & e' & Hj & Hall & Hr)].
    + destruct (collect_returns timecol value_ label (j_records j) [] Hall)
        as [series Hs]. rewrite Hs in Hraise. discriminate.
    + exists recs1, r, recs2. split; [exact Hj|]. split; [exact Hall|].
      rewrite Hj, collect_app in Hraise.
      destruct (collect_returns timecol value_ label recs1 [] Hall)
        as [s1 Hs1].
      rewrite Hs1 in Hraise. simpl in Hraise. rewrite Hr in Hraise.
      simpl in Hraise. congruence.
  - intros (recs1 & r & recs2 & Hj & Hall & Hr).
    rewrite Hj, collect_app.
    destruct (collect_returns timecol value_ label recs1 [] Hall) as [s1 ->].
    simpl. now rewrite Hr.
Qed.

End GroupFacts.

(** ** Table adapter: shape and content of the rows *)

Lemma all_keys_elem_of (recs : list record) (k : string) :
  k ∈ all_keys recs <-> exists r, r ∈ recs /\ is_Some (r !! k).
Proof.
  unfold all_keys. rewrite elem_of_union_list. split.
  - intros (d & Hd & Hk). apply list_elem_of_fmap in Hd as (r & -> & Hr).
    exists r. split; [exact Hr|]. now apply elem_of_dom.
  - intros (r & Hr & Hk). exists (dom r). split; [|now apply elem_of_dom].
    apply list_elem_of_fmap. now exists r.
Qed.

(** X6: The table is rectangular and loses nothing: there is one row per
    record, every row is as wide as the column list, every field of every
    record sits in the record's row under the column of its name, and a
    cell whose record lacks the column holds [None]. *)
Theorem table_rows_complete (j : jobject) :
  length (rows (to_grafana_table j)) = length (j_records j) /\
  Forall (fun row => length row = length (columns (to_grafana_table j)))
         (rows (to_grafana_table j)) /\
  (forall i r, j_records j !! i = Some r ->
     exists row, rows (to_grafana_table j) !! i = Some row /\
       (forall k v, r !! k = Some v ->
          exists c, columns (to_grafana_table j) !! c = Some k /\
                    row !! c = Some v) /\
       (forall c k, columns (to_grafana_table j) !! c = Some k ->
          r !! k = None -> row !! c = Some VNone)).
Proof.
  unfold to_grafana_table; simpl.
  set (keys := py_sorted sort_key tuple_le (elements (all_keys (j_records j)))).
  split; [apply length_fmap|]. split.
  - apply Forall_fmap, Forall_forall. intros r _. simpl. apply length_fmap.
  - intros i r Hi. exists (py_get r <$> keys). split.
    + now rewrite list_lookup_fmap, Hi.
    + split.
      * intros k v Hk.
        assert (Hin : k ∈ keys).
        { unfold keys. rewrite py_sorted_perm.
          apply elem_of_elements, all_keys_elem_of.
          exists r. split; [now apply list_elem_of_lookup_2 in Hi | eauto]. }
        apply list_elem_of_lookup in Hin as [c Hc]. exists c.
        split; [exact Hc|].
        rewrite list_lookup_fmap, Hc. simpl. unfold py_get. now rewrite Hk.
      * intros c k Hc Hk. rewrite list_lookup_fmap, Hc. simpl.
        unfold py_get. now rewrite Hk.
Qed.

(** X7: The two table adapters show the same columns, those of [apigrail.py]
    in lexicographic order throughout, and the same cell under the same
    column name in every row. *)
Theorem table_adapters_same_content (j : jobject) :
  Permutation (columns (to_grafana_table j))
              (columns (Apigrail.to_grafana_table j)) /\
  StronglySorted str_le (columns (Apigrail.to_grafana_table j)) /\
  NoDup (columns (Apigrail.to_grafana_table j)) /\
  (forall i row row' c c' k,
     rows (to_grafana_table j) !! i = Some row ->
     rows (Apigrail.to_grafana_table j) !! i = Some row' ->
     columns (to_grafana_table j) !! c = Some k ->
     columns (Apigrail.to_grafana_table j) !! c' = Some k ->
     row !! c = row' !! c').
Proof.
  unfold to_grafana_table, Apigrail.to_grafana_table; simpl.
  set (keys := elements (all_keys (j_records j))).
  split; [now rewrite !py_sorted_perm|]. split; [|split].
  - apply (py_sorted_sorted (fun k : string => k) String.leb).
    + apply String.leb_total.
    + apply string_leb_trans.
  - rewrite py_sorted_perm. apply NoDup_elements.
  - intros i row row' c c' k Hrow Hrow' Hc Hc'.
    rewrite list_lookup_fmap in Hrow, Hrow'.
    destruct (j_records j !! i) as [r |]; [|discriminate].
    simpl in Hrow, Hrow'. injection Hrow as <-. injection Hrow' as <-.
    now rewrite !list_lookup_fmap, Hc, Hc'.
Qed.

(** ** Engine: how an execution ends *)

Lemma accepted_run (cfg : config) (timeout_sec : Z) (now : Q) (submit : call)
    (polls : list call) :
  accepted cfg submit ->
  grail_query cfg timeout_sec now submit polls =
  poll_loop timeout_sec (now + latency submit) (1 # 4) (now + latency submit)
    polls.
Proof.
  intros (Hu & Ht & r & body & Ho & Hs & Hj & Hjob). unfold grail_query.
  destruct (String.eqb_spec (DT_URL cfg) ""); [contradiction|].
  destruct (String.eqb_spec (DT_TOKEN cfg) ""); [contradiction|]. simpl.
  rewrite Ho. destruct (Z.geb_spec (status_code r) 400); [lia|].
  now rewrite Hj, Hjob.
Qed.

(** Whether the submission is accepted can be decided from the
    configuration and the answer. *)
Lemma accepted_dec (cfg : config) (submit : call) :
  accepted cfg submit \/ ~ accepted cfg submit.
Proof.
  unfold accepted.
  destruct (String.eqb_spec (DT_URL cfg) ""); [right; tauto|].
  destruct (String.eqb_spec (DT_TOKEN cfg) ""); [right; tauto|].
  destruct (outcome submit) as [r |];
    [|right; intros (_ & _ & r & b & [=] & _)].
  destruct (Z.ltb_spec (status_code r) 400);
    [|right; intros (_ & _ & r' & b & [= <-] & ? & _); lia].
  destruct (json r) as [body |] eqn:Ej;
    [|right; intros (_ & _ & r' & b & [= <-] & _ & ? & _); congruence].
  destruct (truthy (j_jobId body)) eqn:Eb.
  - left. repeat split; try assumption. now exists r, body.
  - right. intros (_ & _ & r' & b & [= <-] & _ & ? & ?). congruence.
Qed.

(** X13: A result that is ready at the first poll is returned at once: the
    engine takes the two round trips and no sleep, reads no further poll,
    and does so whatever the timeout, even one that has already run out. *)
Theorem grail_query_first_poll_success (cfg : config) (timeout_sec : Z)
    (now : Q) (submit p : call) (rest : list call) (j : jobject) :
  accepted cfg submit ->
  answers_succeeded p j ->
  grail_query cfg timeout_sec now submit (p :: rest)
  = Some (Ret j, (now + latency submit + latency p)%Q).
Proof.
  intros Ha (r & Ho & Hs & Hj & Hst). rewrite (accepted_run _ _ _ _ _ Ha).
  simpl. rewrite Ho. destruct (Z.geb_spec (status_code r) 400); [lia|].
  now rewrite Hj, Hst.
Qed.

Lemma rejected_run (cfg : config) (timeout_sec : Z) (now : Q) (submit : call) :
  ~ accepted cfg submit ->
  exists ex T, forall polls,
    grail_query cfg timeout_sec now submit polls = Some (Raise ex, T).
Proof.
  intros Hn. unfold grail_query, accepted in *.
  destruct (String.eqb_spec (DT_URL cfg) ""); simpl; [eauto|].
  destruct (String.eqb_spec (DT_TOKEN cfg) ""); simpl; [eauto|].
  destruct (outcome submit) as [r |]; [|eauto].
  destruct (Z.geb_spec (status_code r) 400); [eauto|].
  destruct (json r) as [body |] eqn:Ej; [|eauto].
  destruct (truthy (j_jobId body)) eqn:Eb; simpl; [|eauto].
  exfalso. apply Hn. repeat split; try assumption.
  exists r, body. repeat split; try assumption; lia.
Qed.

(** X14: A submission that is not accepted ends the execution with an
    exception before any poll: the outcome does not depend on what the
    polls would have answered, and comes no later than the answer to the
    submission. *)
Theorem grail_query_rejected_never_polls (cfg : config) (timeout_sec : Z)
    (now : Q) (submit : call) (polls : list call) :
  ~ accepted cfg submit ->
  exists ex T,
    grail_query cfg timeout_sec now submit polls = Some (Raise ex, T) /\
    grail_query cfg timeout_sec now submit [] = Some (Raise ex, T) /\
    (T = now \/ T = (now + latency submit)%Q).
Proof.
  intros Hn. destruct (rejected_run cfg timeout_sec now submit Hn)
    as (ex & T & Hrun).
  exists ex, T. split; [apply Hrun|]. split; [apply Hrun|].
  specialize (Hrun []). unfold grail_query in Hrun.
  destruct (_ || _); [injection Hrun as _ <-; now left|].
  destruct (outcome submit) as [r |]; [|injection Hrun as _ <-; now right].
  destruct (status_code r >=? 400); [injection Hrun as _ <-; now right|].
  destruct (json r) as [body |]; [|injection Hrun as _ <-; now right].
  destruct (negb (truthy (j_jobId body)));
    [injection Hrun as _ <-; now right | discriminate].
Qed.

Lemma poll_loop_returns_succeeded (timeout_sec : Z) (start backoff now : Q)
    (polls : list call) (j : jobject) (T : Q) :
  poll_loop timeout_sec start backoff now polls = Some (Ret j, T) ->
  exists pre p rest, polls = pre ++ p :: rest /\ answers_succeeded p j /\
                     Forall (fun q => pending q = true) pre.
Proof.
  revert backoff now. induction polls as [| p polls IH]; intros backoff now;
    [discriminate|].
  destruct (pending p) eqn:Ep.
  - rewrite poll_loop_pending by exact Ep.
    destruct (Qltb _ _); [discriminate|].
    intros E. apply IH in E as (pre & q & rest & -> & Hq & Hpre).
    exists (p :: pre), q, rest. split; [reflexivity|]. split; [exact Hq|].
    now constructor.
  - simpl. unfold pending in Ep.
    destruct (outcome p) as [r |] eqn:Eo; [|discriminate].
    destruct (Z.geb_spec (status_code r) 400) as [? | Hlt]; [discriminate|].
    destruct (json r) as [j' |] eqn:Ej; [|discriminate].
    destruct (is_str (j_status j') "SUCCEEDED") eqn:Es.
    + intros [= <- _]. exists [], p, polls. split; [reflexivity|].
      split; [|constructor]. exists r. repeat split; assumption.
    + destruct (is_str (j_status j') "FAILED"); [discriminate|].
      simpl in Ep. discriminate.
Qed.

(** X15: The engine hands out a payload only if the submission was accepted
    and a poll reported [SUCCEEDED] with that payload, every earlier poll
    having reported a job still under way. *)
Theorem grail_query_returns_only_succeeded (cfg : config) (timeout_sec : Z)
    (now : Q) (submit : call) (polls : list call) (j : jobject) (T : Q) :
  grail_query cfg timeout_sec now submit polls = Some (Ret j, T) ->
  accepted cfg submit /\
  j_status j = VStr "SUCCEEDED" /\
  exists pre p rest, polls = pre ++ p :: rest /\ answers_succeeded p j /\
                     Forall (fun q => pending q = true) pre.
Proof.
  intros E. destruct (accepted_dec cfg submit) as [Ha | Hn].
  - split; [exact Ha|]. rewrite (accepted_run _ _ _ _ _ Ha) in E.
    apply poll_loop_returns_succeeded in E as (pre & p & rest & Hp & Hs & Hpre).
    split; [|now exists pre, p, rest].
    destruct Hs as (r & _ & _ & _ & Hst). unfold is_str in Hst.
    destruct (j_status j) as [| | | | s |]; try discriminate.
    now apply String.eqb_eq in Hst as ->.
  - destruct (rejected_run cfg timeout_sec now submit Hn) as (ex & T' & E').
    specialize (E' polls). congruence.
Qed.

(** With the backoff at one second, a run of pending polls longer than
    the time that is left ends in the timeout. *)
Lemma poll_loop_times_out (timeout_sec : Z) (start : Q) (pre : list call) :
  forall (backoff now : Q),
  Forall (fun p => pending p = true /\ takes_time p) pre ->
  (1 <= backoff)%Q ->
  (inject_Z timeout_sec - (now - start)
   < inject_Z (Z.of_nat (length pre)) - 1)%Q ->
  pre <> [] ->
  exists T, (inject_Z timeout_sec < T - start)%Q /\
    forall rest,
      poll_loop timeout_sec start backoff now (pre ++ rest)
      = Some (Raise grail_timeout, T).
Proof.
  induction pre as [| p pre IH]; intros backoff now Hall Hb Hlen Hne;
    [congruence|].
  apply Forall_cons in Hall as [[Hp Hlat] Hall]. unfold takes_time in Hlat.
  destruct (Qltb (inject_Z timeout_sec) (now + latency p - start)) eqn:Et.
  - exists (now + latency p)%Q. split; [now apply Qltb_lt|].
    intros rest. rewrite <- app_comm_cons, poll_loop_pending by exact Hp.
    now rewrite Et.
  - apply Qltb_ge in Et.
    assert (Hlen' : inject_Z (Z.of_nat (length (p :: pre)))
                    == inject_Z (Z.of_nat (length pre)) + 1).
    { simpl length. rewrite Nat2Z.inj_succ, <- Z.add_1_r, inject_Z_plus.
      reflexivity. }
    rewrite Hlen' in Hlen.
    destruct (IH (Qmin (backoff * 2) 1) (now + latency p + backoff)%Q Hall)
      as (T & HT & Hrun).
    + apply Q.min_glb; lra.
    + lra.
    + intros ->. clear Hlen'.
      change (inject_Z (Z.of_nat (length (@nil call)))) with 0%Q in Hlen. lra.
    + exists T. split; [exact HT|]. intros rest.
      rewrite <- app_comm_cons, poll_loop_pending by exact Hp.
      apply Qltb_ge in Et. rewrite Et. apply Hrun.
Qed.

(** X16: A job that never leaves the pending state costs a bounded number of
    polls: once the submission is accepted, [timeout_sec + 3] pending
    polls are enough for the engine to raise its timeout, whatever the
    backend would answer afterwards. *)
Theorem grail_query_pending_times_out (cfg : config) (timeout_sec : Z)
    (now : Q) (submit : call) (pre : list call) :
  accepted cfg submit ->
  0 <= timeout_sec ->
  Forall (fun p => pending p = true /\ takes_time p) pre ->
  timeout_sec + 3 <= Z.of_nat (length pre) ->
  exists T, (inject_Z timeout_sec < T - (now + latency submit))%Q /\
    forall rest,
      grail_query cfg timeout_sec now submit (pre ++ rest)
      = Some (Raise grail_timeout, T).
Proof.
  intros Ha Ht Hall Hlen.
  set (start := (now + latency submit)%Q).
  assert (Hrun : exists T, (inject_Z timeout_sec < T - start)%Q /\
            forall rest, poll_loop timeout_sec start (1 # 4) start (pre ++ rest)
                         = Some (Raise grail_timeout, T)).
  { destruct pre as [| p1 [| p2 pre]]; [simpl in Hlen; lia | simpl in Hlen; lia |].
    apply Forall_cons in Hall as [[Hp1 Hl1] Hall].
    apply Forall_cons in Hall as [[Hp2 Hl2] Hall].
    unfold takes_time in Hl1, Hl2.
    destruct (Qltb (inject_Z timeout_sec) (start + latency p1 - start)) eqn:E1.
    { exists (start + latency p1)%Q. split; [now apply Qltb_lt|].
      intros rest. rewrite <- app_comm_cons, poll_loop_pending by exact Hp1.
      now rewrite E1. }
    destruct (Qltb (inject_Z timeout_sec)
                (start + latency p1 + (1 # 4) + latency p2 - start)) eqn:E2.
    { exists (start + latency p1 + (1 # 4) + latency p2)%Q.
      split; [now apply Qltb_lt|].
      intros rest. rewrite <- !app_comm_cons.
      rewrite poll_loop_pending by exact Hp1. rewrite E1.
      rewrite poll_loop_pending by exact Hp2. now rewrite E2. }
    assert (Hz : (inject_Z (timeout_sec + 3)
                  <= inject_Z (Z.of_nat (length (p1 :: p2 :: pre))))%Q)
      by now rewrite <- Zle_Qle.
    assert (Hl : inject_Z (Z.of_nat (length (p1 :: p2 :: pre)))
                 == inject_Z (Z.of_nat (length pre)) + 2).
    { simpl length. rewrite !Nat2Z.inj_succ, <- !Z.add_1_r, !inject_Z_plus.
      change (inject_Z 1) with 1%Q. lra. }
    rewrite Hl, inject_Z_plus in Hz. change (inject_Z 3) with 3%Q in Hz.
    destruct (poll_loop_times_out timeout_sec start pre
                (Qmin (Qmin ((1 # 4) * 2) 1 * 2) 1)
                (start + latency p1 + (1 # 4) + latency p2
                 + Qmin ((1 # 4) * 2) 1)%Q Hall)
      as (T & HT & Hrun).
    - apply Q.min_glb; [|lra].
      assert (E : Qmin ((1 # 4) * 2) 1 == 1 # 2) by reflexivity.
      rewrite E. lra.
    - assert (E : Qmin ((1 # 4) * 2) 1 == 1 # 2) by reflexivity.
      rewrite E. apply Qltb_ge in E2. lra.
    - intros ->.
      change (inject_Z (Z.of_nat (length (@nil call)))) with 0%Q in Hz.
      assert (Ht' : (0 <= inject_Z timeout_sec)%Q)
        by (change 0%Q with (inject_Z 0); now rewrite <- Zle_Qle).
      lra.
    - exists T. split; [exact HT|]. intros rest. rewrite <- !app_comm_cons.
      rewrite poll_loop_pending by exact Hp1. rewrite E1.
      rewrite poll_loop_pending by exact Hp2. rewrite E2. apply Hrun. }
  destruct Hrun as (T & HT & Hrun). exists T. split; [exact HT|].
  intros rest. rewrite (accepted_run _ _ _ _ _ Ha). apply Hrun.
Qed.

(** ** Handlers: serving from the cache *)



Section HandlerMore.
Context `{JsonLib}.



(** X18: A payload that cannot be shaped is not cached: when the execution
    succeeds but the time field of some record makes the normaliser
    raise, the [/timeseries] handler raises and the cache holds what the
    handler's own [get] left. *)
Theorem timeseries_bad_timestamp_not_cached `{DatetimeLib}
    (py_str : value -> string) (e : env)
    (dql from_ to_ value_ timecol : string) (label : option string) (ttl : Z)
    (c : TTLCache body) (now : Q) (submit : call) (polls : list call)
    (j : jobject) (T : Q) (recs1 recs2 : list record) (r : record)
    (err : exn) :
  (get c (_hash_key ["ts"; dql; from_; to_; value_; timecol; default "" label])
     ttl now).1 = None ->
  grail_query (env_cfg e) (QUERY_TIMEOUT e) now submit polls
  = Some (Ret j, T) ->
  j_records j = recs1 ++ r :: recs2 ->
  _to_epoch_ms (py_get r timecol) = Raise err ->
  exists ex,
    timeseries py_str e (Ret tt) dql from_ to_ value_ timecol label ttl
      c now submit polls
    = Some (Raise ex,
            (get c (_hash_key ["ts"; dql; from_; to_; value_; timecol;
                               default "" label]) ttl now).2, T).
Proof.
  intros Hmiss Hrun Hj Hr.
  destruct (timeseries_raises py_str j timecol value_ label recs1 recs2 r err
              Hj Hr) as (ex & Hex).
  exists ex. unfold timeseries, serve.
  destruct (get c _ ttl now) as [hit c0]. simpl in *.
  now rewrite Hmiss, Hrun, Hex.
Qed.

End HandlerMore.

(** ** Cache key deriver: the shape of a key *)

Lemma hex_digit_is_hex (x : Z) : is_hex (SHA1.hex_digit (Z.land x 15)).
Proof.
  assert (H : 0 <= Z.land x 15 < 16).
  { change 15 with (Z.ones 4). rewrite Z.land_ones by lia.
    apply Z.mod_pos_bound. reflexivity. }
  unfold is_hex.
  assert (C : Z.land x 15 = 0 \/ Z.land x 15 = 1 \/ Z.land x 15 = 2 \/
              Z.land x 15 = 3 \/ Z.land x 15 = 4 \/ Z.land x 15 = 5 \/
              Z.land x 15 = 6 \/ Z.land x 15 = 7 \/ Z.land x 15 = 8 \/
              Z.land x 15 = 9 \/ Z.land x 15 = 10 \/ Z.land x 15 = 11 \/
              Z.land x 15 = 12 \/ Z.land x 15 = 13 \/ Z.land x 15 = 14 \/
              Z.land x 15 = 15) by lia.
  repeat (destruct C as [-> | C]; [simpl; tauto|]). rewrite C. simpl. tauto.
Qed.

Lemma hex_word_shape (w : Z) :
  String.length (SHA1.hex_word w) = 8%nat /\
  Forall is_hex (list_ascii_of_string (SHA1.hex_word w)).
Proof.
  unfold SHA1.hex_word. split; [reflexivity|].
  rewrite list_ascii_of_string_of_list_ascii.
  repeat (apply Forall_cons; split; [apply hex_digit_is_hex|]).
  apply Forall_nil_2.
Qed.

Lemma string_length_app (a b : string) :
  String.length (a +:+ b) = (String.length a + String.length b)%nat.
Proof. induction a as [| c a IH]; simpl; [|rewrite IH]; reflexivity. Qed.

Lemma list_ascii_of_string_app (a b : string) :
  list_ascii_of_string (a +:+ b)
  = list_ascii_of_string a ++ list_ascii_of_string b.
Proof. induction a as [| c a IH]; simpl; [|rewrite IH]; reflexivity. Qed.

(** X19: Every key is made of forty lowercase hexadecimal digits, whatever the
    parts. *)
Theorem hash_key_shape (parts : list string) :
  String.length (_hash_key parts) = 40%nat /\
  Forall is_hex (list_ascii_of_string (_hash_key parts)).
Proof.
  unfold _hash_key, SHA1.hexdigest.
  destruct (SHA1.digest _) as [[[[h0 h1] h2] h3] h4].
  destruct (hex_word_shape h0) as [L0 F0], (hex_word_shape h1) as [L1 F1],
    (hex_word_shape h2) as [L2 F2], (hex_word_shape h3) as [L3 F3],
    (hex_word_shape h4) as [L4 F4].
  split.
  - rewrite !string_length_app, L0, L1, L2, L3, L4. reflexivity.
  - rewrite !list_ascii_of_string_app. repeat (apply Forall_app; split);
      assumption.
Qed.

(** ** Timestamp normaliser: the letter Z, and the two normalisers *)

Lemma string_app_assoc (a b c : string) :
  (a +:+ b) +:+ c = a +:+ (b +:+ c).
Proof.
  induction a as [| x a IH]; [reflexivity|].
  change (String x ((a +:+ b) +:+ c) = String x (a +:+ (b +:+ c))).
  now f_equal.
Qed.

Lemma str_replace_app (c : ascii) (by_ a b : string) :
  str_replace c by_ (a +:+ b) = str_replace c by_ a +:+ str_replace c by_ b.
Proof.
  induction a as [| x a IH]; simpl; [reflexivity|].
  destruct (Ascii.eqb x c); rewrite IH; [|reflexivity].
  symmetry. apply string_app_assoc.
Qed.

Section ReadingFacts.
Context `{DatetimeLib}.

(** X20: A letter [Z] anywhere in a timestamp reads as the offset [+00:00]:
    the two spellings are normalised alike, to the same value or to the
    same exception. *)
Theorem to_epoch_ms_Z_is_utc (a b : string) :
  _to_epoch_ms (VStr (a +:+ "Z" +:+ b))
  = _to_epoch_ms (VStr (a +:+ "+00:00" +:+ b)).
Proof.
  unfold _to_epoch_ms. now rewrite !str_replace_app.
Qed.

(** X21: The normaliser of [app.py] and the inline normalisation of
    [apigrail.py] agree on [None], on booleans and integers, on floats
    below [10**12] and on every string that the fallback parse does not
    rescue: the same timestamp, or an exception on both sides. *)
Theorem normalisers_agree (v : value) :
  same_reading v ->
  Apigrail.normalise v = let! o := _to_epoch_ms v in Ret (as_value o).
Proof.
  destruct v as [| b | n | f | s | o]; simpl; try reflexivity; try contradiction.
  - destruct (Z.b2z b <? ten12) eqn:E; [reflexivity|].
    destruct b; discriminate.
  - destruct (n <? ten12); reflexivity.
  - intros ->. destruct (int_of_float _); reflexivity.
  - unfold iso_of. intros Hs.
    destruct (fromisoformat (str_replace "Z" "+00:00" s)) as [dt |].
    + destruct (datetime_ms dt); reflexivity.
    + now rewrite Hs.
Qed.

End ReadingFacts.

(** ** Authorization *)

Example strip_examples :
  str_strip "  dt0c01.secret " = "dt0c01.secret" /\
  str_strip (String (ascii_of_N 9) "a b" +:+ String (ascii_of_N 10) "") = "a b" /\
  str_strip (String (ascii_of_N 194) (String (ascii_of_N 160) "x")) = "x" /\
  str_strip (String (ascii_of_N 195) (String (ascii_of_N 160) "x"))
  = String (ascii_of_N 195) (String (ascii_of_N 160) "x") /\
  str_strip "   " = "".
Proof. repeat split; vm_compute; reflexivity. Qed.

Example require_auth_examples :
  _require_auth "" None = Ret tt /\
  _require_auth "s3cret" None
  = Raise (HTTPException 401 (DText "Missing or invalid Authorization header")) /\
  _require_auth "s3cret" (Some "bearer s3cret")
  = Raise (HTTPException 401 (DText "Missing or invalid Authorization header")) /\
  _require_auth "s3cret" (Some "Bearer other")
  = Raise (HTTPException 403 (DText "Forbidden")) /\
  _require_auth "s3cret" (Some "Bearer   s3cret ") = Ret tt.
Proof. repeat split; vm_compute; reflexivity. Qed.

Lemma drop_while_suffix {A : Type} (p : A -> bool) (l : list A) :
  exists pre, l = pre ++ drop_while p l.
Proof.
  induction l as [| x l [pre IH]]; simpl.
  - now exists [].
  - destruct (p x); [|now exists []].
    exists (x :: pre). simpl. now rewrite <- IH.
Qed.

Lemma drop_while_head {A : Type} (p : A -> bool) (l : list A) (x : A)
    (r : list A) :
  drop_while p l = x :: r -> p x = false.
Proof.
  induction l as [| y l IH]; simpl; [discriminate|].
  destruct (p y) eqn:E; [exact IH|]. now intros [= <- _].
Qed.

Lemma drop_while_fixed {A : Type} (p : A -> bool) (l : list A) :
  (forall x r, l = x :: r -> p x = false) -> drop_while p l = l.
Proof.
  destruct l as [| y l]; simpl; [reflexivity|].
  intros Hl. now rewrite (Hl y l eq_refl).
Qed.

Lemma drop_while_idem {A : Type} (p : A -> bool) (l : list A) :
  drop_while p (drop_while p l) = drop_while p l.
Proof.
  apply drop_while_fixed. intros x r E. eapply drop_while_head, E.
Qed.

(** Stripping what has been stripped changes nothing. *)
Lemma strip_chars_idem (cs : list (list ascii)) :
  strip_chars (strip_chars cs) = strip_chars cs.
Proof.
  unfold strip_chars.
  set (y := drop_while is_space cs).
  set (z := rev (drop_while is_space (rev y))).
  assert (Hz : drop_while is_space z = z).
  { apply drop_while_fixed. intros x r Ez.
    destruct (drop_while_suffix is_space (rev y)) as [pre Hpre].
    assert (Hy : y = z ++ rev pre).
    { unfold z. rewrite <- rev_app_distr, <- Hpre. now rewrite rev_involutive. }
    rewrite Ez in Hy. simpl in Hy.
    eapply (drop_while_head is_space cs). exact Hy. }
  rewrite Hz. unfold z. rewrite rev_involutive, drop_while_idem. reflexivity.
Qed.

Lemma chars_char (b : ascii) (t rest : list ascii) :
  forallb is_cont t = true ->
  (forall x r, rest = x :: r -> is_cont x = false) ->
  chars (b :: t ++ rest) = (b :: t) :: chars rest.
Proof.
  revert b. induction t as [| y t IH]; intros b Ht Hrest.
  - simpl. destruct rest as [| x r]; [reflexivity|].
    cbn [head]. rewrite (Hrest x r eq_refl).
    destruct (chars (x :: r)); reflexivity.
  - simpl in Ht. apply andb_true_iff in Ht as [Hy Ht].
    change (chars (b :: (y :: t) ++ rest))
      with (let cs := chars (y :: t ++ rest) in
            match head (y :: t ++ rest), cs with
            | Some b2, c :: cs' =>
                if is_cont b2 then (b :: c) :: cs' else [b] :: cs
            | _, _ => [b] :: cs
            end).
    cbv zeta. rewrite (IH y Ht Hrest). cbn [head]. now rewrite Hy.
Qed.

Lemma well_cut_head (c : list ascii) (cs : list (list ascii)) :
  well_cut (c :: cs) -> is_char c.
Proof. inversion 1; assumption. Qed.

Lemma chars_well_cut (l : list ascii) : well_cut (chars l).
Proof.
  induction l as [| b rest IH]; [constructor|].
  change (chars (b :: rest))
    with (let cs := chars rest in
          match head rest, cs with
          | Some b2, c :: cs' =>
              if is_cont b2 then (b :: c) :: cs' else [b] :: cs
          | _, _ => [b] :: cs
          end).
  cbv zeta.
  assert (One : is_char [b]) by (exists b, []; now split).
  destruct rest as [| b2 r]; [now constructor|]. cbn [head].
  assert (Hh : exists t cs', chars (b2 :: r) = (b2 :: t) :: cs').
  { clear. change (chars (b2 :: r))
      with (let cs := chars r in
            match head r, cs with
            | Some b3, c :: cs' =>
                if is_cont b3 then (b2 :: c) :: cs' else [b2] :: cs
            | _, _ => [b2] :: cs
            end).
    cbv zeta. destruct (head r) as [b3 |]; [|now eexists _, _].
    destruct (chars r) as [| c cs']; [now eexists _, _|].
    destruct (is_cont b3); now eexists _, _. }
  destruct Hh as (t & cs' & Ec). rewrite Ec in IH |- *.
  destruct (is_cont b2) eqn:Eb.
  - assert (Hc : is_char (b :: b2 :: t)).
    { exists b, (b2 :: t). split; [reflexivity|]. simpl. rewrite Eb. simpl.
      destruct (well_cut_head _ _ IH) as (b' & t' & [= <- <-] & Ht).
      exact Ht. }
    inversion IH; subst; [now constructor | now constructor].
  - now constructor.
Qed.

Lemma chars_concat (cs : list (list ascii)) :
  well_cut cs -> chars (concat cs) = cs.
Proof.
  induction 1 as [| c (b & t & -> & Ht) | c b' t' cs (b & t & -> & Ht) Hb' Hcs IH].
  - reflexivity.
  - change (concat [b :: t]) with (b :: t ++ []).
    rewrite chars_char; [reflexivity | exact Ht | discriminate].
  - change (concat ((b :: t) :: (b' :: t') :: cs))
      with (b :: t ++ concat ((b' :: t') :: cs)).
    rewrite chars_char; [now rewrite IH | exact Ht |].
    simpl. intros x r [= <- _]. exact Hb'.
Qed.

Lemma well_cut_tail (c : list ascii) (cs : list (list ascii)) :
  well_cut (c :: cs) -> well_cut cs.
Proof. inversion 1; [constructor | assumption]. Qed.

Lemma well_cut_drop_while (p : list ascii -> bool) (cs : list (list ascii)) :
  well_cut cs -> well_cut (drop_while p cs).
Proof.
  induction cs as [| c cs IH]; simpl; [trivial|].
  intros W. destruct (p c); [|exact W]. eapply IH, well_cut_tail, W.
Qed.

Lemma well_cut_app_l (a b : list (list ascii)) :
  well_cut (a ++ b) -> well_cut a.
Proof.
  induction a as [| c a IH]; [constructor|].
  intros W. simpl in W.
  destruct a as [| d a].
  - inversion W; subst; now constructor.
  - inversion W; subst. constructor; [assumption | assumption |].
    now apply IH.
Qed.

Lemma strip_chars_well_cut (cs : list (list ascii)) :
  well_cut cs -> well_cut (strip_chars cs).
Proof.
  intros W. unfold strip_chars.
  set (y := drop_while is_space cs).
  assert (Wy : well_cut y) by now apply well_cut_drop_while.
  destruct (drop_while_suffix is_space (rev y)) as [pre Hpre].
  apply (well_cut_app_l _ (rev pre)).
  rewrite <- rev_app_distr, <- Hpre. now rewrite rev_involutive.
Qed.

(** [strip] is idempotent. *)
Lemma str_strip_idem (s : string) : str_strip (str_strip s) = str_strip s.
Proof.
  unfold str_strip. rewrite list_ascii_of_string_of_list_ascii.
  rewrite chars_concat by apply strip_chars_well_cut, chars_well_cut.
  now rewrite strip_chars_idem.
Qed.

Lemma prefix_app (p h : string) :
  String.prefix p h = true -> exists rest, h = p +:+ rest.
Proof.
  revert p. induction h as [| b h IH]; intros [| a p]; simpl;
    try discriminate.
  - intros _. now exists "".
  - intros _. now exists (String b h).
  - destruct (ascii_dec a b) as [-> | _]; [|discriminate].
    intros Hp. destruct (IH p Hp) as [rest ->]. now exists rest.
Qed.

(** How a request is judged when [ORG_BEARER] is set: a missing header or
    one that does not start with [Bearer ] is answered 401; a header
    [Bearer ] followed by [rest] is let through if [rest], stripped of
    the whitespace around it, is the bearer, and answered 403 otherwise.
    Without [ORG_BEARER] every request is let through. *)
Theorem require_auth_cases (ORG_BEARER : string) (auth_header : option string) :
  (ORG_BEARER = "" -> _require_auth ORG_BEARER auth_header = Ret tt) /\
  (ORG_BEARER <> "" ->
   match auth_header with
   | None =>
       _require_auth ORG_BEARER auth_header
       = Raise (HTTPException 401
                  (DText "Missing or invalid Authorization header"))
   | Some h =>
       (String.prefix "Bearer " h = false ->
        _require_auth ORG_BEARER auth_header
        = Raise (HTTPException 401
                   (DText "Missing or invalid Authorization header"))) /\
       (forall rest, h = "Bearer " +:+ rest ->
          _require_auth ORG_BEARER auth_header
          = if String.eqb (str_strip rest) ORG_BEARER then Ret tt
            else Raise (HTTPException 403 (DText "Forbidden")))
   end).
Proof.
  unfold _require_auth. split.
  - intros ->. reflexivity.
  - intros N. destruct (String.eqb_spec ORG_BEARER ""); [contradiction|].
    simpl. destruct auth_header as [h |]; [|reflexivity]. split.
    + intros ->. now rewrite orb_true_r.
    + intros rest ->.
      change (after_first " " ("Bearer " +:+ rest)) with rest.
      change (String.prefix "Bearer " ("Bearer " +:+ rest))
        with (String.prefix "" rest).
      change ("Bearer " +:+ rest =? "")%string with false.
      assert (Hp : String.prefix "" rest = true) by (destruct rest; reflexivity).
      rewrite Hp. cbn [orb negb].
      destruct (String.eqb (str_strip rest) ORG_BEARER); reflexivity.
Qed.

(** X22: A bearer with whitespace at either end locks everybody out: the
    token of a request is stripped before the comparison, so no header
    can match such a bearer. *)
Theorem require_auth_padded_bearer_refuses_all (ORG_BEARER : string)
    (auth_header : option string) :
  ORG_BEARER <> "" ->
  str_strip ORG_BEARER <> ORG_BEARER ->
  exists status d,
    _require_auth ORG_BEARER auth_header = Raise (HTTPException status d) /\
    (status = 401 \/ status = 403).
Proof.
  intros N Hpad. unfold _require_auth.
  destruct (String.eqb_spec ORG_BEARER ""); [contradiction|]. simpl.
  destruct auth_header as [h |]; [|eexists _, _; split; [reflexivity | now left]].
  destruct (_ || _); [eexists _, _; split; [reflexivity | now left]|].
  destruct (String.eqb_spec (str_strip (after_first " " h)) ORG_BEARER)
    as [E | _]; simpl; [|eexists _, _; split; [reflexivity | now right]].
  exfalso. apply Hpad. rewrite <- E. apply str_strip_idem.
Qed.

(** ** Worked instances *)

Lemma small_cache_within : within_capacity small_cache.
Proof. unfold within_capacity. simpl. lia. Qed.

Lemma small_cache_written_by_20 : written_by small_cache 20.
Proof.
  intros k e. unfold small_cache. cbn [store dict_get].
  destruct (String.eqb "a" k);
    [intros [= E]; rewrite <- E; now apply Qle_bool_iff|].
  destruct (String.eqb "b" k);
    [intros [= E]; rewrite <- E; now apply Qle_bool_iff|].
  discriminate.
Qed.

Lemma cache_stays_within_capacity_witness :
  dict_wf (store small_cache) /\
  0 <= max_items small_cache /\
  within_capacity small_cache /\
  within_capacity (set small_cache "c" "C" 20).2 /\
  within_capacity (get small_cache "b" 30 40).2.
Proof.
  split; [exact small_cache_wf|]. split; [simpl; lia|].
  split; [exact small_cache_within|].
  apply (cache_stays_within_capacity small_cache "c" "C" 20 "b" 30 40
           small_cache_wf); [simpl; lia | exact small_cache_within].
Defined.

Lemma set_overwrites_witness :
  within_capacity small_cache /\
  dict_get "a" (store small_cache) = Some {| e_value := "A"; e_ts := 10 |} /\
  (set small_cache "a" "A2" 20).1 = Ret tt /\
  fst <$> store (set small_cache "a" "A2" 20).2 = fst <$> store small_cache /\
  dict_get "a" (store (set small_cache "a" "A2" 20).2)
  = Some {| e_value := "A2"; e_ts := 20 |} /\
  (forall k, k <> "a" ->
     dict_get k (store (set small_cache "a" "A2" 20).2)
     = dict_get k (store small_cache)).
Proof.
  split; [exact small_cache_within|]. split; [reflexivity|].
  apply (set_overwrites small_cache "a" "A2" 20
           {| e_value := "A"; e_ts := 10 |} small_cache_within).
  reflexivity.
Defined.

Lemma set_then_get_witness :
  dict_wf (store small_cache) /\
  1 <= max_items small_cache /\
  within_capacity small_cache /\
  written_by small_cache 20 /\
  (45 - 20 <= inject_Z 30)%Q /\
  (get (set small_cache "c" "C" 20).2 "c" 30 45).1 = Some "C".
Proof.
  assert (A : (45 - 20 <= inject_Z 30)%Q) by now apply Qle_bool_iff.
  split; [exact small_cache_wf|]. split; [simpl; lia|].
  split; [exact small_cache_within|].
  split; [exact small_cache_written_by_20|]. split; [exact A|].
  apply (set_then_get small_cache "c" "C" 30 20 45 small_cache_wf);
    [simpl; lia | exact small_cache_within | exact small_cache_written_by_20
     | exact A].
Defined.

Lemma get_ttl_monotone_witness :
  (get small_cache "b" 40 40).1 = Some "B" /\
  40 <= 60 /\
  get small_cache "b" 60 40 = (Some "B", small_cache).
Proof.
  split; [reflexivity|]. split; [lia|].
  apply (get_ttl_monotone small_cache "b" 40 60 40 "B"); [reflexivity | lia].
Defined.

Lemma get_miss_is_final_witness :
  dict_wf (store small_cache) /\
  (get small_cache "b" 30 40).1 = None /\
  get (get small_cache "b" 30 40).2 "b" 600 41
  = (None, (get small_cache "b" 30 40).2).
Proof.
  split; [exact small_cache_wf|]. split; [reflexivity|].
  apply (get_miss_is_final small_cache "b" 30 600 40 41 small_cache_wf).
  reflexivity.
Defined.

Lemma grouped_frames_eq :
  @to_grafana_timeseries Iso.lib Iso.py_str grouped_records "ts" "v"
    (Some "host")
  = Ret [frame_b; frame_a].
Proof. vm_compute. reflexivity. Qed.

Lemma timeseries_frames_by_group_witness :
  @to_grafana_timeseries Iso.lib Iso.py_str grouped_records "ts" "v"
    (Some "host")
  = Ret [frame_b; frame_a] /\
  NoDup (f_name <$> [frame_b; frame_a]) /\
  (forall f, f ∈ [frame_b; frame_a] ->
     Permutation (frame_points f)
       (@group_points Iso.lib Iso.py_str "ts" "v" (Some "host") (f_name f)
          (j_records grouped_records))) /\
  (forall k,
     @group_points Iso.lib Iso.py_str "ts" "v" (Some "host") k
       (j_records grouped_records) <> [] ->
     exists f, f ∈ [frame_b; frame_a] /\ f_name f = k).
Proof.
  split; [exact grouped_frames_eq|].
  exact (@timeseries_frames_by_group Iso.lib Iso.py_str grouped_records
           "ts" "v" (Some "host") [frame_b; frame_a] grouped_frames_eq).
Defined.

Lemma timeseries_frames_aligned_witness :
  @to_grafana_timeseries Iso.lib Iso.py_str grouped_records "ts" "v"
    (Some "host")
  = Ret [frame_b; frame_a] /\
  Forall (fun f => length (f_times f) = length (f_values f) /\
                   f_times f <> []) [frame_b; frame_a].
Proof.
  split; [exact grouped_frames_eq|].
  exact (@timeseries_frames_aligned Iso.lib Iso.py_str grouped_records
           "ts" "v" (Some "host") [frame_b; frame_a] grouped_frames_eq).
Defined.

Lemma timeseries_ties_in_record_order_witness :
  @to_grafana_timeseries Iso.lib Iso.py_str grouped_records "ts" "v"
    (Some "host")
  = Ret [frame_b; frame_a] /\
  frame_b ∈ [frame_b; frame_a] /\
  points_at 10000 (frame_points frame_b) =
  points_at 10000
    (@group_points Iso.lib Iso.py_str "ts" "v" (Some "host") (f_name frame_b)
       (j_records grouped_records)).
Proof.
  assert (Hin : frame_b ∈ [frame_b; frame_a]) by left.
  split; [exact grouped_frames_eq|]. split; [exact Hin|].
  exact (@timeseries_ties_in_record_order Iso.lib Iso.py_str grouped_records
           "ts" "v" (Some "host") [frame_b; frame_a] frame_b 10000
           grouped_frames_eq Hin).
Defined.

(** The two points of host [b] at the timestamp 10000 come out in the
    order of their records, values 3 and 4. *)
Example ties_of_host_b :
  points_at 10000 (frame_points frame_b) = [(10000, VInt 3); (10000, VInt 4)].
Proof. reflexivity. Qed.

Lemma two_points_eq :
  @to_grafana_timeseries Iso.lib Iso.py_str two_records "ts" "v" (Some "")
  = Ret two_points.
Proof. vm_compute. reflexivity. Qed.

Lemma timeseries_single_series_witness :
  label_given (Some "") = None /\
  @to_grafana_timeseries Iso.lib Iso.py_str two_records "ts" "v" (Some "")
  = Ret two_points /\
  (two_points = [] \/ exists f, two_points = [f] /\ f_name f = "series").
Proof.
  split; [reflexivity|]. split; [exact two_points_eq|].
  exact (@timeseries_single_series Iso.lib Iso.py_str two_records "ts" "v"
           (Some "") two_points eq_refl two_points_eq).
Defined.

Example timeseries_raises_on_bad_time :
  @to_grafana_timeseries Iso.lib Iso.py_str bad_time_body "ts" "v" None
  = Raise ValueError.
Proof. vm_compute. reflexivity. Qed.

Lemma configured_accepts : accepted configured slow_submit.
Proof.
  split; [discriminate|]. split; [discriminate|].
  eexists _, _. split; [reflexivity|]. split; [simpl; lia|].
  split; reflexivity.
Qed.

Lemma succeeded_poll_answers : answers_succeeded succeeded_poll succeeded_body.
Proof.
  eexists. split; [reflexivity|]. split; [simpl; lia|]. split; reflexivity.
Qed.

Lemma rejected_not_accepted : ~ accepted configured rejected_submit.
Proof. intros (_ & _ & r & b & [= <-] & Hs & _). simpl in Hs. lia. Qed.

Lemma grail_query_first_poll_success_witness :
  accepted configured slow_submit /\
  answers_succeeded succeeded_poll succeeded_body /\
  grail_query configured 0 0 slow_submit [succeeded_poll; running_poll]
  = Some (Ret succeeded_body,
          (0 + latency slow_submit + latency succeeded_poll)%Q).
Proof.
  split; [exact configured_accepts|]. split; [exact succeeded_poll_answers|].
  exact (grail_query_first_poll_success configured 0 0 slow_submit
           succeeded_poll [running_poll] succeeded_body
           configured_accepts succeeded_poll_answers).
Defined.

Lemma grail_query_rejected_never_polls_witness :
  ~ accepted configured rejected_submit /\
  exists ex T,
    grail_query configured 30 0 rejected_submit [succeeded_poll]
    = Some (Raise ex, T) /\
    grail_query configured 30 0 rejected_submit [] = Some (Raise ex, T) /\
    (T = 0%Q \/ T = (0 + latency rejected_submit)%Q).
Proof.
  split; [exact rejected_not_accepted|].
  exact (grail_query_rejected_never_polls configured 30 0 rejected_submit
           [succeeded_poll] rejected_not_accepted).
Defined.

Lemma slow_success_run :
  grail_query configured 30 0 slow_submit [running_poll; succeeded_poll]
  = Some (Ret succeeded_body, (0 + 20 + 15 + (1 # 4) + 1)%Q).
Proof. vm_compute. reflexivity. Qed.

Lemma grail_query_returns_only_succeeded_witness :
  grail_query configured 30 0 slow_submit [running_poll; succeeded_poll]
  = Some (Ret succeeded_body, (0 + 20 + 15 + (1 # 4) + 1)%Q) /\
  accepted configured slow_submit /\
  j_status succeeded_body = VStr "SUCCEEDED" /\
  exists pre p rest,
    [running_poll; succeeded_poll] = pre ++ p :: rest /\
    answers_succeeded p succeeded_body /\
    Forall (fun q => pending q = true) pre.
Proof.
  split; [exact slow_success_run|].
  exact (grail_query_returns_only_succeeded configured 30 0 slow_submit
           [running_poll; succeeded_poll] succeeded_body _ slow_success_run).
Defined.

Lemma running_polls_pending :
  Forall (fun p => pending p = true /\ takes_time p)
    [running_poll; running_poll; running_poll; running_poll].
Proof.
  repeat constructor; try reflexivity; now apply Qle_bool_iff.
Qed.

Lemma grail_query_pending_times_out_witness :
  accepted configured slow_submit /\
  0 <= 1 /\
  Forall (fun p => pending p = true /\ takes_time p)
    [running_poll; running_poll; running_poll; running_poll] /\
  1 + 3 <= Z.of_nat (length [running_poll; running_poll; running_poll;
                             running_poll]) /\
  exists T, (inject_Z 1 < T - (0 + latency slow_submit))%Q /\
    forall rest,
      grail_query configured 1 0 slow_submit
        ([running_poll; running_poll; running_poll; running_poll] ++ rest)
      = Some (Raise grail_timeout, T).
Proof.
  split; [exact configured_accepts|]. split; [lia|].
  split; [exact running_polls_pending|]. split; [simpl; lia|].
  apply (grail_query_pending_times_out configured 1 0 slow_submit
           [running_poll; running_poll; running_poll; running_poll]
           configured_accepts); [lia | exact running_polls_pending
                                 | simpl; lia].
Defined.




(** A table with a cell that is NaN: the answer of the first request is
    the [ValueError] of [JSONResponse], the table is in the cache all the
    same, and the repeat, which reaches no backend, fails alike. *)
Example table_nan_answer_cached :
  table env0 (Ret tt) "fetch logs" "now()-1h" "now()" 30 empty_cache 0
    slow_submit [nan_poll]
  = Some (Raise ValueError, nan_cache, (0 + 20 + 1)%Q) /\
  table env0 (Ret tt) "fetch logs" "now()-1h" "now()" 30 nan_cache 25
    {| latency := 1; outcome := NoReply |} []
  = Some (Raise ValueError, nan_cache, 25%Q).
Proof. split; vm_compute; reflexivity. Qed.

Lemma bad_time_run :
  grail_query (env_cfg env0) (QUERY_TIMEOUT env0) 0 slow_submit
    [bad_time_poll]
  = Some (Ret bad_time_body, (0 + 20 + 1)%Q).
Proof. vm_compute. reflexivity. Qed.

Lemma timeseries_bad_timestamp_not_cached_witness :
  (get empty_cache
     (_hash_key ["ts"; "fetch logs"; "now()-1h"; "now()"; "v"; "ts";
                 default "" None]) 30 0).1 = None /\
  grail_query (env_cfg env0) (QUERY_TIMEOUT env0) 0 slow_submit
    [bad_time_poll]
  = Some (Ret bad_time_body, (0 + 20 + 1)%Q) /\
  j_records bad_time_body
  = [ {[ "ts" := VInt 1704067260; "v" := VInt 2 ]} ]
    ++ {[ "ts" := VStr "not-a-date"; "v" := VInt 1 ]} :: [] /\
  @_to_epoch_ms Iso.lib
    (py_get {[ "ts" := VStr "not-a-date"; "v" := VInt 1 ]} "ts")
  = Raise ValueError /\
  exists ex,
    @timeseries Iso.lib Json.lib Iso.py_str env0 (Ret tt) "fetch logs" "now()-1h"
      "now()" "v" "ts" None 30 empty_cache 0 slow_submit [bad_time_poll]
    = Some (Raise ex,
            (get empty_cache
               (_hash_key ["ts"; "fetch logs"; "now()-1h"; "now()"; "v";
                           "ts"; default "" None]) 30 0).2,
            (0 + 20 + 1)%Q).
Proof.
  assert (R : @_to_epoch_ms Iso.lib
                (py_get {[ "ts" := VStr "not-a-date"; "v" := VInt 1 ]} "ts")
              = Raise ValueError) by (vm_compute; reflexivity).
  split; [reflexivity|]. split; [exact bad_time_run|].
  split; [reflexivity|]. split; [exact R|].
  exact (@timeseries_bad_timestamp_not_cached Json.lib Iso.lib Iso.py_str env0
           "fetch logs" "now()-1h" "now()" "v" "ts" None 30 empty_cache 0
           slow_submit [bad_time_poll] bad_time_body (0 + 20 + 1)%Q
           [ {[ "ts" := VInt 1704067260; "v" := VInt 2 ]} ] []
           {[ "ts" := VStr "not-a-date"; "v" := VInt 1 ]} ValueError
           eq_refl bad_time_run eq_refl R).
Defined.

Lemma normalisers_agree_witness :
  @same_reading Iso.lib (VStr "2024-01-01T00:00:00Z") /\
  @Apigrail.normalise Iso.lib (VStr "2024-01-01T00:00:00Z")
  = let! o := @_to_epoch_ms Iso.lib (VStr "2024-01-01T00:00:00Z") in
    Ret (as_value o).
Proof.
  assert (S : @same_reading Iso.lib (VStr "2024-01-01T00:00:00Z")).
  { simpl. intros E. vm_compute in E. discriminate E. }
  split; [exact S|].
  exact (@normalisers_agree Iso.lib (VStr "2024-01-01T00:00:00Z") S).
Defined.

(** Where the two normalisers part: a float of epoch milliseconds is
    truncated by one and kept by the other, and a fraction of seven digits
    is rescued by the fallback of one and refused by the other. *)
Example normalisers_differ :
  @_to_epoch_ms Iso.lib (VFloat 1704067260500.5) = Ret (Some 1704067260500) /\
  @Apigrail.normalise Iso.lib (VFloat 1704067260500.5)
  = Ret (VFloat 1704067260500.5) /\
  @_to_epoch_ms Iso.lib (VStr "2024-01-01T00:00:00.1234567")
  = Ret (Some 1704067200000) /\
  @Apigrail.normalise Iso.lib (VStr "2024-01-01T00:00:00.1234567")
  = Raise ValueError.
Proof. repeat split; vm_compute; reflexivity. Qed.

Lemma require_auth_padded_bearer_refuses_all_witness :
  "s3cret " <> "" /\
  str_strip "s3cret " <> "s3cret " /\
  exists status d,
    _require_auth "s3cret " (Some "Bearer s3cret ")
    = Raise (HTTPException status d) /\
    (status = 401 \/ status = 403).
Proof.
  assert (P : str_strip "s3cret " <> "s3cret ")
    by (vm_compute; discriminate).
  split; [discriminate|]. split; [exact P|].
  apply (require_auth_padded_bearer_refuses_all "s3cret "
           (Some "Bearer s3cret ")); [discriminate | exact P].
Defined.

(** * The usage script *)

(** The script on the two example dashboards: the lines are in the order
    in which the names are first counted, the panel outside of the row
    first. *)
Example stats_example :
  Stats.main (Some Stats.two_hits) Stats.two_dashboards =
  Some (2%nat, [("loki", 1%nat, 1%nat); ("tempo", 1%nat, 1%nat);
                ("prom-1", 1%nat, 2%nat); ("<default>", 1%nat, 1%nat)]).
Proof. vm_compute. reflexivity. Qed.

(** ** The name of a target *)

Lemma str_or_nonempty a b : b <> "" -> Stats.str_or a b <> "".
Proof.
  intros Hb. unfold Stats.str_or. destruct a as [s|]; [|exact Hb].
  now destruct (String.eqb_spec s "").
Qed.

Lemma resolve_nonempty target panel_ds :
  Stats.resolve target panel_ds <> "".
Proof.
  assert (Hname : forall d, Stats.ds_truthy d = true ->
    match d with
    | Stats.DsRef name uid _ =>
        Stats.str_or name (Stats.str_or uid "<dict>")
    | Stats.DsName s => s
    | Stats.DsNone => "<default>"
    end <> "").
  { intros [| s | n u m]; simpl; [discriminate | |].
    - destruct (String.eqb_spec s ""); [discriminate | auto].
    - intros _. apply str_or_nonempty, str_or_nonempty. discriminate. }
  unfold Stats.resolve, Stats.py_or.
  destruct (Stats.ds_truthy target) eqn:Et; cbv iota.
  { rewrite Et. now apply Hname. }
  destruct (Stats.ds_truthy panel_ds) eqn:Ep; cbv iota.
  { now apply Hname. }
  simpl. discriminate.
Qed.

(** ** The traversal *)

Lemma stack_size_app a b :
  Stats.stack_size (a ++ b) = (Stats.stack_size a + Stats.stack_size b)%nat.
Proof. unfold Stats.stack_size. now rewrite map_app, list_sum_app. Qed.

Lemma stack_size_rev a : Stats.stack_size (rev a) = Stats.stack_size a.
Proof.
  induction a as [| x a IH]; [reflexivity|].
  simpl. rewrite stack_size_app, IH. unfold Stats.stack_size. simpl. lia.
Qed.

Lemma visit_uses uid p t :
  Stats.visit uid p t =
  fold_left (fun t e => Stats.tally e.1 t e.2)
    (map (pair uid) (Stats.uses p)) t.
Proof.
  unfold Stats.visit, Stats.uses. generalize (Stats.p_targets p).
  intros l. revert t. induction l as [| x l IH]; intros t; simpl; auto.
Qed.

Lemma forest_uses_app a b :
  Stats.forest_uses (a ++ b) = Stats.forest_uses a ++ Stats.forest_uses b.
Proof. unfold Stats.forest_uses. now rewrite !flat_map_app. Qed.

Lemma forest_uses_rev a :
  Permutation (Stats.forest_uses (rev a)) (Stats.forest_uses a).
Proof.
  unfold Stats.forest_uses.
  apply Permutation_flat_map, Permutation_flat_map.
  symmetry. apply Permutation_rev.
Qed.

Lemma forest_uses_cons p rest :
  Stats.forest_uses (p :: rest) =
  Stats.uses p ++
  Stats.forest_uses (default [] (Stats.p_panels p)) ++
  Stats.forest_uses rest.
Proof.
  unfold Stats.forest_uses.
  destruct p as [d ts [ps|]]; cbn [flat_map Stats.panels_of];
    rewrite <- app_comm_cons; cbn [flat_map]; rewrite ?flat_map_app;
    reflexivity.
Qed.

(** The loop tallies the targets of every panel of the stack, nested ones
    included, each once. *)
Lemma walk_events stack :
  exists names,
    Permutation names (Stats.forest_uses stack) /\
    forall uid t,
      Stats.walk uid stack t =
      fold_left (fun t e => Stats.tally e.1 t e.2) (map (pair uid) names) t.
Proof.
  remember (Stats.stack_size stack) as n eqn:En. revert stack En.
  induction n as [n IH] using lt_wf_ind. intros [| p rest] En.
  - exists []. split; [constructor|]. intros uid t.
    now rewrite Stats.walk_equation_1.
  - set (next := match Stats.p_panels p with
                 | Some ps => rev ps ++ rest
                 | None => rest
                 end).
    assert (Hlt : (Stats.stack_size next < n)%nat).
    { subst n next. destruct p as [d ts [ps|]]; simpl.
      - rewrite stack_size_app, stack_size_rev.
        unfold Stats.stack_size. simpl. lia.
      - unfold Stats.stack_size. simpl. lia. }
    destruct (IH _ Hlt next eq_refl) as (names & Hp & Hw).
    exists (Stats.uses p ++ names). split.
    + rewrite forest_uses_cons. apply Permutation_app_head.
      rewrite Hp. subst next. destruct (Stats.p_panels p) as [ps|]; simpl.
      * rewrite forest_uses_app. apply Permutation_app_tail, forest_uses_rev.
      * reflexivity.
    + intros uid t. rewrite Stats.walk_equation_2. fold next.
      now rewrite Hw, visit_uses, map_app, fold_left_app.
Qed.

(** The script tallies the counted pairs, each once. *)
Lemma scan_events panels_at dashboards :
  Stats.all_fetched panels_at dashboards ->
  exists evs,
    Permutation evs (Stats.counted panels_at dashboards) /\
    forall t,
      Stats.scan panels_at dashboards t =
      Some (fold_left (fun t e => Stats.tally e.1 t e.2) evs t).
Proof.
  induction 1 as [| d rest [ps Eps] _ IH].
  - exists []. split; [constructor | reflexivity].
  - destruct IH as (evs & Hp & Hs).
    destruct (walk_events (rev ps)) as (names & Hn & Hw).
    exists (map (pair (Stats.h_uid d)) names ++ evs). split.
    + unfold Stats.counted. cbn [flat_map].
      apply Permutation_app; [|exact Hp].
      apply Permutation_map. unfold Stats.dashboard_uses. rewrite Eps.
      rewrite Hn. apply forest_uses_rev.
    + intros t. cbn [Stats.scan]. rewrite Eps, Hw, Hs, fold_left_app.
      reflexivity.
Qed.

Lemma scan_fetched panels_at dashboards t t' :
  Stats.scan panels_at dashboards t = Some t' ->
  Stats.all_fetched panels_at dashboards.
Proof.
  revert t. induction dashboards as [| d rest IH]; intros t; simpl.
  - intros _. constructor.
  - destruct (panels_at (Stats.dashboard_path d)) as [ps|] eqn:E;
      [|discriminate].
    intros Hs. constructor; [rewrite E; eauto | eapply IH, Hs].
Qed.

(** ** The tallies *)

Lemma queries_nil ds : Stats.queries [] ds = [].
Proof. reflexivity. Qed.

Lemma queries_cons u d evs ds :
  Stats.queries ((u, d) :: evs) ds =
  if String.eqb d ds then u :: Stats.queries evs ds
  else Stats.queries evs ds.
Proof.
  unfold Stats.queries. destruct (String.eqb_spec d ds) as [E | N].
  - now rewrite filter_cons_True by exact E.
  - now rewrite filter_cons_False by exact N.
Qed.

Lemma queries_perm evs evs' ds :
  Permutation evs evs' ->
  Permutation (Stats.queries evs ds) (Stats.queries evs' ds).
Proof. intros Hp. unfold Stats.queries. now rewrite Hp. Qed.

Lemma queries_elem_of u evs ds :
  u ∈ Stats.queries evs ds <-> (u, ds) ∈ evs.
Proof.
  unfold Stats.queries. rewrite list_elem_of_fmap. split.
  - intros ([u' d] & -> & Hin). apply list_elem_of_filter in Hin.
    destruct Hin as [E Hin]. simpl in E. now subst d.
  - intros Hin. exists (u, ds). split; [reflexivity|].
    apply list_elem_of_filter. now split.
Qed.

Lemma tally_panels u t d ds :
  Stats.panels_of_ds (Stats.tally u t d) ds =
  if String.eqb d ds then S (Stats.panels_of_ds t ds)
  else Stats.panels_of_ds t ds.
Proof.
  unfold Stats.panels_of_ds, Stats.tally. cbn [Stats.ds_usage_panels].
  rewrite dict_get_set. now destruct (String.eqb_spec d ds) as [-> | N].
Qed.

Lemma tally_dash u t d ds :
  Stats.dashboards_of_ds (Stats.tally u t d) ds =
  if String.eqb d ds then {[ u ]} ∪ Stats.dashboards_of_ds t ds
  else Stats.dashboards_of_ds t ds.
Proof.
  unfold Stats.dashboards_of_ds, Stats.tally. cbn [Stats.ds_usage_dash].
  rewrite dict_get_set. now destruct (String.eqb_spec d ds) as [-> | N].
Qed.

Lemma fold_tally_panels evs t ds :
  Stats.panels_of_ds
    (fold_left (fun t e => Stats.tally e.1 t e.2) evs t) ds =
  (Stats.panels_of_ds t ds + length (Stats.queries evs ds))%nat.
Proof.
  revert t. induction evs as [| [u d] evs IH]; intros t; cbn [fold_left].
  - rewrite queries_nil. simpl. lia.
  - rewrite IH, queries_cons. cbn [fst snd]. rewrite tally_panels.
    destruct (String.eqb d ds); simpl; lia.
Qed.

Lemma fold_tally_dash evs t ds :
  Stats.dashboards_of_ds
    (fold_left (fun t e => Stats.tally e.1 t e.2) evs t) ds =
  Stats.dashboards_of_ds t ds ∪ list_to_set (Stats.queries evs ds).
Proof.
  revert t. induction evs as [| [u d] evs IH]; intros t; cbn [fold_left].
  - rewrite queries_nil, list_to_set_nil. now rewrite (right_id_L ∅ (∪)).
  - rewrite IH, queries_cons. cbn [fst snd]. rewrite tally_dash.
    destruct (String.eqb d ds); [|reflexivity].
    rewrite list_to_set_cons, (assoc_L (∪)).
    f_equal. apply (comm_L (∪)).

Qed.

Lemma fold_tally_wf evs t :
  dict_wf (Stats.ds_usage_dash t) ->
  dict_wf (Stats.ds_usage_dash
             (fold_left (fun t e => Stats.tally e.1 t e.2) evs t)).
Proof.
  revert t. induction evs as [| [u d] evs IH]; intros t Hwf; cbn [fold_left].
  - exact Hwf.
  - apply IH. unfold Stats.tally. cbn [Stats.ds_usage_dash].
    now apply dict_set_wf.
Qed.

Lemma fold_tally_keys evs t ds :
  ds ∈ (fst <$> Stats.ds_usage_dash
                  (fold_left (fun t e => Stats.tally e.1 t e.2) evs t)) <->
  ds ∈ (fst <$> Stats.ds_usage_dash t) \/ ds ∈ (snd <$> evs).
Proof.
  revert t. induction evs as [| [u d] evs IH]; intros t; cbn [fold_left].
  - rewrite fmap_nil, elem_of_nil. tauto.
  - rewrite IH. unfold Stats.tally at 1. cbn [Stats.ds_usage_dash fst snd].
    rewrite dict_set_keys, fmap_cons, elem_of_cons. cbn [snd]. tauto.
Qed.

(** A line of the report, read off the tallies. *)
Lemma report_elem_of t ds n k :
  dict_wf (Stats.ds_usage_dash t) ->
  (ds, n, k) ∈ Stats.report t ->
  ds ∈ (fst <$> Stats.ds_usage_dash t) /\
  n = size (Stats.dashboards_of_ds t ds) /\
  k = Stats.panels_of_ds t ds.
Proof.
  intros Hwf Hin. unfold Stats.report in Hin.
  apply list_elem_of_In, in_map_iff in Hin.
  destruct Hin as ([ds' dashes] & E & Hin). injection E as -> <- <-.
  apply list_elem_of_In in Hin. split; [|split].
  - apply list_elem_of_fmap. now exists (ds, dashes).
  - unfold Stats.dashboards_of_ds.
    now rewrite (dict_get_of_elem _ _ _ Hwf Hin).
  - reflexivity.
Qed.

Lemma report_names t :
  (fun l => l.1.1) <$> Stats.report t = fst <$> Stats.ds_usage_dash t.
Proof.
  unfold Stats.report. induction (Stats.ds_usage_dash t) as [| [ds S] d IH].
  - reflexivity.
  - cbn [map]. rewrite !fmap_cons, IH. reflexivity.
Qed.

Lemma size_list_to_set_le (l : list (option string)) :
  (size (list_to_set (C := gset (option string)) l) <= length l)%nat.
Proof.
  induction l as [| x l IH].
  - rewrite list_to_set_nil, size_empty. reflexivity.
  - rewrite list_to_set_cons, size_union_alt, size_singleton. cbn [length].
    pose proof (subseteq_size (list_to_set l ∖ {[x]})
                  (list_to_set (C := gset (option string)) l)) as Hs.
    assert (Hsub : (list_to_set l ∖ {[x]} : gset (option string)) ⊆
                   list_to_set l).
    { intros y Hy. apply elem_of_difference in Hy. tauto. }
    specialize (Hs Hsub). lia.
Qed.

(** What is counted comes from a target of a dashboard of the list. *)
Lemma counted_elem_of panels_at dashboards u ds :
  (u, ds) ∈ Stats.counted panels_at dashboards ->
  (exists d, d ∈ dashboards /\ Stats.h_uid d = u) /\
  exists target panel_ds, ds = Stats.resolve target panel_ds.
Proof.
  unfold Stats.counted. rewrite list_elem_of_In, in_flat_map.
  intros (d & Hd & Hin). apply in_map_iff in Hin.
  destruct Hin as (ds' & E & Hin). injection E as <- ->. split.
  - exists d. split; [now apply list_elem_of_In | reflexivity].
  - unfold Stats.dashboard_uses in Hin.
    destruct (panels_at (Stats.dashboard_path d)) as [ps|]; [|destruct Hin].
    unfold Stats.forest_uses in Hin. apply in_flat_map in Hin.
    destruct Hin as (p & _ & Hin). unfold Stats.uses in Hin.
    apply in_map_iff in Hin. destruct Hin as (target & <- & _). eauto.
Qed.

(** The report of a run in which every dashboard is fetched. *)
Lemma main_report panels_at dashboards :
  Stats.all_fetched panels_at dashboards ->
  exists evs,
    Permutation evs (Stats.counted panels_at dashboards) /\
    Stats.main (Some dashboards) panels_at =
    Some (length dashboards,
          Stats.report
            (fold_left (fun t e => Stats.tally e.1 t e.2) evs
               Stats.no_tallies)).
Proof.
  intros Hf. destruct (scan_events _ _ Hf) as (evs & Hp & Hs).
  exists evs. split; [exact Hp|]. unfold Stats.main. now rewrite Hs.
Qed.

Lemma no_tallies_wf : dict_wf (Stats.ds_usage_dash Stats.no_tallies).
Proof. apply NoDup_nil_2. Qed.

Lemma two_dashboards_fetched :
  Stats.all_fetched Stats.two_dashboards Stats.two_hits.
Proof.
  unfold Stats.all_fetched, Stats.two_hits.
  repeat constructor; vm_compute; eauto.
Qed.

(** X23: when every dashboard can be fetched the script ends with one
    line per name, and a line shows for its name the number of targets
    counted under it, over all the dashboards and at any depth of nesting,
    and the number of different dashboards that have such a target. *)
Theorem stats_report_counts panels_at dashboards :
  Stats.all_fetched panels_at dashboards ->
  exists lines,
    Stats.main (Some dashboards) panels_at =
      Some (length dashboards, lines) /\
    forall ds n k, (ds, n, k) ∈ lines ->
      k = length (Stats.queries (Stats.counted panels_at dashboards) ds) /\
      n = size (list_to_set (C := gset (option string))
                  (Stats.queries (Stats.counted panels_at dashboards) ds)).
Proof.
  intros Hf. destruct (main_report _ _ Hf) as (evs & Hp & Hm).
  eexists. split; [exact Hm|]. intros ds n k Hin.
  apply report_elem_of in Hin; [|apply fold_tally_wf, no_tallies_wf].
  destruct Hin as (_ & -> & ->).
  pose proof (queries_perm _ _ ds Hp) as Hq.
  rewrite fold_tally_panels, fold_tally_dash. split.
  - rewrite (Permutation_length Hq). reflexivity.
  - rewrite (list_to_set_perm_L _ _ Hq).
    unfold Stats.dashboards_of_ds. cbn [Stats.no_tallies Stats.ds_usage_dash
      dict_get default]. now rewrite (left_id_L ∅ (∪)).
Qed.

Lemma stats_report_counts_witness :
  Stats.all_fetched Stats.two_dashboards Stats.two_hits /\
  exists lines,
    Stats.main (Some Stats.two_hits) Stats.two_dashboards =
      Some (length Stats.two_hits, lines) /\
    forall ds n k, (ds, n, k) ∈ lines ->
      k = length (Stats.queries
                    (Stats.counted Stats.two_dashboards Stats.two_hits) ds) /\
      n = size (list_to_set (C := gset (option string))
                  (Stats.queries
                     (Stats.counted Stats.two_dashboards Stats.two_hits) ds)).
Proof.
  split; [exact two_dashboards_fetched|].
  exact (stats_report_counts _ _ two_dashboards_fetched).
Defined.

(** X24: the report has one line per name: the names of its lines are
    pairwise different, none is empty, and a name has a line exactly when a
    target of some dashboard is counted under it. *)
Theorem stats_report_one_line_per_name panels_at dashboards :
  Stats.all_fetched panels_at dashboards ->
  exists lines,
    Stats.main (Some dashboards) panels_at =
      Some (length dashboards, lines) /\
    NoDup ((fun l => l.1.1) <$> lines) /\
    ("" ∉ ((fun l => l.1.1) <$> lines)) /\
    forall ds,
      ds ∈ ((fun l => l.1.1) <$> lines) <->
      ds ∈ (snd <$> Stats.counted panels_at dashboards).
Proof.
  intros Hf. destruct (main_report _ _ Hf) as (evs & Hp & Hm).
  eexists. split; [exact Hm|]. rewrite report_names.
  assert (Hk : forall ds,
    ds ∈ (fst <$> Stats.ds_usage_dash
            (fold_left (fun t e => Stats.tally e.1 t e.2) evs
               Stats.no_tallies)) <->
    ds ∈ (snd <$> Stats.counted panels_at dashboards)).
  { intros ds. rewrite fold_tally_keys. simpl. rewrite elem_of_nil, Hp.
    tauto. }
  split; [apply fold_tally_wf, no_tallies_wf|]. split; [|exact Hk].
  rewrite Hk. intros Hin. apply list_elem_of_fmap in Hin.
  destruct Hin as ([u ds] & E & Hin). simpl in E. subst ds.
  apply counted_elem_of in Hin. destruct Hin as (_ & target & p & E).
  symmetry in E. now apply resolve_nonempty in E.
Qed.

Lemma stats_report_one_line_per_name_witness :
  Stats.all_fetched Stats.two_dashboards Stats.two_hits /\
  exists lines,
    Stats.main (Some Stats.two_hits) Stats.two_dashboards =
      Some (length Stats.two_hits, lines) /\
    NoDup ((fun l => l.1.1) <$> lines) /\
    ("" ∉ ((fun l => l.1.1) <$> lines)) /\
    forall ds,
      ds ∈ ((fun l => l.1.1) <$> lines) <->
      ds ∈ (snd <$> Stats.counted Stats.two_dashboards Stats.two_hits).
Proof.
  split; [exact two_dashboards_fetched|].
  exact (stats_report_one_line_per_name _ _ two_dashboards_fetched).
Defined.

(** X25: in every line the script prints, the number of dashboards is at
    least one, at most the number of targets of the line, and at most the
    number of dashboards found. *)
Theorem stats_report_bounds search panels_at found lines ds n k :
  Stats.main search panels_at = Some (found, lines) ->
  (ds, n, k) ∈ lines ->
  (1 <= n)%nat /\ (n <= k)%nat /\ (n <= found)%nat.
Proof.
  unfold Stats.main. destruct search as [dashboards|]; [|discriminate].
  destruct (Stats.scan panels_at dashboards Stats.no_tallies) as [t|] eqn:Es;
    [|discriminate].
  pose proof (scan_fetched _ _ _ _ Es) as Hf.
  destruct (scan_events _ _ Hf) as (evs & Hp & Hs).
  rewrite Hs in Es. injection Es as <-. intros E Hin.
  injection E as <- <-.
  apply report_elem_of in Hin; [|apply fold_tally_wf, no_tallies_wf].
  destruct Hin as (Hkey & -> & ->).
  rewrite fold_tally_panels, fold_tally_dash.
  replace (Stats.dashboards_of_ds Stats.no_tallies ds) with
    (∅ : gset (option string)) by reflexivity.
  rewrite (left_id_L ∅ (∪)).
  split; [|split].
  - apply fold_tally_keys in Hkey. simpl in Hkey.
    destruct Hkey as [Hkey | Hkey]; [now apply elem_of_nil in Hkey|].
    apply list_elem_of_fmap in Hkey. destruct Hkey as ([u d] & E & Hin).
    simpl in E. subst d. apply queries_elem_of in Hin.
    assert (Hne : list_to_set (C := gset (option string))
                    (Stats.queries evs ds) ≢ ∅).
    { intros He. apply (elem_of_list_to_set (C := gset (option string))) in Hin.
      rewrite He in Hin. now apply elem_of_empty in Hin. }
    apply size_non_empty_iff in Hne. lia.
  - unfold Stats.panels_of_ds. simpl. apply size_list_to_set_le.
  - pose proof (size_list_to_set_le (Stats.h_uid <$> dashboards)) as Hle.
    rewrite length_fmap in Hle.
    etransitivity; [|exact Hle].
    apply subseteq_size. intros u Hu.
    apply elem_of_list_to_set, queries_elem_of in Hu. rewrite Hp in Hu.
    apply counted_elem_of in Hu. destruct Hu as ((d & Hd & <-) & _).
    apply elem_of_list_to_set, list_elem_of_fmap. eauto.
Qed.

Lemma stats_report_bounds_witness :
  Stats.main (Some Stats.two_hits) Stats.two_dashboards =
    Some (2%nat, [("loki", 1%nat, 1%nat); ("tempo", 1%nat, 1%nat);
                  ("prom-1", 1%nat, 2%nat); ("<default>", 1%nat, 1%nat)]) /\
  ("prom-1", 1%nat, 2%nat) ∈
    [("loki", 1%nat, 1%nat); ("tempo", 1%nat, 1%nat);
     ("prom-1", 1%nat, 2%nat); ("<default>", 1%nat, 1%nat)] /\
  (1 <= 1)%nat /\ (1 <= 2)%nat /\ (1 <= 2)%nat.
Proof.
  assert (Hm : Stats.main (Some Stats.two_hits) Stats.two_dashboards =
    Some (2%nat, [("loki", 1%nat, 1%nat); ("tempo", 1%nat, 1%nat);
                  ("prom-1", 1%nat, 2%nat); ("<default>", 1%nat, 1%nat)]))
    by (vm_compute; reflexivity).
  assert (Hin : ("prom-1", 1%nat, 2%nat) ∈
    [("loki", 1%nat, 1%nat); ("tempo", 1%nat, 1%nat);
     ("prom-1", 1%nat, 2%nat); ("<default>", 1%nat, 1%nat)])
    by (do 2 apply list_elem_of_further; apply list_elem_of_here).
  split; [exact Hm|]. split; [exact Hin|].
  exact (stats_report_bounds _ _ _ _ _ _ _ Hm Hin).
Defined.
